(** * RepoRewrite: a shallow embedding of [reporewrite.py]

    The development follows the classes of the program:

    - [LoggingModule]        the in-memory event log every class appends to;
    - [RepositoryHandler]    [clone_repo] and [cleanup];
    - [CommitModifier]       [randomize_commit_dates], [update_commit_metadata]
                             and [_update_commit_dates];
    - [BranchRemoteManager]  [rename_branch], [set_remote_url] and
                             [add_remote];
    - [FileProcessor]        [scan_and_replace], [update_all_files] and
                             [find_sensitive_files];
    - [RemoteRepositoryManager]  [create_remote_repo], [configure_remote] and
                             [push_changes];
    - [BackendController]    [initialize], [process_batch], [rewrite_history],
                             [rename_branches], [clean_sensitive_data],
                             [setup_remote_and_push] and [cleanup].

    Python methods become computations in a state-and-exception monad: the
    state holds what the method reads and mutates (the log, the repository,
    the files on disk), a raised exception is the [Raise] result.  The
    collaborators the program drives but does not implement (git, the
    regular-expression engine, the clock, the random generator, the hosting
    provider, the remote side of a push) are either small executable models
    given here, fields of the state that tell their answers, or parameters
    of a [Section]. *)

From Stdlib Require Import ZArith QArith Qround Lqa String Ascii List Lia.
From stdpp Require Import base gmap strings list sorting pretty.

Local Open Scope string_scope.
Local Open Scope list_scope.

(** ** Exceptions and the monad of methods *)

(** The exception classes the program raises or lets through.  All of them
    derive from Python's [Exception]; [str(e)] is the carried message. *)
Inductive exn : Type :=
  | ValueError (msg : string)
  | RuntimeError (msg : string)
  | GitCommandError (msg : string)
  | OSError (msg : string)
  | ReError (msg : string)
  | Exception (msg : string).

Definition str (e : exn) : string :=
  match e with
  | ValueError m | RuntimeError m | GitCommandError m
  | OSError m | ReError m | Exception m => m
  end.

Inductive result (A : Type) : Type :=
  | Ok (a : A)
  | Raise (e : exn).
Arguments Ok {A} a.
Arguments Raise {A} e.

(** A method over a state [S] returning an [A]. *)
Definition M (S A : Type) : Type := S -> result A * S.

Definition ret {S A} (a : A) : M S A := fun s => (Ok a, s).

Definition raise {S A} (e : exn) : M S A := fun s => (Raise e, s).

Definition bind {S A B} (m : M S A) (k : A -> M S B) : M S B :=
  fun s => match m s with
           | (Ok a, s') => k a s'
           | (Raise e, s') => (Raise e, s')
           end.

(** [try: m except Exception as e: h e] *)
Definition try_except {S A} (m : M S A) (h : exn -> M S A) : M S A :=
  fun s => match m s with
           | (Ok a, s') => (Ok a, s')
           | (Raise e, s') => h e s'
           end.

(** [try: m finally: f].  The [finally] block runs on both exits; when it
    raises, its exception replaces the pending outcome. *)
Definition try_finally {S A} (m : M S A) (f : M S unit) : M S A :=
  fun s => match m s with
           | (r, s') => match f s' with
                        | (Ok _, s'') => (r, s'')
                        | (Raise e, s'') => (Raise e, s'')
                        end
           end.

Definition get {S} : M S S := fun s => (Ok s, s).
Definition gets {S A} (f : S -> A) : M S A := fun s => (Ok (f s), s).
Definition modify {S} (f : S -> S) : M S unit := fun s => (Ok tt, f s).

Notation "'let*' x ':=' m 'in' k" := (bind m (fun x => k))
  (at level 10, x pattern, m at level 100, k at level 200).
Notation "m >> k" := (bind m (fun _ => k))
  (at level 100, k at level 200, right associativity).

(** [for x in xs: body x] *)
Fixpoint for_each {S A} (xs : list A) (body : A -> M S unit) : M S unit :=
  match xs with
  | [] => ret tt
  | x :: xs' => body x >> for_each xs' body
  end.

(** [[body x for x in xs]] *)
Fixpoint list_comp {S A B} (xs : list A) (body : A -> M S B) : M S (list B) :=
  match xs with
  | [] => ret []
  | x :: xs' => let* y := body x in
                let* ys := list_comp xs' body in
                ret (y :: ys)
  end.

(** ** LoggingModule *)

Inductive log_level : Type := DEBUG | INFO | WARNING | ERROR | CRITICAL.

(** One element of [LoggingModule.logs].  The entry's time stamp prefix is
    left out; the level is kept although the program only hands it to the
    [logging] handlers. *)
Record log_entry : Type := LogEntry {
  event_type : string;
  message : string;
  level : log_level
}.

(** States that carry [LoggingModule.logs]. *)
Class Logging (S : Type) : Type := {
  logs : S -> list log_entry;
  set_logs : list log_entry -> S -> S
}.

(** The state with one more entry at the end of the log. *)
Definition logged {S} `{Logging S} (entry : log_entry) (s : S) : S :=
  set_logs (logs s ++ [entry]) s.

Definition log_event {S} `{Logging S}
    (event_type message : string) (level : log_level) : M S unit :=
  modify (logged (LogEntry event_type message level)).

(** ** The git object model

    What the program sees of a repository through GitPython and the git
    command line.  A commit is its content: the identity and date fields git
    exports to an environment filter, the tree, the message and the parent
    commits.  Commits are content-addressed, so a commit _is_ this value and
    two commits with the same fields and parents are the same commit. *)
Module Git.

Record commit_env : Type := CommitEnv {
  GIT_AUTHOR_NAME : string;
  GIT_AUTHOR_EMAIL : string;
  GIT_AUTHOR_DATE : Z;
  GIT_COMMITTER_NAME : string;
  GIT_COMMITTER_EMAIL : string;
  GIT_COMMITTER_DATE : Z
}.

#[local] Unset Elimination Schemes.
Inductive commit : Type :=
  | Commit (env : commit_env) (tree : string) (msg : string)
           (parents : list commit).
#[local] Set Elimination Schemes.

Definition commit_env_of (c : commit) : commit_env :=
  match c with Commit e _ _ _ => e end.

Definition parents_of (c : commit) : list commit :=
  match c with Commit _ _ _ ps => ps end.

Definition author_name (c : commit) : string := GIT_AUTHOR_NAME (commit_env_of c).
Definition author_email (c : commit) : string := GIT_AUTHOR_EMAIL (commit_env_of c).

Definition env_eqb (a b : commit_env) : bool :=
  String.eqb (GIT_AUTHOR_NAME a) (GIT_AUTHOR_NAME b)
  && String.eqb (GIT_AUTHOR_EMAIL a) (GIT_AUTHOR_EMAIL b)
  && Z.eqb (GIT_AUTHOR_DATE a) (GIT_AUTHOR_DATE b)
  && String.eqb (GIT_COMMITTER_NAME a) (GIT_COMMITTER_NAME b)
  && String.eqb (GIT_COMMITTER_EMAIL a) (GIT_COMMITTER_EMAIL b)
  && Z.eqb (GIT_COMMITTER_DATE a) (GIT_COMMITTER_DATE b).

Fixpoint commit_eqb (a b : commit) : bool :=
  match a, b with
  | Commit e1 t1 m1 ps1, Commit e2 t2 m2 ps2 =>
      env_eqb e1 e2 && String.eqb t1 t2 && String.eqb m1 m2
      && (fix all2 (l1 l2 : list commit) : bool :=
            match l1, l2 with
            | [], [] => true
            | x :: l1', y :: l2' => commit_eqb x y && all2 l1' l2'
            | _, _ => false
            end) ps1 ps2
  end.

(** Structural induction through the list of parents. *)
Lemma commit_ind' (P : commit -> Prop) :
  (forall e t m ps, Forall P ps -> P (Commit e t m ps)) ->
  forall c, P c.
Proof.
  intros step. fix IH 1. intros [e t m ps]. apply step.
  induction ps as [|p ps IHps]; constructor; [apply IH | exact IHps].
Qed.

Lemma env_eqb_spec a b : env_eqb a b = true <-> a = b.
Proof.
  destruct a, b; unfold env_eqb; simpl.
  rewrite !andb_true_iff, !String.eqb_eq, !Z.eqb_eq.
  split; [intros [[[[[-> ->] ->] ->] ->] ->]; reflexivity|].
  intros [= -> -> -> -> -> ->]; repeat split.
Qed.

Lemma commit_eqb_spec a b : commit_eqb a b = true <-> a = b.
Proof.
  revert b. induction a as [e t m ps IH] using commit_ind'.
  intros [e' t' m' ps']. simpl.
  rewrite !andb_true_iff, env_eqb_spec, !String.eqb_eq.
  assert (Hps : forall l2,
    (fix all2 (l1 l2 : list commit) : bool :=
       match l1, l2 with
       | [], [] => true
       | x :: l1', y :: l2' => commit_eqb x y && all2 l1' l2'
       | _, _ => false
       end) ps l2 = true <-> ps = l2).
  { induction IH as [|p ps Hp _ IHps]; intros [|q l2]; try (split; [discriminate|congruence]).
    - split; reflexivity.
    - rewrite andb_true_iff, Hp, IHps. split; [intros [-> ->]; reflexivity|].
      intros [= -> ->]; split; reflexivity. }
  rewrite Hps. split; [intros [[[-> ->] ->] ->]; reflexivity|].
  intros [= -> -> -> ->]; repeat split.
Qed.

#[global] Instance commit_eq_dec : EqDecision commit.
Proof.
  intros a b. destruct (commit_eqb a b) eqn:E.
  - left. apply commit_eqb_spec, E.
  - right. intros H. apply commit_eqb_spec in H. congruence.
Defined.

(** The commits reachable from [c], [c] first: what [git rev-list c]
    enumerates, each commit once.  (git orders its log by date; the order
    here is a depth-first walk of the parents.) *)
Fixpoint ancestry (c : commit) : list commit :=
  match c with
  | Commit _ _ _ ps => c :: flat_map ancestry ps
  end.

Definition rev_list (c : commit) : list commit := remove_dups (ancestry c).

(** A repository: its refs (name and tip commit) and the name [HEAD] points
    to. *)
Record repository : Type := Repository {
  refs : list (string * commit);
  HEAD : string
}.

Definition set_refs (r : list (string * commit)) (repo : repository) : repository :=
  Repository r (HEAD repo).

(** [repo.branches], by name. *)
Definition branches (repo : repository) : list string := map fst (refs repo).

Definition ref_tip (repo : repository) (name : string) : option commit :=
  snd <$> List.find (fun r => String.eqb (fst r) name) (refs repo).

(** [list(repo.iter_commits())]: the commits reachable from [HEAD]; none
    when [HEAD] names no ref. *)
Definition iter_commits (repo : repository) : list commit :=
  match ref_tip repo (HEAD repo) with
  | Some tip => rev_list tip
  | None => []
  end.

(** An environment filter sees the id of the commit being rewritten
    ([GIT_COMMIT]) and its exported variables, and leaves the variables the
    rewritten commit is made with. *)
Definition env_filter : Type := string -> commit_env -> commit_env.

Section FilterBranch.
(** The id of a commit ([commit.hexsha], git's SHA-1 of the object): any
    function of the commit. *)
Variable hexsha : commit -> string.

(** [git filter-branch --env-filter f] on one commit: the parents are
    rewritten first and a parent met twice is kept once; tree and message
    stay. *)
Fixpoint rewrite_commit (f : env_filter) (c : commit) : commit :=
  match c with
  | Commit e t m ps =>
      Commit (f (hexsha c) e) t m (remove_dups (map (rewrite_commit f) ps))
  end.

(** [git filter-branch -f --env-filter f -- --all] when it exits with
    status 0: every ref points to the rewritten counterpart of its tip. *)
Definition filter_branch_all (f : env_filter) (repo : repository) : repository :=
  set_refs (map (fun r => (fst r, rewrite_commit f (snd r))) (refs repo)) repo.
End FilterBranch.

End Git.

(** ** Dates, durations and the random generator *)

(** A naive [datetime.datetime]: microseconds since the epoch.  A
    [datetime.timedelta]: a number of microseconds. *)
Definition datetime : Type := Z.
Definition timedelta : Type := Z.

Definition timedelta_days (n : Z) : timedelta := (n * 86400 * 1000000)%Z.

(** [d.total_seconds()].  Python's floats are read as the rationals they
    stand for: rounding of float products is not part of the model. *)
Definition total_seconds (d : timedelta) : Q := inject_Z d / inject_Z 1000000.

(** Round to the nearest integer, ties to the even one: what the
    [timedelta] constructor does with a fractional number of microseconds. *)
Definition round_half_even (q : Q) : Z :=
  let f := Qfloor q in
  match (q - inject_Z f ?= 1 # 2)%Q with
  | Lt => f
  | Gt => (f + 1)%Z
  | Eq => if Z.even f then f else (f + 1)%Z
  end.

(** [datetime.timedelta(seconds=sec)] *)
Definition timedelta_seconds (sec : Q) : timedelta :=
  round_half_even (sec * inject_Z 1000000).

(** [random.random()] from the generator's raw 53 bits: [k / 2^53], a
    float in [[0, 1)]. *)
Definition random_unit (bits : Z) : Q :=
  inject_Z (bits mod 2 ^ 53) / inject_Z (2 ^ 53).

#[global] Instance Qle_decision (x y : Q) : Decision (x <= y)%Q :=
  match Qlt_le_dec y x with
  | left H => right (Qlt_not_le _ _ H)
  | right H => left H
  end.

(** [l.sort(reverse=True)] on floats. *)
Definition sort_reverse (l : list Q) : list Q :=
  merge_sort (fun a b => (b <= a)%Q) l.

(** Python's truth value of a string: non-empty. *)
Definition truthy (s : string) : bool :=
  match s with EmptyString => false | _ => true end.

(** [s[:n]] *)
Fixpoint str_take (n : nat) (s : string) : string :=
  match n, s with
  | S n', String c s' => String c (str_take n' s')
  | _, _ => EmptyString
  end.

(** [d[k] = v] on a [dict], which keeps the order of first insertion. *)
Fixpoint dict_set {V} (k : string) (v : V) (d : list (string * V)) : list (string * V) :=
  match d with
  | [] => [(k, v)]
  | (k', v') :: d' => if String.eqb k' k then (k, v) :: d'
                      else (k', v') :: dict_set k v d'
  end.

(** ** CommitModifier *)
Module CommitModifier.
Import Git.

(** How one run of [git filter-branch] ends: with status 0, or with a
    non-zero status, a diagnostic on stderr and the repository as the tool
    left it. *)
Inductive tool_outcome : Type :=
  | ExitZero
  | ExitNonzero (stderr : string) (left_behind : repository).

(** The files the class writes under [.git]: the date map (its lines, an
    abbreviated id and a date each) and the filter script. *)
Inductive scratch_file : Type :=
  | DateMapFile (lines : list (string * Z))
  | FilterScript.

(** What a [CommitModifier] works on: the shared log, the repository at
    [repo_path], the scratch files under its [.git], and the environment:
    the outcome of each coming run of the rewrite tool (status 0 once the
    list is used up), the random generator and the clock. *)
Record state : Type := State {
  st_logs : list log_entry;
  repo_path : string;
  st_repo : repository;
  git_dir : gmap string scratch_file;
  tool_runs : list tool_outcome;
  random_bits : nat -> Z;
  random_pos : nat;
  clock : nat -> datetime;
  clock_pos : nat
}.

Definition with_logs (l : list log_entry) (s : state) : state :=
  State l (repo_path s) (st_repo s) (git_dir s) (tool_runs s)
        (random_bits s) (random_pos s) (clock s) (clock_pos s).
Definition with_repo (r : repository) (s : state) : state :=
  State (st_logs s) (repo_path s) r (git_dir s) (tool_runs s)
        (random_bits s) (random_pos s) (clock s) (clock_pos s).
Definition with_git_dir (g : gmap string scratch_file) (s : state) : state :=
  State (st_logs s) (repo_path s) (st_repo s) g (tool_runs s)
        (random_bits s) (random_pos s) (clock s) (clock_pos s).
Definition with_tool_runs (t : list tool_outcome) (s : state) : state :=
  State (st_logs s) (repo_path s) (st_repo s) (git_dir s) t
        (random_bits s) (random_pos s) (clock s) (clock_pos s).
Definition with_random_pos (n : nat) (s : state) : state :=
  State (st_logs s) (repo_path s) (st_repo s) (git_dir s) (tool_runs s)
        (random_bits s) n (clock s) (clock_pos s).
Definition with_clock_pos (n : nat) (s : state) : state :=
  State (st_logs s) (repo_path s) (st_repo s) (git_dir s) (tool_runs s)
        (random_bits s) (random_pos s) (clock s) n.

#[global] Instance state_logging : Logging state :=
  {| logs := st_logs; set_logs := with_logs |}.

(** [random.random()] *)
Definition random_random : M state Q :=
  fun s => (Ok (random_unit (random_bits s (random_pos s))),
            with_random_pos (S (random_pos s)) s).

(** [datetime.datetime.now()] *)
Definition datetime_now : M state datetime :=
  fun s => (Ok (clock s (clock_pos s)), with_clock_pos (S (clock_pos s)) s).

(** [randomize_commit_dates(start_date=None, end_date=None)] *)
Definition randomize_commit_dates (start_date end_date : option datetime)
    : M state (list datetime) :=
  try_except
    (let* repo := gets st_repo in
     let* start_date :=
       match start_date with
       | None => let* now := datetime_now in ret (now - timedelta_days 365)%Z
       | Some d => ret d
       end in
     let* end_date :=
       match end_date with
       | None => datetime_now
       | Some d => ret d
       end in
     let commits := iter_commits repo in
     let num_commits := length commits in
     let time_range := total_seconds (end_date - start_date)%Z in
     let* random_seconds :=
       list_comp (seq 0 num_commits)
                 (fun _ => let* r := random_random in ret (r * time_range)%Q) in
     let random_seconds := sort_reverse random_seconds in
     let random_dates :=
       map (fun sec => (start_date + timedelta_seconds sec)%Z) random_seconds in
     log_event "INFO" ("Generated " +:+ pretty num_commits
                       +:+ " random commit dates between " +:+ pretty start_date
                       +:+ " and " +:+ pretty end_date) INFO >>
     ret random_dates)
    (fun e =>
       log_event "ERROR" ("Failed to randomize commit dates: " +:+ str e) ERROR >>
       raise e).

(** [os.remove(path)] and writing a file, on the scratch files under
    [.git]. *)
Definition write_scratch (name : string) (f : scratch_file) : M state unit :=
  modify (fun s => with_git_dir (<[name := f]> (git_dir s)) s).
Definition os_remove (name : string) : M state unit :=
  modify (fun s => with_git_dir (delete name (git_dir s)) s).

(** [new_date.strftime('%Y-%m-%d %H:%M:%S')]: the date to the second, the
    format git reads back.  Dates in a commit are counted in seconds. *)
Definition strftime (d : datetime) : Z := (d / 1000000)%Z.

(** The environment filter [update_commit_metadata] hands to the tool:
<<
    if [ "$GIT_AUTHOR_NAME" != "{new_author}" ] || [ "$GIT_AUTHOR_EMAIL" != "{new_email}" ]; then
        export GIT_AUTHOR_NAME="{new_author}"
        export GIT_AUTHOR_EMAIL="{new_email}"
        export GIT_COMMITTER_NAME="{new_author}"
        export GIT_COMMITTER_EMAIL="{new_email}"
    fi
>>
    The name and the e-mail are taken as the shell reads them between
    double quotes when they hold no character special to it. *)
Definition author_filter (new_author new_email : string) : env_filter :=
  fun _ e =>
    if negb (String.eqb (GIT_AUTHOR_NAME e) new_author)
       || negb (String.eqb (GIT_AUTHOR_EMAIL e) new_email)
    then CommitEnv new_author new_email (GIT_AUTHOR_DATE e)
                   new_author new_email (GIT_COMMITTER_DATE e)
    else e.

(** [[[ "$GIT_COMMIT" == "$SHA"* ]]] *)
Definition starts_with (sha git_commit : string) : bool :=
  String.prefix sha git_commit.

(** The script written to [.git/change_dates.sh], reading the lines of
    [.git/date_map.txt]:
<<
    while read line; do
        SHA=$(echo $line | cut -d' ' -f1)
        DATE=$(echo $line | cut -d' ' -f2-)
        if [[ "$GIT_COMMIT" == "$SHA"* ]]; then
            export GIT_AUTHOR_DATE="$DATE"
            export GIT_COMMITTER_DATE="$DATE"
            break
        fi
    done < .git/date_map.txt
>> *)
Fixpoint change_dates (lines : list (string * Z)) : env_filter :=
  fun git_commit e =>
    match lines with
    | [] => e
    | (sha, date) :: rest =>
        if starts_with sha git_commit
        then CommitEnv (GIT_AUTHOR_NAME e) (GIT_AUTHOR_EMAIL e) date
                       (GIT_COMMITTER_NAME e) (GIT_COMMITTER_EMAIL e) date
        else change_dates rest git_commit e
    end.

Section Rewrite.
Variable hexsha : commit -> string.

(** [subprocess.Popen("git filter-branch -f --env-filter ... -- --all")]
    followed by [communicate()]: the return code and stderr.  The run takes
    its outcome from the environment; with status 0 the refs are rewritten
    through the filter. *)
Definition git_filter_branch (f : env_filter) : M state (Z * string) :=
  fun s =>
    let s' := with_tool_runs (tail (tool_runs s)) s in
    match head (tool_runs s) with
    | Some (ExitNonzero stderr left_behind) =>
        (Ok (1%Z, stderr), with_repo left_behind s')
    | _ =>
        (Ok (0%Z, ""), with_repo (filter_branch_all hexsha f (st_repo s)) s')
    end.

(** The filter a run with [--env-filter '.git/change_dates.sh'] applies:
    the script over the date map found on disk at that time. *)
Definition script_on_disk (s : state) : env_filter :=
  match git_dir s !! ".git/date_map.txt" with
  | Some (DateMapFile lines) => change_dates lines
  | _ => fun _ e => e
  end.

(** [_update_commit_dates(new_dates)] *)
Definition _update_commit_dates (new_dates : list datetime) : M state bool :=
  try_except
    (let* repo := gets st_repo in
     let commits := iter_commits repo in
     if negb (length commits =? length new_dates)%nat then
       let error_msg :=
         "Number of commits (" +:+ pretty (length commits)
         +:+ ") doesn't match number of dates ("
         +:+ pretty (length new_dates) +:+ ")" in
       log_event "ERROR" error_msg ERROR >>
       raise (ValueError error_msg)
     else
       let date_map :=
         fold_left (fun dm cd => dict_set (str_take 7 (hexsha (fst cd)))
                                          (strftime (snd cd)) dm)
                   (zip commits new_dates) [] in
       write_scratch ".git/date_map.txt" (DateMapFile date_map) >>
       write_scratch ".git/change_dates.sh" FilterScript >>
       let* path := gets repo_path in
       log_event "INFO" ("Running command: cd " +:+ path
         +:+ " && git filter-branch -f --env-filter '.git/change_dates.sh' -- --all")
         INFO >>
       let* filter := gets script_on_disk in
       let* (returncode, stderr) := git_filter_branch filter in
       if negb (returncode =? 0)%Z then
         log_event "ERROR" ("Error updating commit dates: " +:+ stderr) ERROR >>
         raise (RuntimeError ("Error updating commit dates: " +:+ stderr))
       else
         os_remove ".git/date_map.txt" >>
         os_remove ".git/change_dates.sh" >>
         log_event "INFO" "Commit dates updated successfully" INFO >>
         ret true)
    (fun e =>
       log_event "ERROR" ("Failed to update commit dates: " +:+ str e) ERROR >>
       raise e).

(** [update_commit_metadata(new_author, new_email, new_dates=None)].
    [new_dates] is [None] or a list; both [None] and the empty list are
    false to [if new_dates:]. *)
Definition update_commit_metadata (new_author new_email : string)
    (new_dates : option (list datetime)) : M state bool :=
  try_except
    ((if truthy new_author && truthy new_email then
        let* path := gets repo_path in
        log_event "INFO" ("Running command: cd " +:+ path
          +:+ " && git filter-branch -f --env-filter '...' -- --all") INFO >>
        let* (returncode, stderr) :=
          git_filter_branch (author_filter new_author new_email) in
        if negb (returncode =? 0)%Z then
          log_event "ERROR" ("Error updating commit metadata: " +:+ stderr) ERROR >>
          raise (RuntimeError ("Error updating commit metadata: " +:+ stderr))
        else
          log_event "INFO" "Commit metadata updated successfully" INFO
      else ret tt) >>
     match new_dates with
     | Some (d :: ds) => _update_commit_dates (d :: ds) >> ret true
     | _ => ret true
     end)
    (fun e =>
       log_event "ERROR" ("Failed to update commit metadata: " +:+ str e) ERROR >>
       raise e).
End Rewrite.

End CommitModifier.

(** [x in l] on a list of strings. *)
Definition str_in (x : string) (l : list string) : bool :=
  existsb (String.eqb x) l.

(** ** BranchRemoteManager *)
Module BranchRemoteManager.
Import Git.

(** The manager's view: the log, the repository it opened, and whether the
    next git command it issues is refused (with git's diagnostic). *)
Record state : Type := State {
  st_logs : list log_entry;
  st_repo : repository;
  git_refuses : option string
}.

Definition with_logs (l : list log_entry) (s : state) : state :=
  State l (st_repo s) (git_refuses s).
Definition with_repo (r : repository) (s : state) : state :=
  State (st_logs s) r (git_refuses s).

#[global] Instance state_logging : Logging state :=
  {| logs := st_logs; set_logs := with_logs |}.

(** What [git branch -m old new] does to the refs: the ref keeps its place
    and its tip under the new name, and [HEAD] follows when it named the
    renamed branch. *)
Definition move_branch (old_name new_name : string) (repo : repository) : repository :=
  Repository
    (map (fun r => if String.eqb (fst r) old_name then (new_name, snd r) else r)
         (refs repo))
    (if String.eqb (HEAD repo) old_name then new_name else HEAD repo).

(** [self.repo.git.branch("-m", old_name, new_name)] *)
Definition git_branch_m (old_name new_name : string) : M state unit :=
  fun s =>
    match git_refuses s with
    | Some diagnostic => (Raise (GitCommandError diagnostic), s)
    | None => (Ok tt, with_repo (move_branch old_name new_name (st_repo s)) s)
    end.

(** [rename_branch(old_name, new_name)] *)
Definition rename_branch (old_name new_name : string) : M state bool :=
  try_except
    (let* repo := gets st_repo in
     if negb (str_in old_name (branches repo)) then
       log_event "ERROR" ("Branch " +:+ old_name +:+ " does not exist") ERROR >>
       ret false
     else
       let* repo := gets st_repo in
       if str_in new_name (branches repo) then
         log_event "ERROR" ("Branch " +:+ new_name +:+ " already exists") ERROR >>
         ret false
       else
         git_branch_m old_name new_name >>
         log_event "INFO" ("Renamed branch from " +:+ old_name
                           +:+ " to " +:+ new_name) INFO >>
         ret true)
    (fun e =>
       log_event "ERROR" ("Failed to rename branch: " +:+ str e) ERROR >>
       raise e).

End BranchRemoteManager.

(** ** Text files *)

(** A file is its bytes, a Python [str] its UTF-8 encoding: both are
    [string]s here (sequences of 8-bit characters). *)
Definition byte_in (lo hi : N) (b : ascii) : bool :=
  ((lo <=? N_of_ascii b) && (N_of_ascii b <=? hi))%N.

(** Whether the bytes are well-formed UTF-8 (no overlong form, no
    surrogate, nothing above U+10FFFF): what the strict [utf-8] codec
    decodes without [UnicodeDecodeError]. *)
Fixpoint utf8_valid (s : string) : bool :=
  match s with
  | EmptyString => true
  | String b0 s1 =>
      if byte_in 0 127 b0 then utf8_valid s1 else
      match s1 with
      | EmptyString => false
      | String b1 s2 =>
          if byte_in 194 223 b0 then byte_in 128 191 b1 && utf8_valid s2 else
          match s2 with
          | EmptyString => false
          | String b2 s3 =>
              if (byte_in 224 224 b0 && byte_in 160 191 b1
                  || byte_in 225 236 b0 && byte_in 128 191 b1
                  || byte_in 237 237 b0 && byte_in 128 159 b1
                  || byte_in 238 239 b0 && byte_in 128 191 b1)
              then byte_in 128 191 b2 && utf8_valid s3 else
              match s3 with
              | EmptyString => false
              | String b3 s4 =>
                  (byte_in 240 240 b0 && byte_in 144 191 b1
                   || byte_in 241 243 b0 && byte_in 128 191 b1
                   || byte_in 244 244 b0 && byte_in 128 143 b1)
                  && byte_in 128 191 b2 && byte_in 128 191 b3 && utf8_valid s4
              end
          end
      end
  end.

Definition CR : ascii := ascii_of_N 13.
Definition LF : ascii := ascii_of_N 10.

(** Text mode reads every line ending as a line feed. *)
Fixpoint universal_newlines (s : string) : string :=
  match s with
  | EmptyString => EmptyString
  | String c s' =>
      if Ascii.eqb c CR then
        match s' with
        | String c' s'' =>
            if Ascii.eqb c' LF then String LF (universal_newlines s'')
            else String LF (universal_newlines s')
        | EmptyString => String LF EmptyString
        end
      else String c (universal_newlines s')
  end.

(** [open(path, 'r', encoding='utf-8').read()] on the bytes of a file:
    [None] stands for [UnicodeDecodeError]. *)
Definition decode_text (bytes : string) : option string :=
  if utf8_valid bytes then Some (universal_newlines bytes) else None.

(** [path.split('/')] *)
Fixpoint split_path (acc : string) (p : string) : list string :=
  match p with
  | EmptyString => [acc]
  | String c p' =>
      if Ascii.eqb c "/"%char then acc :: split_path EmptyString p'
      else split_path (acc +:+ String c EmptyString) p'
  end.

(** ** FileProcessor *)
Module FileProcessor.

(** The log and the regular files below [repo_path], by their path
    relative to it. *)
Record state : Type := State {
  st_logs : list log_entry;
  files : gmap string string
}.

Definition with_logs (l : list log_entry) (s : state) : state :=
  State l (files s).
Definition with_files (f : gmap string string) (s : state) : state :=
  State (st_logs s) f.

#[global] Instance state_logging : Logging state :=
  {| logs := st_logs; set_logs := with_logs |}.

(** [os.path.isfile(file_path)] *)
Definition os_path_isfile (file_path : string) : M state bool :=
  gets (fun s => bool_decide (is_Some (files s !! file_path))).

(** The [with open(file_path, 'r', encoding='utf-8')] block inside its own
    [try ... except UnicodeDecodeError]. *)
Definition read_text (file_path : string) : M state (option string) :=
  gets (fun s => files s !! file_path ≫= decode_text).

(** [with open(file_path, 'w', encoding='utf-8') as f: f.write(content)] *)
Definition write_text (file_path content : string) : M state unit :=
  modify (fun s => with_files (<[file_path := content]> (files s)) s).

(** The files [os.walk(repo_path)] reaches once every directory named
    [.git] is dropped from [dirs]: those with no such directory on their
    path. *)
Definition walked (file_path : string) : bool :=
  negb (str_in ".git" (removelast (split_path EmptyString file_path))).

Definition os_walk (s : state) : list string :=
  filter (fun p => walked p = true) (map fst (map_to_list (files s))).

Section Scrub.
(** The [re] module: [re.search(pattern, content)] as "a match was
    found", and [re.sub(pattern, replacement, content)]; either raises
    [re.error] on a pattern or a replacement it cannot compile. *)
Variable re_search : string -> string -> result bool.
Variable re_sub : string -> string -> string -> result string.

Definition lift {A} (r : result A) : M state A := fun s => (r, s).

(** The loop over [patterns], carrying [content] and
    [modifications_made]. *)
Fixpoint replace_patterns (patterns : list string) (replacement : string)
    (content : string) (modifications_made : bool) : M state (string * bool) :=
  match patterns with
  | [] => ret (content, modifications_made)
  | pattern :: rest =>
      let* found := lift (re_search pattern content) in
      if found then
        let* content := lift (re_sub pattern replacement content) in
        replace_patterns rest replacement content true
      else replace_patterns rest replacement content modifications_made
  end.

(** [scan_and_replace(file_path, patterns, replacement)] *)
Definition scan_and_replace (file_path : string) (patterns : list string)
    (replacement : string) : M state bool :=
  try_except
    (let* isfile := os_path_isfile file_path in
     if negb isfile then
       log_event "WARNING" ("File " +:+ file_path +:+ " does not exist") WARNING >>
       ret false
     else
       let* decoded := read_text file_path in
       match decoded with
       | None =>
           log_event "INFO" ("Skipping binary file " +:+ file_path) INFO >>
           ret false
       | Some content =>
           let* (content, modifications_made) :=
             replace_patterns patterns replacement content false in
           (if modifications_made then
              write_text file_path content >>
              log_event "INFO" ("Modified file " +:+ file_path) INFO
            else ret tt) >>
           ret modifications_made
       end)
    (fun e =>
       log_event "ERROR" ("Failed to scan and replace in file " +:+ file_path
                          +:+ ": " +:+ str e) ERROR >>
       raise e).

(** The body of [update_all_files] over the walked files, carrying
    [count]. *)
Fixpoint scan_files (paths : list string) (patterns : list string)
    (replacement : string) (count : nat) : M state nat :=
  match paths with
  | [] => ret count
  | file_path :: rest =>
      let* modified := scan_and_replace file_path patterns replacement in
      scan_files rest patterns replacement (if modified then S count else count)
  end.

(** [update_all_files(patterns, replacement)] *)
Definition update_all_files (patterns : list string) (replacement : string)
    : M state nat :=
  try_except
    (let* paths := gets os_walk in
     let* count := scan_files paths patterns replacement 0 in
     log_event "INFO" ("Updated " +:+ pretty count
                       +:+ " files in the repository") INFO >>
     ret count)
    (fun e =>
       log_event "ERROR" ("Failed to update all files: " +:+ str e) ERROR >>
       raise e).
End Scrub.

End FileProcessor.

(** ** Patterns without metacharacters

    For a pattern made of ordinary characters only, and a replacement
    without backslash, [re.search] is a substring test and [re.sub]
    replaces the occurrences found from left to right, without overlap. *)

(** [p in s] *)
Fixpoint contains (p s : string) : bool :=
  String.prefix p s
  || match s with
     | EmptyString => false
     | String _ s' => contains p s'
     end.

(** [skip] counts the characters of a match still to drop. *)
Fixpoint replace_from (p r s : string) (skip : nat) : string :=
  match skip, s with
  | S k, String _ s' => replace_from p r s' k
  | S _, EmptyString => EmptyString
  | O, EmptyString => if String.prefix p EmptyString then r else EmptyString
  | O, String c s' =>
      if String.prefix p s then
        match String.length p with
        | O => r +:+ String c (replace_from p r s' 0)
        | S k => r +:+ replace_from p r s' k
        end
      else String c (replace_from p r s' 0)
  end.

Definition literal_search (pattern content : string) : result bool :=
  Ok (contains pattern content).

Definition literal_sub (pattern replacement content : string) : result string :=
  Ok (replace_from pattern replacement content 0).

(** [a in s] for a character. *)
Fixpoint has_char (a : ascii) (s : string) : bool :=
  match s with
  | EmptyString => false
  | String b s' => Ascii.eqb a b || has_char a s'
  end.

(** No character of [r] occurs in [q]. *)
Fixpoint apart (r q : string) : bool :=
  match r with
  | EmptyString => true
  | String a r' => negb (has_char a q) && apart r' q
  end.

(** [c.lower()] on ASCII letters. *)
Definition lower_char (c : ascii) : ascii :=
  if byte_in 65 90 c then ascii_of_N (N_of_ascii c + 32) else c.

Fixpoint lower (s : string) : string :=
  match s with
  | EmptyString => EmptyString
  | String c s' => String (lower_char c) (lower s')
  end.

(** Running a method of a component on the part of the state it owns. *)
Definition zoom {S T A} (view : S -> T) (update : T -> S -> S) (m : M T A)
    : M S A :=
  fun s => match m (view s) with (r, t) => (r, update t s) end.

(** ** BackendController: cleaning sensitive data *)
Module BackendController.
Import Git.

(** The working copy the controller cleans: the log, the files below
    [repo_path], the repository, and the identity and date git stamps on a
    commit made now. *)
Record state : Type := State {
  st_logs : list log_entry;
  files : gmap string string;
  st_repo : repository;
  commit_stamp : commit_env
}.

Definition with_logs (l : list log_entry) (s : state) : state :=
  State l (files s) (st_repo s) (commit_stamp s).
Definition with_repo (r : repository) (s : state) : state :=
  State (st_logs s) (files s) r (commit_stamp s).

#[global] Instance state_logging : Logging state :=
  {| logs := st_logs; set_logs := with_logs |}.

(** The file processor works on the log and the files. *)
Definition file_processor_view (s : state) : FileProcessor.state :=
  FileProcessor.State (st_logs s) (files s).
Definition file_processor_update (t : FileProcessor.state) (s : state) : state :=
  State (FileProcessor.st_logs t) (FileProcessor.files t) (st_repo s) (commit_stamp s).

Section Clean.
Variable re_search : string -> string -> result bool.
Variable re_sub : string -> string -> string -> result string.
(** The id of the tree [git add .] stages for a set of files. *)
Variable write_tree : gmap string string -> string.

Definition tree_of (c : commit) : string :=
  match c with Commit _ t _ _ => t end.

(** [repo.git.add(".")] then [repo.git.commit("-m", message)]: a new
    commit on the current branch holding the files as they are; git
    refuses it when nothing differs from the current tip. *)
Definition git_add_commit (message : string) : M state unit :=
  fun s =>
    let repo := st_repo s in
    let tree := write_tree (files s) in
    match ref_tip repo (HEAD repo) with
    | Some tip =>
        if String.eqb (tree_of tip) tree then
          (Raise (GitCommandError "nothing to commit, working tree clean"), s)
        else
          let c := Commit (commit_stamp s) tree message [tip] in
          (Ok tt,
           with_repo
             (set_refs (map (fun r => if String.eqb (fst r) (HEAD repo)
                                      then (fst r, c) else r) (refs repo))
                       repo) s)
    | None =>
        let c := Commit (commit_stamp s) tree message [] in
        (Ok tt, with_repo (set_refs (refs repo ++ [(HEAD repo, c)]) repo) s)
    end.

(** [clean_sensitive_data(patterns, replacement)] *)
Definition clean_sensitive_data (patterns : list string) (replacement : string)
    : M state bool :=
  try_except
    (let* files_modified :=
       zoom file_processor_view file_processor_update
            (FileProcessor.update_all_files re_search re_sub patterns replacement) in
     (if (0 <? files_modified)%nat then
        git_add_commit "Clean sensitive data" >>
        log_event "INFO" ("Committed changes to " +:+ pretty files_modified
                          +:+ " files with sensitive data removed") INFO
      else
        log_event "INFO" "No files needed sensitive data cleaning" INFO) >>
     log_event "INFO" "Sensitive data cleaning process completed successfully" INFO >>
     ret true)
    (fun e =>
       log_event "ERROR" ("Failed to clean sensitive data: " +:+ str e) ERROR >>
       raise e).
End Clean.

End BackendController.

(** ** BackendController: the batch *)
Module Batch.

(** One entry of the list [process_batch] returns. *)
Record batch_result : Type := BatchResult {
  repo_url : string;
  success : bool;
  error : option string;
  operations_completed : list string
}.

(** The [operations] dictionary; a key that is absent reads as [None]. *)
Record operations : Type := Operations {
  new_author : option string;
  new_email : option string;
  randomize_dates : option bool;
  start_date : option datetime;
  end_date : option datetime;
  branch_mapping : option (list (string * string));
  patterns : option (list string);
  replacement : option string;
  remote_url : option string;
  token : option string;
  repo_name_template : option string
}.

(** Truth values of what [operations.get] returns. *)
Definition truthy_str (o : option string) : bool :=
  match o with Some s => truthy s | None => false end.
Definition truthy_list {A} (o : option (list A)) : bool :=
  match o with Some (_ :: _) => true | _ => false end.

(** [s.endswith(suffix)] and [s[:-4]] *)
Definition endswith (s suffix : string) : bool :=
  String.prefix (String.rev suffix) (String.rev s).
Definition drop_last4 (s : string) : string :=
  String.substring 0 (String.length s - 4) s.

Section Controller.
(** Everything the steps of one item act on besides the controller's own
    fields: the working copy, the network, the hosting provider. *)
Variable E : Type.

(** The collaborators, each free to change [E] and to raise:
    [git.Repo.clone_from], [RepositoryHandler.fetch_repo_info], opening
    the clone in [BranchRemoteManager], and the four operations of the
    controller on the working copy. *)
Variable clone_from : string -> string -> M E unit.
Variable fetch_repo_info : M E unit.
Variable open_branch_manager : string -> M E unit.
Variable rewrite_history :
  string -> string -> bool -> option datetime -> option datetime -> M E bool.
Variable rename_branches : list (string * string) -> M E bool.
Variable clean_sensitive_data : list string -> string -> M E bool.
Variable setup_remote_and_push :
  option string -> option string -> option string -> M E bool.
(** [template.format(repo_name=..., index=...)], which raises on a
    template naming another field. *)
Variable format_template : string -> string -> nat -> result string.
(** Whether [shutil.rmtree] fails on a directory, and with what. *)
Variable rmtree_error : string -> E -> option string.

(** A [RepositoryHandler], as far as the controller is concerned. *)
Record repository_handler : Type := RepositoryHandler {
  temp_dir : option string
}.

(** The controller and what it owns: its log, its fields, the [result]
    dictionary of the item being processed ([item_result]), the directories [tempfile.mkdtemp] made
    that still exist, and the rest of the world.  [cleanup_calls] counts
    the entries into [cleanup]: it is instrumentation, nothing reads it. *)
Record world : Type := World {
  w_logs : list log_entry;
  repo_handler : option repository_handler;
  repo_path : option string;
  batch_mode : bool;
  batch_results : list batch_result;
  item_result : batch_result;
  tmp_dirs : gset string;
  cleanup_calls : nat;
  ext : E
}.

Definition with_logs (l : list log_entry) (w : world) : world :=
  World l (repo_handler w) (repo_path w) (batch_mode w) (batch_results w)
        (item_result w) (tmp_dirs w) (cleanup_calls w) (ext w).
Definition with_repo_handler (h : option repository_handler) (w : world) : world :=
  World (w_logs w) h (repo_path w) (batch_mode w) (batch_results w)
        (item_result w) (tmp_dirs w) (cleanup_calls w) (ext w).
Definition with_repo_path (p : option string) (w : world) : world :=
  World (w_logs w) (repo_handler w) p (batch_mode w) (batch_results w)
        (item_result w) (tmp_dirs w) (cleanup_calls w) (ext w).
Definition with_batch_mode (b : bool) (w : world) : world :=
  World (w_logs w) (repo_handler w) (repo_path w) b (batch_results w)
        (item_result w) (tmp_dirs w) (cleanup_calls w) (ext w).
Definition with_batch_results (r : list batch_result) (w : world) : world :=
  World (w_logs w) (repo_handler w) (repo_path w) (batch_mode w) r
        (item_result w) (tmp_dirs w) (cleanup_calls w) (ext w).
Definition with_result (r : batch_result) (w : world) : world :=
  World (w_logs w) (repo_handler w) (repo_path w) (batch_mode w) (batch_results w)
        r (tmp_dirs w) (cleanup_calls w) (ext w).
Definition with_tmp_dirs (d : gset string) (w : world) : world :=
  World (w_logs w) (repo_handler w) (repo_path w) (batch_mode w) (batch_results w)
        (item_result w) d (cleanup_calls w) (ext w).
Definition with_cleanup_calls (n : nat) (w : world) : world :=
  World (w_logs w) (repo_handler w) (repo_path w) (batch_mode w) (batch_results w)
        (item_result w) (tmp_dirs w) n (ext w).
Definition with_ext (e : E) (w : world) : world :=
  World (w_logs w) (repo_handler w) (repo_path w) (batch_mode w) (batch_results w)
        (item_result w) (tmp_dirs w) (cleanup_calls w) e.

#[global] Instance world_logging : Logging world :=
  {| logs := w_logs; set_logs := with_logs |}.

(** A collaborator at work. *)
Definition external {A} (m : M E A) : M world A := zoom ext with_ext m.

(** [self.temp_dir = tempfile.mkdtemp()]: a directory that did not exist,
    under a name that is not empty. *)
Definition mkdtemp : M world string :=
  fun w => let d := fresh ({[EmptyString]} ∪ tmp_dirs w) in
           (Ok d, with_repo_handler (Some (RepositoryHandler (Some d)))
                    (with_tmp_dirs ({[d]} ∪ tmp_dirs w) w)).

(** [shutil.rmtree(d)] *)
Definition shutil_rmtree (d : string) : M world unit :=
  fun w => match rmtree_error d (ext w) with
           | Some msg => (Raise (OSError msg), w)
           | None => (Ok tt, with_tmp_dirs (tmp_dirs w ∖ {[d]}) w)
           end.

(** [RepositoryHandler.clone_repo(url, target_dir=None)] *)
Definition clone_repo (url : string) (target_dir : option string) : M world string :=
  try_except
    (let* target_dir :=
       match target_dir with
       | None => mkdtemp
       | Some d => ret d
       end in
     log_event "CLONE" ("Cloning repository from " +:+ url +:+ " to " +:+ target_dir) INFO >>
     external (clone_from url target_dir) >>
     log_event "CLONE" "Repository cloned successfully" INFO >>
     ret target_dir)
    (fun e =>
       log_event "ERROR" ("Failed to clone repository: " +:+ str e) ERROR >>
       raise e).

(** [RepositoryHandler.cleanup()] *)
Definition handler_cleanup (h : repository_handler) : M world unit :=
  match temp_dir h with
  | Some d =>
      let* w := get in
      if truthy d && bool_decide (d ∈ tmp_dirs w) then
        shutil_rmtree d >>
        log_event "CLEANUP" ("Removed temporary directory: " +:+ d) INFO
      else ret tt
  | None => ret tt
  end.

(** [initialize(repo_url, target_dir=None)] *)
Definition initialize (url : string) (target_dir : option string) : M world bool :=
  try_except
    (modify (with_repo_handler (Some (RepositoryHandler None))) >>
     let* path := clone_repo url target_dir in
     modify (with_repo_path (Some path)) >>
     external fetch_repo_info >>
     external (open_branch_manager path) >>
     log_event "INFO" ("Backend controller initialized with repository at " +:+ path) INFO >>
     ret true)
    (fun e =>
       log_event "ERROR" ("Failed to initialize controller: " +:+ str e) ERROR >>
       raise e).

(** [cleanup()] *)
Definition cleanup : M world unit :=
  modify (fun w => with_cleanup_calls (S (cleanup_calls w)) w) >>
  try_except
    (let* h := gets repo_handler in
     match h with
     | Some h => handler_cleanup h
     | None => ret tt
     end >>
     log_event "INFO" "Resources cleaned up successfully" INFO)
    (fun e =>
       log_event "ERROR" ("Failed to clean up resources: " +:+ str e) ERROR).

(** [result['operations_completed'].append(name)] *)
Definition completed (name : string) : M world unit :=
  modify (fun w =>
    let r := item_result w in
    with_result (BatchResult (repo_url r) (success r) (error r)
                             (operations_completed r ++ [name])) w).

(** The [try] block of one item. *)
Definition item_steps (i n : nat) (url : string) (ops : operations) : M world unit :=
  log_event "BATCH" ("Processing repository " +:+ pretty (i + 1) +:+ "/"
                     +:+ pretty n +:+ ": " +:+ url) INFO >>
  initialize url None >>
  let repo_name := List.last (split_path EmptyString url) EmptyString in
  let repo_name := if endswith repo_name ".git" then drop_last4 repo_name
                   else repo_name in
  (match new_author ops, new_email ops with
   | Some author, Some email =>
       if truthy author && truthy email then
         external (rewrite_history author email
                     (default false (randomize_dates ops))
                     (start_date ops) (end_date ops)) >>
         completed "rewrite_history"
       else ret tt
   | _, _ => ret tt
   end) >>
  (match branch_mapping ops with
   | Some (m :: ms) =>
       external (rename_branches (m :: ms)) >> completed "rename_branches"
   | _ => ret tt
   end) >>
  (match patterns ops, replacement ops with
   | Some (p :: ps), Some r =>
       if truthy r then
         external (clean_sensitive_data (p :: ps) r) >>
         completed "clean_sensitive_data"
       else ret tt
   | _, _ => ret tt
   end) >>
  let* repo_name_for_remote :=
    match repo_name_template ops with
    | Some template =>
        if truthy template then
          let* name := (fun w => (format_template template repo_name (i + 1), w)) in
          ret (Some name)
        else ret None
    | None => ret None
    end in
  (if truthy_str (remote_url ops)
      || (truthy_str (token ops) && truthy_str repo_name_for_remote) then
     external (setup_remote_and_push (remote_url ops) (token ops)
                                     repo_name_for_remote) >>
     completed "setup_remote_and_push"
   else ret tt) >>
  modify (fun w =>
    let r := item_result w in
    with_result (BatchResult (repo_url r) true (error r)
                             (operations_completed r)) w) >>
  log_event "BATCH" ("Successfully processed repository: " +:+ url) INFO.

(** The body of the loop: [try ... except Exception ... finally ...]. *)
Definition process_item (n : nat) (ops : operations) (item : nat * string)
    : M world unit :=
  let (i, url) := item in
  modify (with_result (BatchResult url false None [])) >>
  try_finally
    (try_except
       (item_steps i n url ops)
       (fun e =>
          modify (fun w =>
            let r := item_result w in
            with_result (BatchResult (repo_url r) (success r) (Some (str e))
                                     (operations_completed r)) w) >>
          log_event "ERROR" ("Failed to process repository " +:+ url +:+ ": "
                             +:+ str e) ERROR))
    (cleanup >>
     modify (fun w => with_batch_results (batch_results w ++ [item_result w]) w)).

(** [enumerate(l)] *)
Definition enumerate {A} (l : list A) : list (nat * A) :=
  zip (seq 0 (length l)) l.

(** [process_batch(repo_urls, operations)] *)
Definition process_batch (repo_urls : list string) (ops : operations)
    : M world (list batch_result) :=
  modify (with_batch_mode true) >>
  modify (with_batch_results []) >>
  for_each (enumerate repo_urls) (process_item (length repo_urls) ops) >>
  gets batch_results.
End Controller.

End Batch.

(** ** BackendController: renaming branches *)
Module Renaming.
Import Git BranchRemoteManager.

(** [rename_branches(branch_mapping)], on the branch manager the controller
    holds.  The mapping is a [dict]: its items in the order of insertion. *)
Definition rename_branches (branch_mapping : list (string * string)) : M state bool :=
  try_except
    (for_each branch_mapping
       (fun item =>
          let (old_name, new_name) := item in
          if negb (String.eqb old_name new_name) then
            rename_branch old_name new_name >> ret tt
          else ret tt) >>
     log_event "INFO" "Branches renamed successfully" INFO >>
     ret true)
    (fun e =>
       log_event "ERROR" ("Failed to rename branches: " +:+ str e) ERROR >>
       raise e).

End Renaming.

(** ** Remotes, the hosting provider and the push *)
Module Publishing.

(** The request [create_remote_repo] posts: the endpoint, the two headers
    and the fields of the JSON document it sends. *)
Record request : Type := Request {
  endpoint : string;
  authorization : string;
  accept : string;
  name : string;
  private : bool;
  auto_init : bool
}.

(** The provider's answer: the status code and what [response.json()]
    gives, a JSON object (its string fields) or the exception it raises on a
    body that is no JSON. *)
Record response : Type := Response {
  status_code : Z;
  json : result (gmap string string)
}.

(** One [PushInfo] of the list [remote.push] returns. *)
Record push_info : Type := PushInfo {
  flags : Z;
  summary : string
}.

(** [PushInfo.ERROR] *)
Definition ERROR_FLAG : Z := 1024.

(** How [remote.push] ends: with its list of [PushInfo], or raising. *)
Inductive push_outcome : Type :=
  | Pushed (infos : list push_info)
  | PushRaises (e : exn).

(** The working copy at [repo_path] as the remote side of the program sees
    it, and the world it talks to: whether [git.Repo(repo_path)] opens (or
    the error it raises), the remotes by name with their url, the branch
    checked out (none with a detached [HEAD]), whether git refuses the next
    [git remote] command, the provider (its answer to a request, given the
    requests posted before) and the outcome of a push of a refspec to a url.
    [posted] and [pushed] record what went out. *)
Record state : Type := State {
  st_logs : list log_entry;
  opens : option string;
  remotes : list (string * string);
  active_branch : option string;
  git_refuses : option string;
  provider : list request -> request -> result response;
  posted : list request;
  push_to : string -> string -> bool -> push_outcome;
  pushed : list (string * string * bool)
}.

Definition with_logs (l : list log_entry) (s : state) : state :=
  State l (opens s) (remotes s) (active_branch s) (git_refuses s)
        (provider s) (posted s) (push_to s) (pushed s).
Definition with_remotes (r : list (string * string)) (s : state) : state :=
  State (st_logs s) (opens s) r (active_branch s) (git_refuses s)
        (provider s) (posted s) (push_to s) (pushed s).
Definition with_posted (p : list request) (s : state) : state :=
  State (st_logs s) (opens s) (remotes s) (active_branch s) (git_refuses s)
        (provider s) p (push_to s) (pushed s).
Definition with_pushed (p : list (string * string * bool)) (s : state) : state :=
  State (st_logs s) (opens s) (remotes s) (active_branch s) (git_refuses s)
        (provider s) (posted s) (push_to s) p.

#[global] Instance state_logging : Logging state :=
  {| logs := st_logs; set_logs := with_logs |}.

(** The url of the remote of that name. *)
Definition remote_url_of (remote_name : string) (rs : list (string * string))
    : option string :=
  snd <$> List.find (fun r => String.eqb (fst r) remote_name) rs.

(** [git.Repo(repo_path)] in the constructor of [BranchRemoteManager], which
    logs and re-raises what it fails with. *)
Definition open_branch_manager : M state unit :=
  try_except
    (let* o := gets opens in
     match o with
     | Some msg => raise (Exception msg)
     | None => ret tt
     end)
    (fun e =>
       log_event "ERROR" ("Failed to open repository: " +:+ str e) ERROR >>
       raise e).

(** [remote.set_url(new_url)] and [repo.create_remote(name, url)] *)
Definition git_remote_set_url (remote_name new_url : string) : M state unit :=
  fun s =>
    match git_refuses s with
    | Some diagnostic => (Raise (GitCommandError diagnostic), s)
    | None =>
        (Ok tt,
         with_remotes
           (map (fun r => if String.eqb (fst r) remote_name then (remote_name, new_url) else r)
                (remotes s)) s)
    end.
Definition git_remote_add (remote_name remote_url : string) : M state unit :=
  fun s =>
    match git_refuses s with
    | Some diagnostic => (Raise (GitCommandError diagnostic), s)
    | None => (Ok tt, with_remotes (remotes s ++ [(remote_name, remote_url)]) s)
    end.

(** [BranchRemoteManager.set_remote_url(remote_name, new_url)] *)
Definition set_remote_url (remote_name new_url : string) : M state bool :=
  try_except
    (let* rs := gets remotes in
     if negb (str_in remote_name (map fst rs)) then
       log_event "ERROR" ("Remote " +:+ remote_name +:+ " does not exist") ERROR >>
       ret false
     else
       git_remote_set_url remote_name new_url >>
       log_event "INFO" ("Updated URL for remote " +:+ remote_name
                         +:+ " to " +:+ new_url) INFO >>
       ret true)
    (fun e =>
       log_event "ERROR" ("Failed to set remote URL: " +:+ str e) ERROR >>
       raise e).

(** [BranchRemoteManager.add_remote(remote_name, remote_url)] *)
Definition add_remote (remote_name remote_url : string) : M state bool :=
  try_except
    (let* rs := gets remotes in
     if str_in remote_name (map fst rs) then
       log_event "WARNING" ("Remote " +:+ remote_name +:+ " already exists") WARNING >>
       set_remote_url remote_name remote_url
     else
       git_remote_add remote_name remote_url >>
       log_event "INFO" ("Added remote " +:+ remote_name
                         +:+ " with URL " +:+ remote_url) INFO >>
       ret true)
    (fun e =>
       log_event "ERROR" ("Failed to add remote: " +:+ str e) ERROR >>
       raise e).

(** [requests.post(url, headers=headers, data=json.dumps(data))] *)
Definition requests_post (r : request) : M state response :=
  fun s => (provider s (posted s) r, with_posted (posted s ++ [r]) s).

(** [d[key]] on the JSON object, a [KeyError] when the key is missing, and
    [d.get(key, default)]. *)
Definition json_item {S} (d : gmap string string) (key : string) : M S string :=
  match d !! key with
  | Some v => ret v
  | None => raise (Exception ("'" +:+ key +:+ "'"))
  end.
Definition json_get (d : gmap string string) (key default : string) : string :=
  match d !! key with
  | Some v => v
  | None => default
  end.

(** [RemoteRepositoryManager.create_remote_repo(repo_name, token,
    is_private=True, use_ssh=False)] *)
Definition create_remote_repo (repo_name token : string) (is_private use_ssh : bool)
    : M state string :=
  try_except
    (let url := "https://api.github.com/user/repos" in
     let* response :=
       requests_post (Request url ("token " +:+ token)
                              "application/vnd.github.v3+json"
                              repo_name is_private false) in
     if (status_code response =? 201)%Z then
       let* repo_data := (fun s => (json response, s)) in
       let* repo_url := json_item repo_data (if use_ssh then "ssh_url" else "clone_url") in
       log_event "INFO" ("Created new repository: " +:+ repo_url) INFO >>
       ret repo_url
     else
       let* error := (fun s => (json response, s)) in
       let error_message := json_get error "message" "Unknown error" in
       let error_message :=
         if String.eqb error_message "Bad credentials" then
           error_message +:+ ": Please check your GitHub token is valid and has proper permissions (repo scope)"
         else error_message in
       log_event "ERROR" ("Failed to create repository: " +:+ error_message) ERROR >>
       raise (Exception ("Failed to create repository: " +:+ error_message)))
    (fun e =>
       log_event "ERROR" ("Failed to create remote repository: " +:+ str e) ERROR >>
       raise e).

(** [RemoteRepositoryManager.configure_remote(repo_path, remote_url,
    remote_name="origin")] *)
Definition configure_remote (remote_url remote_name : string) : M state bool :=
  try_except
    (open_branch_manager >>
     let* success := add_remote remote_name remote_url in
     if success then
       log_event "INFO" ("Remote " +:+ remote_name +:+ " configured with URL "
                         +:+ remote_url) INFO >>
       ret true
     else
       log_event "ERROR" "Failed to configure remote" ERROR >>
       ret false)
    (fun e =>
       log_event "ERROR" ("Failed to configure remote: " +:+ str e) ERROR >>
       raise e).

(** [repo.remotes[remote_name].push(refspec, force=force)] *)
Definition remote_push (remote_name refspec : string) (force : bool)
    : M state (list push_info) :=
  let* rs := gets remotes in
  match remote_url_of remote_name rs with
  | None => raise (Exception ("No item found with id '" +:+ remote_name +:+ "'"))
  | Some url =>
      fun s =>
        let s' := with_pushed (pushed s ++ [(url, refspec, force)]) s in
        match push_to s url refspec force with
        | Pushed infos => (Ok infos, s')
        | PushRaises e => (Raise e, s')
        end
  end.

(** The loop over [push_info_list], which returns at the first entry with
    the error flag. *)
Fixpoint check_push (infos : list push_info) (k : M state bool) : M state bool :=
  match infos with
  | [] => k
  | push_info :: rest =>
      if negb (Z.land (flags push_info) ERROR_FLAG =? 0)%Z then
        log_event "ERROR" ("Failed to push changes: " +:+ summary push_info) ERROR >>
        ret false
      else check_push rest k
  end.

(** [try: m except git.exc.GitCommandError as e: h (str e)] *)
Definition try_except_git {A} (m : M state A) (h : string -> M state A) : M state A :=
  fun s => match m s with
           | (Raise (GitCommandError msg), s') => h msg s'
           | other => other
           end.

(** [RemoteRepositoryManager.push_changes(repo_path, remote_name="origin",
    force=True)] *)
Definition push_changes (remote_name : string) (force : bool) : M state bool :=
  try_except
    (let* o := gets opens in
     match o with
     | Some msg => raise (Exception msg)
     | None => ret tt
     end >>
     let* b := gets active_branch in
     let* branch :=
       match b with
       | Some branch => ret branch
       | None => raise (Exception "HEAD is a detached symbolic reference")
       end in
     try_except_git
       (let* push_info_list := remote_push remote_name (branch +:+ ":" +:+ branch) force in
        check_push push_info_list
          (log_event "INFO" ("Successfully pushed changes to " +:+ remote_name
                             +:+ "/" +:+ branch) INFO >>
           ret true))
       (fun error_msg =>
          (if contains "Could not read from remote repository" error_msg then
             log_event "ERROR"
               ("GitHub Connection Error: " +:+ error_msg
                +:+ String LF "Troubleshooting suggestions:" +:+ String LF ""
                +:+ "1. Ensure your SSH key is correctly configured and added to your GitHub account"
                +:+ String LF ""
                +:+ "2. Try using HTTPS URL instead of SSH if SSH key setup is problematic"
                +:+ String LF ""
                +:+ "3. Check if you have proper network connectivity to GitHub") ERROR
           else
             log_event "ERROR" ("Failed to push changes: " +:+ error_msg) ERROR) >>
          ret false))
    (fun e =>
       log_event "ERROR" ("Failed to push changes: " +:+ str e) ERROR >>
       raise e).

(** [BackendController.setup_remote_and_push(remote_url=None, token=None,
    repo_name=None, force_push=True)].  An argument is [None] or a string;
    both [None] and the empty string are false. *)
Definition setup_remote_and_push (remote_url token repo_name : option string)
    (force_push : bool) : M state bool :=
  try_except
    (let* remote_url :=
       match token, repo_name with
       | Some t, Some n =>
           if truthy t && truthy n && negb (Batch.truthy_str remote_url) then
             let* url := create_remote_repo n t true false in ret (Some url)
           else ret remote_url
       | _, _ => ret remote_url
       end in
     match remote_url with
     | Some url =>
         if truthy url then
           configure_remote url "origin" >>
           push_changes "origin" force_push >>
           log_event "INFO" "Repository changes pushed successfully" INFO >>
           ret true
         else
           log_event "ERROR" "No remote URL provided" ERROR >> ret false
     | None =>
         log_event "ERROR" "No remote URL provided" ERROR >> ret false
     end)
    (fun e =>
       log_event "ERROR" ("Failed to setup remote and push: " +:+ str e) ERROR >>
       raise e).

End Publishing.

(** ** BackendController: rewriting history *)
Module Rewriting.
Import Git CommitModifier.

Section Steps.
Variable hexsha : commit -> string.

(** [rewrite_history(new_author, new_email, randomize_dates=False,
    start_date=None, end_date=None)], on the commit modifier the controller
    holds. *)
Definition rewrite_history (new_author new_email : string) (randomize_dates : bool)
    (start_date end_date : option datetime) : M state bool :=
  try_except
    (let* new_dates :=
       if randomize_dates then
         let* dates := randomize_commit_dates start_date end_date in
         ret (Some dates)
       else ret None in
     update_commit_metadata hexsha new_author new_email new_dates >>
     log_event "INFO" "Repository history rewritten successfully" INFO >>
     ret true)
    (fun e =>
       log_event "ERROR" ("Failed to rewrite history: " +:+ str e) ERROR >>
       raise e).
End Steps.

End Rewriting.

(** ** FileProcessor: files that may hold sensitive information *)
Module SensitiveFiles.
Import FileProcessor.

(** The [patterns] of [find_sensitive_files].  None holds a character
    special to the [re] module: [re.search(pattern, name)] finds a match
    exactly when the pattern occurs in the name. *)
Definition patterns : list string :=
  ["license"; "copyright"; "author"; "contributor";
   "readme"; "changelog"; "authors"; "contributors";
   "maintainers"; "codeowners"; "code of conduct"; "governance"].

(** The [file] of a walked path: its last component. *)
Definition file_name (file_path : string) : string :=
  List.last (split_path EmptyString file_path) EmptyString.

(** The loop over [patterns], left at the first match. *)
Definition is_sensitive (file : string) : bool :=
  let file_lower := lower file in
  existsb (fun pattern => contains pattern file_lower) patterns.

(** [find_sensitive_files()].  A file is given by its path below
    [repo_path], as everywhere in [FileProcessor]; its name is lowered on
    its ASCII letters. *)
Definition find_sensitive_files : M state (list string) :=
  try_except
    (let* paths := gets os_walk in
     let sensitive_files :=
       filter (fun file_path => is_sensitive (file_name file_path) = true) paths in
     log_event "INFO" ("Found " +:+ pretty (length sensitive_files)
                       +:+ " potentially sensitive files") INFO >>
     ret sensitive_files)
    (fun e =>
       log_event "ERROR" ("Failed to find sensitive files: " +:+ str e) ERROR >>
       raise e).

End SensitiveFiles.

(** * Properties *)

(** ** Running the monad *)

Lemma bind_ok {S A B} (m : M S A) (k : A -> M S B) s a s' :
  m s = (Ok a, s') -> bind m k s = k a s'.
Proof. intros E. unfold bind. rewrite E. reflexivity. Qed.

Lemma bind_raise {S A B} (m : M S A) (k : A -> M S B) s e s' :
  m s = (Raise e, s') -> bind m k s = (Raise e, s').
Proof. intros E. unfold bind. rewrite E. reflexivity. Qed.

Lemma try_except_ok {S A} (m : M S A) h s a s' :
  m s = (Ok a, s') -> try_except m h s = (Ok a, s').
Proof. intros E. unfold try_except. rewrite E. reflexivity. Qed.

Lemma try_except_raise {S A} (m : M S A) h s e s' :
  m s = (Raise e, s') -> try_except m h s = h e s'.
Proof. intros E. unfold try_except. rewrite E. reflexivity. Qed.

(** ** The timeline generator: [randomize_commit_dates] *)
Section Timeline.
Import Git CommitModifier.

Lemma round_half_even_floor q :
  (Qfloor q <= round_half_even q <= Qfloor q + 1)%Z.
Proof.
  unfold round_half_even.
  destruct (q - inject_Z (Qfloor q) ?= 1 # 2)%Q; [destruct (Z.even _)| |]; lia.
Qed.

(** Rounding never reorders. *)
Lemma round_half_even_mono q1 q2 :
  (q1 <= q2)%Q -> (round_half_even q1 <= round_half_even q2)%Z.
Proof.
  intros Hle.
  pose proof (Qfloor_resp_le _ _ Hle) as Hf.
  destruct (Z.eq_dec (Qfloor q1) (Qfloor q2)) as [E|NE].
  - unfold round_half_even. rewrite <- E.
    destruct (Qcompare_spec (q1 - inject_Z (Qfloor q1)) (1 # 2)) as [H1|H1|H1];
    destruct (Qcompare_spec (q2 - inject_Z (Qfloor q1)) (1 # 2)) as [H2|H2|H2];
    try destruct (Z.even _); try lia; exfalso; lra.
  - pose proof (round_half_even_floor q1). pose proof (round_half_even_floor q2). lia.
Qed.

Lemma round_half_even_inject z : round_half_even (inject_Z z) = z.
Proof.
  unfold round_half_even. rewrite Qfloor_Z.
  destruct (Qcompare_spec (inject_Z z - inject_Z z) (1 # 2)) as [H|H|H];
    [exfalso; lra | reflexivity | exfalso; lra].
Qed.

Lemma random_unit_range bits : (0 <= random_unit bits < 1)%Q.
Proof.
  unfold random_unit.
  pose proof (Z.mod_pos_bound bits (2 ^ 53) ltac:(lia)) as [H0 H1].
  set (k := (bits mod 2 ^ 53)%Z) in *.
  assert (HD : (0 < inject_Z (2 ^ 53))%Q) by (rewrite <- (Zlt_Qlt 0); lia).
  split.
  - apply Qle_shift_div_l; [exact HD|]. rewrite Qmult_0_l. rewrite <- (Zle_Qle 0). exact H0.
  - apply Qlt_shift_div_r; [exact HD|]. rewrite Qmult_1_l. rewrite <- Zlt_Qlt. exact H1.
Qed.

Lemma scaled_seconds u d :
  (u * total_seconds d * inject_Z 1000000 == u * inject_Z d)%Q.
Proof. unfold total_seconds. field. Qed.

(** A fraction [u] of the range [d], as a duration, lies between zero and
    [d], whichever the sign of [d]. *)
Lemma timedelta_seconds_range u d :
  (0 <= u < 1)%Q ->
  (Z.min 0 d <= timedelta_seconds (u * total_seconds d) <= Z.max 0 d)%Z.
Proof.
  intros [Hu0 Hu1]. unfold timedelta_seconds.
  set (q := (u * total_seconds d * inject_Z 1000000)%Q).
  assert (Hq : (q == u * inject_Z d)%Q) by apply scaled_seconds.
  destruct (Z.le_gt_cases 0 d) as [Hd|Hd].
  - assert (Hx : (0 <= inject_Z d)%Q)
      by (change 0%Q with (inject_Z 0); rewrite <- Zle_Qle; exact Hd).
    assert (H1 : (inject_Z 0 <= q)%Q) by (rewrite Hq; change (inject_Z 0) with 0%Q; nra).
    assert (H2 : (q <= inject_Z d)%Q) by (rewrite Hq; nra).
    apply round_half_even_mono in H1, H2. rewrite round_half_even_inject in H1, H2. lia.
  - assert (Hx : (inject_Z d < 0)%Q)
      by (change 0%Q with (inject_Z 0); rewrite <- Zlt_Qlt; exact Hd).
    assert (H1 : (q <= inject_Z 0)%Q) by (rewrite Hq; change (inject_Z 0) with 0%Q; nra).
    assert (H2 : (inject_Z d <= q)%Q) by (rewrite Hq; nra).
    apply round_half_even_mono in H1, H2. rewrite round_half_even_inject in H1, H2. lia.
Qed.

Lemma sort_reverse_sorted l : StronglySorted (fun a b => (b <= a)%Q) (sort_reverse l).
Proof.
  unfold sort_reverse. apply StronglySorted_merge_sort.
  - intros x y z Hxy Hyz. eapply Qle_trans; eassumption.
  - intros x y. destruct (Qlt_le_dec x y) as [H|H];
      [right; apply Qlt_le_weak, H | left; exact H].
Qed.

Lemma sort_reverse_perm l : sort_reverse l ≡ₚ l.
Proof. apply merge_sort_Permutation. Qed.

(** [q] is a draw of [random.random()] times the range [tr]. *)
Definition unit_multiple (tr q : Q) : Prop :=
  exists u, (0 <= u < 1)%Q /\ q = (u * tr)%Q.

(** The list comprehension draws one number per element and never raises. *)
Lemma random_seconds_spec (xs : list nat) tr s :
  exists l s',
    list_comp xs (fun _ => let* r := random_random in ret (r * tr)%Q) s = (Ok l, s')
    /\ length l = length xs
    /\ Forall (unit_multiple tr) l.
Proof.
  revert s. induction xs as [|x xs IH]; intros s.
  - exists [], s. repeat split; constructor.
  - destruct (IH (with_random_pos (S (random_pos s)) s)) as (l & s' & E & Hlen & Hall).
    eexists (_ :: l), s'. cbn [list_comp]. unfold bind at 1 2. cbn [random_random ret].
    unfold bind at 1. rewrite E. cbn. repeat split.
    + f_equal. exact Hlen.
    + constructor; [|exact Hall]. eexists. split; [apply random_unit_range | reflexivity].
Qed.

(** Whatever the order of the two bounds: as many dates as commits, between
    the bounds, latest first. *)
Lemma randomize_commit_dates_spec (a b : datetime) s :
  exists dates s',
    randomize_commit_dates (Some a) (Some b) s = (Ok dates, s')
    /\ length dates = length (iter_commits (st_repo s))
    /\ Forall (fun d => (Z.min a b <= d <= Z.max a b)%Z) dates
    /\ StronglySorted (fun x y => (y <= x)%Z) dates.
Proof.
  unfold randomize_commit_dates, try_except.
  set (tr := total_seconds (b - a)%Z).
  unfold bind at 1. cbn [gets]. unfold bind at 1. cbn [ret]. unfold bind at 1. cbn [ret].
  destruct (random_seconds_spec (seq 0 (length (iter_commits (st_repo s)))) tr s)
    as (l & s' & E & Hlen & Hall).
  unfold bind at 1. fold tr. rewrite E. cbn.
  eexists _, _. split; [reflexivity|]. repeat split.
  - rewrite length_map, (Permutation_length (sort_reverse_perm l)), Hlen. apply length_seq.
  - apply Forall_map. rewrite (sort_reverse_perm l).
    eapply Forall_impl; [exact Hall|]. cbn. intros q (u & Hu & ->).
    pose proof (timedelta_seconds_range u (b - a)%Z Hu) as H. fold tr in H. lia.
  - apply (StronglySorted_fmap (fun sec => (a + timedelta_seconds sec)%Z)
             (fun x y => (y <= x)%Q) (fun x y => (y <= x)%Z)); [|apply sort_reverse_sorted].
    intros x y Hxy. unfold timedelta_seconds.
    apply Z.add_le_mono_l, round_half_even_mono, Qmult_le_compat_r; [exact Hxy|].
    change 0%Q with (inject_Z 0). rewrite <- Zle_Qle. lia.
Qed.



End Timeline.

(** ** Membership tests *)

Lemma str_in_spec x l : str_in x l = true <-> x ∈ l.
Proof.
  unfold str_in. rewrite existsb_exists. split.
  - intros (y & Hy & E). apply String.eqb_eq in E. subst y. apply list_elem_of_In, Hy.
  - intros H. exists x. split; [apply list_elem_of_In, H | apply String.eqb_refl].
Qed.

Lemma str_in_false x l : str_in x l = false <-> x ∉ l.
Proof.
  rewrite <- str_in_spec. destruct (str_in x l); split; congruence.
Qed.

(** ** The ref manager: [rename_branch] *)
Section RefManager.
Import Git BranchRemoteManager.

Lemma rename_branch_absent (s : state) (old_name new_name : string) :
  str_in old_name (branches (st_repo s)) = false ->
  rename_branch old_name new_name s
  = (Ok false,
     logged (LogEntry "ERROR" ("Branch " +:+ old_name +:+ " does not exist") ERROR) s).
Proof.
  intros H. unfold rename_branch, try_except, bind, gets, log_event, modify, ret.
  cbn. rewrite H. reflexivity.
Qed.

Lemma rename_branch_collision (s : state) (old_name new_name : string) :
  str_in old_name (branches (st_repo s)) = true ->
  str_in new_name (branches (st_repo s)) = true ->
  rename_branch old_name new_name s
  = (Ok false,
     logged (LogEntry "ERROR" ("Branch " +:+ new_name +:+ " already exists") ERROR) s).
Proof.
  intros H1 H2. unfold rename_branch, try_except, bind, gets, log_event, modify, ret.
  cbn. rewrite H1. cbn. rewrite H2. reflexivity.
Qed.

(** C8.  [rename_branch] signals a failure by returning [False] after
    logging the error.  With the old name absent it reports that the branch
    does not exist; with the old name present and the new name taken it
    reports that the branch already exists and overwrites nothing; renaming
    a branch to its own name ends in one of these two ways.  In each case
    the repository, hence its branch list, is as before, and both colliding
    branches are still there. *)
Theorem rename_branch_failures (s : state) (old_name new_name : string) :
  (old_name ∉ branches (st_repo s) ->
     rename_branch old_name new_name s
     = (Ok false,
        logged (LogEntry "ERROR" ("Branch " +:+ old_name +:+ " does not exist") ERROR) s))
  /\ (old_name ∈ branches (st_repo s) -> new_name ∈ branches (st_repo s) ->
      exists s',
        rename_branch old_name new_name s = (Ok false, s')
        /\ s' = logged (LogEntry "ERROR" ("Branch " +:+ new_name +:+ " already exists") ERROR) s
        /\ st_repo s' = st_repo s
        /\ old_name ∈ branches (st_repo s') /\ new_name ∈ branches (st_repo s'))
  /\ (exists s',
        rename_branch old_name old_name s = (Ok false, s')
        /\ st_repo s' = st_repo s).
Proof.
  split; [|split].
  - intros H. apply rename_branch_absent, str_in_false, H.
  - intros H1 H2. eexists. split; [apply rename_branch_collision; apply str_in_spec; assumption|].
    repeat split; assumption.
  - destruct (str_in old_name (branches (st_repo s))) eqn:E.
    + eexists. split; [apply rename_branch_collision; exact E|]. reflexivity.
    + eexists. split; [apply rename_branch_absent; exact E|]. reflexivity.
Qed.
End RefManager.

(** ** The content scrubber: [scan_and_replace] and [update_all_files] *)
Section Scrubber.
Import FileProcessor.
Variable re_search : string -> string -> result bool.
Variable re_sub : string -> string -> string -> result string.

(** The loop over the patterns, as a function of the content. *)
Fixpoint replaced (patterns : list string) (replacement content : string)
    (made : bool) : result (string * bool) :=
  match patterns with
  | [] => Ok (content, made)
  | p :: rest =>
      match re_search p content with
      | Raise e => Raise e
      | Ok false => replaced rest replacement content made
      | Ok true =>
          match re_sub p replacement content with
          | Raise e => Raise e
          | Ok content' => replaced rest replacement content' true
          end
      end
  end.

Lemma replace_patterns_replaced patterns replacement content made (s : state) :
  replace_patterns re_search re_sub patterns replacement content made s
  = (replaced patterns replacement content made, s).
Proof.
  revert content made. induction patterns as [|p rest IH]; intros content made; [reflexivity|].
  cbn [replace_patterns replaced]. unfold bind, lift.
  destruct (re_search p content) as [[|]|e]; [|apply IH|reflexivity].
  destruct (re_sub p replacement content) as [c'|e]; [apply IH|reflexivity].
Qed.

(** No pattern is found in [content]. *)
Definition no_match (patterns : list string) (content : string) : Prop :=
  Forall (fun p => re_search p content = Ok false) patterns.

(** Some pattern is found in [content]. *)
Definition some_match (patterns : list string) (content : string) : bool :=
  existsb (fun p => match re_search p content with Ok true => true | _ => false end)
          patterns.

Lemma replaced_no_match patterns replacement content made :
  no_match patterns content ->
  replaced patterns replacement content made = Ok (content, made).
Proof.
  induction 1 as [|p rest Hp _ IH]; [reflexivity|]. cbn. rewrite Hp. exact IH.
Qed.

Lemma replaced_made patterns replacement content c' :
  replaced patterns replacement content true = Ok (c', false) -> False.
Proof.
  revert content. induction patterns as [|p rest IH]; intros content; cbn; [congruence|].
  destruct (re_search p content) as [[|]|e]; [|apply IH|discriminate].
  destruct (re_sub p replacement content) as [c''|e]; [apply IH|discriminate].
Qed.

Lemma replaced_flag patterns replacement content c' made :
  replaced patterns replacement content false = Ok (c', made) ->
  made = some_match patterns content /\ (made = false -> c' = content).
Proof.
  revert c' made. induction patterns as [|p rest IH]; intros c' made; cbn.
  - intros [= <- <-]. split; reflexivity.
  - destruct (re_search p content) as [[|]|e] eqn:E; [| |discriminate].
    + destruct (re_sub p replacement content) as [c''|e]; [|discriminate].
      destruct made; [split; [reflexivity|discriminate]|].
      intros H. apply replaced_made in H. destruct H.
    + apply IH.
Qed.

(** What [scan_and_replace] does, case by case. *)
Lemma scan_and_replace_cases file_path patterns replacement (s : state) :
  scan_and_replace re_search re_sub file_path patterns replacement s =
  match files s !! file_path with
  | None =>
      (Ok false,
       logged (LogEntry "WARNING" ("File " +:+ file_path +:+ " does not exist") WARNING) s)
  | Some bytes =>
      match decode_text bytes with
      | None =>
          (Ok false, logged (LogEntry "INFO" ("Skipping binary file " +:+ file_path) INFO) s)
      | Some content =>
          match replaced patterns replacement content false with
          | Raise e =>
              (Raise e,
               logged (LogEntry "ERROR" ("Failed to scan and replace in file " +:+ file_path
                                         +:+ ": " +:+ str e) ERROR) s)
          | Ok (content', true) =>
              (Ok true,
               logged (LogEntry "INFO" ("Modified file " +:+ file_path) INFO)
                      (with_files (<[file_path := content']> (files s)) s))
          | Ok (_, false) => (Ok false, s)
          end
      end
  end.
Proof.
  unfold scan_and_replace, try_except. unfold bind at 1. unfold os_path_isfile at 1, gets at 1.
  destruct (files s !! file_path) as [bytes|] eqn:Hf.
  - rewrite bool_decide_eq_true_2 by (eexists; reflexivity). cbn [negb].
    unfold bind at 1. unfold read_text, gets. rewrite Hf. cbn [mbind option_bind].
    destruct (decode_text bytes) as [content|]; [|reflexivity].
    unfold bind at 1. rewrite replace_patterns_replaced.
    destruct (replaced patterns replacement content false) as [[c' [|]]|e]; reflexivity.
  - rewrite bool_decide_eq_false_2 by (intros [? ?]; discriminate). reflexivity.
Qed.

(** The file at [file_path] decodes as text in which some pattern is found. *)
Definition matched (patterns : list string) (s : state) (file_path : string) : bool :=
  match files s !! file_path ≫= decode_text with
  | Some content => some_match patterns content
  | None => false
  end.

(** A successful [scan_and_replace] tells whether the file matched, and
    touches at most that file. *)
Lemma scan_and_replace_ok file_path patterns replacement (s s' : state) b :
  scan_and_replace re_search re_sub file_path patterns replacement s = (Ok b, s') ->
  b = matched patterns s file_path
  /\ (forall q, q <> file_path -> files s' !! q = files s !! q)
  /\ (b = false -> files s' = files s).
Proof.
  rewrite scan_and_replace_cases. unfold matched.
  destruct (files s !! file_path) as [bytes|] eqn:Hf; cbn [mbind option_bind].
  - destruct (decode_text bytes) as [content|].
    + destruct (replaced patterns replacement content false) as [[c' made]|e] eqn:Hr;
        [|discriminate].
      apply replaced_flag in Hr as [Hmade _].
      destruct made; intros [= <- <-]; (split; [exact Hmade|]); split;
        try reflexivity; try discriminate.
      intros q Hq. cbn. apply lookup_insert_ne. congruence.
    + intros [= <- <-]. repeat split.
  - intros [= <- <-]. repeat split.
Qed.

Lemma filter_length_ext (f g : string -> bool) (l : list string) :
  (forall q, q ∈ l -> f q = g q) ->
  length (filter (fun q => f q = true) l) = length (filter (fun q => g q = true) l).
Proof.
  induction l as [|x l IH]; intros H; [reflexivity|].
  rewrite !filter_cons.
  rewrite <- (H x) by (left).
  assert (IH' := IH (fun q Hq => H q (list_elem_of_further _ _ _ Hq))).
  destruct (decide (f x = true)); cbn; rewrite IH'; reflexivity.
Qed.

Lemma scan_files_ok paths patterns replacement count (s s' : state) n :
  NoDup paths ->
  scan_files re_search re_sub paths patterns replacement count s = (Ok n, s') ->
  n = (count + length (filter (fun q => matched patterns s q = true) paths))%nat
  /\ (forall q, q ∉ paths \/ matched patterns s q = false ->
                files s' !! q = files s !! q).
Proof.
  revert count s. induction paths as [|p rest IH]; intros count s Hnd.
  - intros [= <- <-]. split; [rewrite filter_nil; cbn; lia|reflexivity].
  - apply NoDup_cons in Hnd as [Hp Hrest]. cbn [scan_files]. unfold bind at 1.
    destruct (scan_and_replace re_search re_sub p patterns replacement s)
      as [[b|e] s1] eqn:Hscan; [|discriminate].
    apply scan_and_replace_ok in Hscan as (Hb & Hother & Hsame).
    intros Hrun. apply IH in Hrun as [Hn Hframe]; [|exact Hrest].
    assert (Hm : forall q, q ∈ rest -> matched patterns s1 q = matched patterns s q).
    { intros q Hq. unfold matched. rewrite Hother; [reflexivity|]. intros ->. auto. }
    split.
    + rewrite Hn, (filter_length_ext _ _ _ Hm), filter_cons, <- Hb.
      destruct b; [rewrite decide_True by reflexivity|rewrite decide_False by discriminate];
        cbn [length]; lia.
    + intros q Hq. destruct (decide (q = p)) as [->|Hne].
      * destruct Hq as [Hq|Hq]; [exfalso; apply Hq; left|].
        rewrite Hframe by (left; exact Hp).
        rewrite Hsame; [reflexivity|]. congruence.
      * rewrite Hframe, Hother; [reflexivity|exact Hne|].
        destruct Hq as [Hq|Hq].
        -- left. intros Hin. apply Hq. right. exact Hin.
        -- destruct (decide (q ∈ rest)) as [Hin|Hnin]; [right|left; exact Hnin].
           rewrite Hm; assumption.
Qed.

Lemma os_walk_NoDup (s : state) : NoDup (os_walk s).
Proof. unfold os_walk. apply NoDup_filter, NoDup_fst_map_to_list. Qed.

Lemma elem_of_os_walk (s : state) q :
  q ∈ os_walk s <-> walked q = true /\ is_Some (files s !! q).
Proof.
  unfold os_walk. rewrite list_elem_of_filter, list_elem_of_fmap. split.
  - intros [Hw [[k v] [-> Hkv]]]. split; [exact Hw|].
    apply elem_of_map_to_list in Hkv. eexists; exact Hkv.
  - intros [Hw [v Hv]]. split; [exact Hw|]. exists (q, v). split; [reflexivity|].
    apply elem_of_map_to_list. exact Hv.
Qed.

(** The files [update_all_files] scrubs: walked, and matched. *)
Definition scrubbed (patterns : list string) (s : state) (file_path : string) : bool :=
  walked file_path && matched patterns s file_path.

Lemma update_all_files_ok patterns replacement (s s' : state) n :
  update_all_files re_search re_sub patterns replacement s = (Ok n, s') ->
  n = length (filter (fun q => matched patterns s q = true) (os_walk s))
  /\ (forall q, scrubbed patterns s q = false -> files s' !! q = files s !! q).
Proof.
  unfold update_all_files, try_except. unfold bind at 1. cbn [gets]. unfold bind at 1.
  destruct (scan_files re_search re_sub (os_walk s) patterns replacement 0 s)
    as [[m|e] s1] eqn:Hscan.
  - cbn. intros [= <- <-]. apply scan_files_ok in Hscan as [Hn Hframe]; [|apply os_walk_NoDup].
    split; [exact Hn|]. intros q Hq. cbn. apply Hframe.
    unfold scrubbed in Hq. apply andb_false_iff in Hq as [Hq|Hq]; [left|right; exact Hq].
    rewrite elem_of_os_walk. intros [Hw _]. congruence.
  - cbn. discriminate.
Qed.

(** The engine compiles every pattern and replacement it is given. *)
Definition engine_total : Prop :=
  (forall p c, exists b, re_search p c = Ok b)
  /\ (forall p r c, exists c', re_sub p r c = Ok c').

Lemma replaced_total patterns replacement content made :
  engine_total -> exists r, replaced patterns replacement content made = Ok r.
Proof.
  intros [Hs Hr]. revert content made.
  induction patterns as [|p rest IH]; intros content made; cbn; [eexists; reflexivity|].
  destruct (Hs p content) as [[|] ->]; [|apply IH].
  destruct (Hr p replacement content) as [c' ->]. apply IH.
Qed.

Lemma scan_and_replace_total file_path patterns replacement (s : state) :
  engine_total ->
  exists b s', scan_and_replace re_search re_sub file_path patterns replacement s = (Ok b, s').
Proof.
  intros Ht. rewrite scan_and_replace_cases.
  destruct (files s !! file_path) as [bytes|]; [|eexists _, _; reflexivity].
  destruct (decode_text bytes) as [content|]; [|eexists _, _; reflexivity].
  destruct (replaced_total patterns replacement content false Ht) as [[c' [|]] ->];
    eexists _, _; reflexivity.
Qed.

Lemma scan_files_total paths patterns replacement count (s : state) :
  engine_total ->
  exists n s', scan_files re_search re_sub paths patterns replacement count s = (Ok n, s').
Proof.
  intros Ht. revert count s. induction paths as [|p rest IH]; intros count s.
  - eexists _, _; reflexivity.
  - cbn [scan_files]. unfold bind at 1.
    destruct (scan_and_replace_total p patterns replacement s Ht) as (b & s1 & ->).
    apply IH.
Qed.

Lemma update_all_files_total patterns replacement (s : state) :
  engine_total ->
  exists n s', update_all_files re_search re_sub patterns replacement s = (Ok n, s').
Proof.
  intros Ht. unfold update_all_files, try_except. unfold bind at 1. cbn [gets].
  unfold bind at 1.
  destruct (scan_files_total (os_walk s) patterns replacement 0 s Ht) as (n & s1 & ->).
  cbn. eexists _, _; reflexivity.
Qed.


(** No pattern is found in any walked file that decodes as text. *)
Definition settled (patterns : list string) (f : gmap string string) : Prop :=
  forall q bytes content,
    walked q = true -> f !! q = Some bytes -> decode_text bytes = Some content ->
    no_match patterns content.

Lemma scan_and_replace_settled file_path patterns replacement (s : state) :
  walked file_path = true -> settled patterns (files s) ->
  exists s', scan_and_replace re_search re_sub file_path patterns replacement s = (Ok false, s')
             /\ files s' = files s.
Proof.
  intros Hw Hs. rewrite scan_and_replace_cases.
  destruct (files s !! file_path) as [bytes|] eqn:Hf; [|eexists; split; reflexivity].
  destruct (decode_text bytes) as [content|] eqn:Hd; [|eexists; split; reflexivity].
  rewrite (replaced_no_match _ _ _ _ (Hs _ _ _ Hw Hf Hd)). eexists; split; reflexivity.
Qed.

Lemma scan_files_settled paths patterns replacement count (s : state) :
  Forall (fun q => walked q = true) paths -> settled patterns (files s) ->
  exists s', scan_files re_search re_sub paths patterns replacement count s = (Ok count, s')
             /\ files s' = files s.
Proof.
  intros Hw. revert s. induction Hw as [|p rest Hp _ IH]; intros s Hs.
  - eexists; split; reflexivity.
  - cbn [scan_files]. unfold bind at 1.
    destruct (scan_and_replace_settled p patterns replacement s Hp Hs) as (s1 & -> & Hf1).
    destruct (IH s1) as (s' & E & Hf'); [rewrite Hf1; exact Hs|].
    exists s'. split; [exact E|congruence].
Qed.

Lemma update_all_files_settled patterns replacement (s : state) :
  settled patterns (files s) ->
  exists s', update_all_files re_search re_sub patterns replacement s = (Ok 0%nat, s')
             /\ files s' = files s.
Proof.
  intros Hs. unfold update_all_files, try_except. unfold bind at 1. cbn [gets].
  unfold bind at 1.
  destruct (scan_files_settled (os_walk s) patterns replacement 0 s) as (s1 & -> & Hf);
    [|exact Hs|].
  - apply Forall_forall. intros q Hq. apply elem_of_os_walk in Hq as [Hq _]. exact Hq.
  - cbn. eexists; split; [reflexivity|exact Hf].
Qed.
Lemma replaced_unmade patterns replacement content c' :
  replaced patterns replacement content false = Ok (c', false) ->
  no_match patterns content.
Proof.
  induction patterns as [|p rest IH]; cbn; [constructor|].
  destruct (re_search p content) as [[|]|e] eqn:E; [| |discriminate].
  - destruct (re_sub p replacement content) as [c''|e]; [|discriminate].
    intros H. apply replaced_made in H. destruct H.
  - intros H. constructor; [exact E|apply IH, H].
Qed.

(** A file in which [scan_and_replace] found nothing holds no match. *)
Lemma scan_and_replace_false file_path patterns replacement (s s' : state) :
  scan_and_replace re_search re_sub file_path patterns replacement s = (Ok false, s') ->
  forall bytes content,
    files s !! file_path = Some bytes -> decode_text bytes = Some content ->
    no_match patterns content.
Proof.
  rewrite scan_and_replace_cases. intros H bytes content Hf Hd. rewrite Hf, Hd in H.
  destruct (replaced patterns replacement content false)
    as [[c' [|]]|e] eqn:Hr; try discriminate.
  apply replaced_unmade in Hr. exact Hr.
Qed.

Lemma scan_files_none paths patterns replacement count (s s' : state) :
  NoDup paths ->
  scan_files re_search re_sub paths patterns replacement count s = (Ok count, s') ->
  forall q bytes content,
    q ∈ paths -> files s !! q = Some bytes -> decode_text bytes = Some content ->
    no_match patterns content.
Proof.
  revert count s. induction paths as [|p rest IH]; intros count s Hnd Hrun q bytes content Hq;
    [inversion Hq|].
  apply NoDup_cons in Hnd as [Hp Hrest]. cbn [scan_files] in Hrun. unfold bind at 1 in Hrun.
  destruct (scan_and_replace re_search re_sub p patterns replacement s)
    as [[b|e] s1] eqn:Hscan; [|discriminate].
  pose proof (scan_files_ok _ _ _ _ _ _ _ Hrest Hrun) as [Hn _].
  destruct b; [lia|].
  pose proof (scan_and_replace_ok _ _ _ _ _ _ Hscan) as (_ & Hother & _).
  apply elem_of_cons in Hq as [->|Hq].
  - apply (scan_and_replace_false _ _ _ _ _ Hscan).
  - intros Hf Hd. apply (IH _ _ Hrest Hrun q bytes content Hq); [|exact Hd].
    rewrite Hother; [exact Hf|]. intros ->. auto.
Qed.

(** [update_all_files] counts no file exactly when the files are settled. *)
Lemma update_all_files_zero patterns replacement (s : state) :
  settled patterns (files s)
  <-> exists s', update_all_files re_search re_sub patterns replacement s = (Ok 0%nat, s').
Proof.
  split.
  - intros Hs. destruct (update_all_files_settled _ replacement _ Hs) as (s' & H & _).
    exists s'. exact H.
  - intros [s' Hrun] q bytes content Hw Hf Hd.
    unfold update_all_files, try_except in Hrun. unfold bind at 1 in Hrun. cbn [gets] in Hrun.
    unfold bind at 1 in Hrun.
    destruct (scan_files re_search re_sub (os_walk s) patterns replacement 0 s)
      as [[m|e] s1] eqn:Hscan; cbn in Hrun; [|discriminate].
    injection Hrun as -> _.
    apply (scan_files_none _ _ _ _ _ _ (os_walk_NoDup s) Hscan q bytes content); try assumption.
    apply elem_of_os_walk. split; [exact Hw|eexists; exact Hf].
Qed.
End Scrubber.

(** ** Patterns are matched in their own case *)
Section LiteralPatterns.
Import FileProcessor.

End LiteralPatterns.

(** ** Cleaning twice: [clean_sensitive_data] *)
Section Cleaning.
Import Git BackendController.
Variable re_search : string -> string -> result bool.
Variable re_sub : string -> string -> string -> result string.
Variable write_tree : gmap string string -> string.

Lemma clean_sensitive_data_settled patterns replacement (s : state) :
  settled re_search patterns (files s) ->
  exists s',
    clean_sensitive_data re_search re_sub write_tree patterns replacement s = (Ok true, s')
    /\ fst (FileProcessor.update_all_files re_search re_sub patterns replacement
                                           (file_processor_view s)) = Ok 0%nat
    /\ files s' = files s /\ st_repo s' = st_repo s.
Proof.
  intros Hs.
  destruct (update_all_files_settled re_search re_sub patterns replacement
              (file_processor_view s) Hs) as (t & Ht & Hf).
  unfold clean_sensitive_data, try_except. unfold bind at 1. unfold zoom. rewrite Ht.
  cbn. eexists. split; [reflexivity|]. split; [reflexivity|]. split; [exact Hf|reflexivity].
Qed.

End Cleaning.

(** ** Plain-text patterns: when the scrub settles *)
Lemma prefix_cons a q b s :
  String.prefix (String a q) (String b s) = Ascii.eqb a b && String.prefix q s.
Proof.
  cbn. destruct (ascii_dec a b) as [->|Hne].
  - rewrite Ascii.eqb_refl. reflexivity.
  - apply Ascii.eqb_neq in Hne. rewrite Hne. reflexivity.
Qed.

Lemma prefix_foreign a q s :
  has_char a q = false -> q <> EmptyString -> String.prefix q (String a s) = false.
Proof.
  destruct q as [|b q]; [congruence|]. intros H _. rewrite prefix_cons.
  cbn in H. apply orb_false_iff in H as [H _]. rewrite Ascii.eqb_sym, H. reflexivity.
Qed.

Lemma contains_cons q a s :
  contains q (String a s) = String.prefix q (String a s) || contains q s.
Proof. reflexivity. Qed.

(** An occurrence of [q] cannot start inside text foreign to [q]. *)
Lemma contains_after_foreign r q X :
  apart r q = true -> q <> EmptyString -> contains q (r +:+ X) = contains q X.
Proof.
  intros Hr Hq. induction r as [|a r IH]; [reflexivity|].
  cbn [apart] in Hr. apply andb_true_iff in Hr as [Ha Hr]. apply negb_true_iff in Ha.
  change (String a r +:+ X) with (String a (r +:+ X)). rewrite contains_cons, (prefix_foreign _ _ _ Ha Hq). apply IH, Hr.
Qed.

Section OneReplacement.
Variable p r : string.
Hypothesis p_not_empty : p <> EmptyString.
Hypothesis r_not_empty : r <> EmptyString.

Lemma replace_from_nil k : replace_from p r EmptyString k = EmptyString.
Proof.
  destruct k; [|reflexivity]. cbn. destruct p; [congruence|reflexivity].
Qed.

Lemma replace_from_match c s :
  String.prefix p (String c s) = true ->
  replace_from p r (String c s) 0 = r +:+ replace_from p r s (String.length p - 1).
Proof.
  intros H. cbn [replace_from]. rewrite H.
  destruct p as [|a p']; [congruence|]. cbn [String.length]. rewrite Nat.sub_succ, Nat.sub_0_r. reflexivity.
Qed.

Lemma replace_from_skip c s :
  String.prefix p (String c s) = false ->
  replace_from p r (String c s) 0 = String c (replace_from p r s 0).
Proof. intros H. cbn [replace_from]. rewrite H. reflexivity. Qed.

(** What the output starts with, the input started with. *)
Lemma prefix_of_replaced q s :
  apart r q = true ->
  String.prefix q (replace_from p r s 0) = true -> String.prefix q s = true.
Proof.
  intros Hr. revert q Hr. induction s as [|c s IH]; intros q Hr.
  - rewrite replace_from_nil. auto.
  - destruct q as [|a q]; [reflexivity|].
    destruct (String.prefix p (String c s)) eqn:Hp.
    + rewrite (replace_from_match _ _ Hp).
      destruct r as [|b r']; [congruence|]. change (String b r' +:+ ?x) with (String b (r' +:+ x)).
      cbn [apart] in Hr. apply andb_true_iff in Hr as [Hb _]. apply negb_true_iff in Hb.
      rewrite (prefix_foreign _ _ _ Hb); [discriminate|discriminate].
    + rewrite (replace_from_skip _ _ Hp), !prefix_cons.
      intros H. apply andb_true_iff in H as [-> H]. cbn [andb]. apply IH; [|exact H].
      clear -Hr. induction r as [|b r' IHr]; [reflexivity|].
      cbn [apart] in *. apply andb_true_iff in Hr as [Hb Hr]. apply negb_true_iff in Hb.
      cbn [has_char] in Hb. apply orb_false_iff in Hb as [_ Hb]. rewrite Hb. cbn. auto.
Qed.

(** Replacing creates no occurrence of a text [q] foreign to the
    replacement. *)
Lemma contains_of_replaced q s k :
  apart r q = true -> q <> EmptyString ->
  contains q (replace_from p r s k) = true -> contains q s = true.
Proof.
  intros Hr Hq. revert k. induction s as [|c s IH]; intros k.
  - rewrite replace_from_nil. auto.
  - rewrite contains_cons. destruct k as [|k].
    + destruct (String.prefix p (String c s)) eqn:Hp.
      * rewrite (replace_from_match _ _ Hp), (contains_after_foreign _ _ _ Hr Hq).
        intros H. rewrite (IH _ H). apply orb_true_r.
      * rewrite (replace_from_skip _ _ Hp), contains_cons. intros H.
        apply orb_true_iff in H as [H|H].
        -- rewrite <- (replace_from_skip _ _ Hp) in H.
           rewrite (prefix_of_replaced _ _ Hr H). reflexivity.
        -- rewrite (IH _ H). apply orb_true_r.
    + cbn [replace_from]. intros H. rewrite (IH _ H). apply orb_true_r.
Qed.

(** No occurrence of the pattern is left. *)
Lemma pattern_gone s k :
  apart r p = true -> contains p (replace_from p r s k) = false.
Proof.
  intros Hr. revert k. induction s as [|c s IH]; intros k.
  - rewrite replace_from_nil. cbn. destruct p; [congruence|reflexivity].
  - destruct k as [|k]; [|cbn [replace_from]; apply IH].
    destruct (String.prefix p (String c s)) eqn:Hp.
    + rewrite (replace_from_match _ _ Hp), (contains_after_foreign _ _ _ Hr p_not_empty).
      apply IH.
    + rewrite (replace_from_skip _ _ Hp), contains_cons, IH, orb_false_r.
      destruct (String.prefix p (String c (replace_from p r s 0))) eqn:H; [|reflexivity].
      rewrite <- (replace_from_skip _ _ Hp) in H.
      apply (prefix_of_replaced _ _ Hr) in H. congruence.
Qed.
End OneReplacement.

Lemma has_char_append a r s :
  has_char a (r +:+ s) = has_char a r || has_char a s.
Proof.
  induction r as [|b r IH]; [reflexivity|].
  change (String b r +:+ s) with (String b (r +:+ s)). cbn [has_char].
  rewrite IH. apply orb_assoc.
Qed.

Lemma replace_from_has_char a p r s k :
  has_char a r = false -> has_char a s = false ->
  has_char a (replace_from p r s k) = false.
Proof.
  intros Hr. revert k. induction s as [|c s IH]; intros k Hs.
  - destruct k; [|reflexivity]. cbn. destruct p; [exact Hr|reflexivity].
  - cbn [has_char] in Hs. apply orb_false_iff in Hs as [Hc Hs].
    destruct k as [|k]; [|cbn [replace_from]; apply IH, Hs].
    cbn [replace_from]. destruct (String.prefix p (String c s)).
    + destruct (String.length p).
      * rewrite has_char_append, Hr. cbn [has_char orb]. rewrite Hc. apply IH, Hs.
      * rewrite has_char_append, Hr. apply IH, Hs.
    + cbn [has_char]. rewrite Hc. apply IH, Hs.
Qed.

(** Text read in text mode holds no carriage return, and text without one
    is read as it is. *)
Lemma universal_newlines_no_CR s : has_char CR (universal_newlines s) = false.
Proof.
  enough (H : has_char CR (universal_newlines s) = false
              /\ forall c, has_char CR (universal_newlines (String c s)) = false)
    by apply H.
  induction s as [|c s [IH1 IH2]].
  - split; [reflexivity|]. intros c. cbn [universal_newlines].
    destruct (Ascii.eqb c CR) eqn:E; [reflexivity|].
    cbn [has_char]. rewrite Ascii.eqb_sym, E. reflexivity.
  - split; [apply IH2|]. intros c0. cbn [universal_newlines].
    destruct (Ascii.eqb c0 CR) eqn:E0.
    + destruct (Ascii.eqb c LF); cbn [has_char];
        change (Ascii.eqb CR LF) with false; [exact IH1|apply IH2].
    + cbn [has_char]. rewrite Ascii.eqb_sym, E0. apply IH2.
Qed.

Lemma universal_newlines_id s : has_char CR s = false -> universal_newlines s = s.
Proof.
  induction s as [|c s IH]; [reflexivity|]. cbn [has_char universal_newlines].
  intros H. apply orb_false_iff in H as [Hc Hs]. rewrite Ascii.eqb_sym, Hc, (IH Hs).
  reflexivity.
Qed.

Section Settling.
Import FileProcessor.
Variable re_search : string -> string -> result bool.
Variable re_sub : string -> string -> string -> result string.

(** No pattern is found in the file at [q], if it is there and decodes as
    text. *)
Definition file_settled (patterns : list string) (f : gmap string string)
    (q : string) : Prop :=
  forall bytes content,
    f !! q = Some bytes -> decode_text bytes = Some content ->
    no_match re_search patterns content.

(** What the loop writes, read again, holds no match. *)
Definition scrub_settles (patterns : list string) (replacement : string) : Prop :=
  forall bytes content c' content',
    decode_text bytes = Some content ->
    replaced re_search re_sub patterns replacement content false = Ok (c', true) ->
    decode_text c' = Some content' ->
    no_match re_search patterns content'.

Lemma scan_and_replace_settles file_path patterns replacement (s s' : state) b :
  scrub_settles patterns replacement ->
  scan_and_replace re_search re_sub file_path patterns replacement s = (Ok b, s') ->
  file_settled patterns (files s') file_path.
Proof.
  intros Hss. rewrite scan_and_replace_cases.
  destruct (files s !! file_path) as [bytes|] eqn:Hf.
  - destruct (decode_text bytes) as [content|] eqn:Hd.
    + destruct (replaced re_search re_sub patterns replacement content false)
        as [[c' [|]]|e] eqn:Hr; [| |discriminate].
      * intros [= _ <-] bytes' content'. cbn. rewrite lookup_insert_eq. intros [= <-].
        apply (Hss _ _ _ _ Hd Hr).
      * intros [= _ <-] bytes' content'. rewrite Hf. intros [= <-]. rewrite Hd.
        intros [= <-]. apply (replaced_unmade _ _ _ _ _ _ Hr).
    + intros [= _ <-] bytes' content'. cbn. rewrite Hf. intros [= <-]. congruence.
  - intros [= _ <-] bytes' content'. cbn. rewrite Hf. discriminate.
Qed.

Lemma scan_files_settles paths patterns replacement count (s s' : state) n :
  NoDup paths -> scrub_settles patterns replacement ->
  scan_files re_search re_sub paths patterns replacement count s = (Ok n, s') ->
  forall q, q ∈ paths -> file_settled patterns (files s') q.
Proof.
  intros Hnd Hss. revert count s. induction paths as [|p rest IH]; intros count s Hrun q Hq;
    [inversion Hq|].
  apply NoDup_cons in Hnd as [Hp Hrest]. cbn [scan_files] in Hrun. unfold bind at 1 in Hrun.
  destruct (scan_and_replace re_search re_sub p patterns replacement s)
    as [[b|e] s1] eqn:Hscan; [|discriminate].
  apply elem_of_cons in Hq as [->|Hq]; [|apply (IH Hrest _ _ Hrun q Hq)].
  pose proof (scan_files_ok _ _ _ _ _ _ _ _ _ Hrest Hrun) as [_ Hframe].
  intros bytes content. rewrite Hframe by (left; exact Hp).
  apply (scan_and_replace_settles _ _ _ _ _ _ Hss Hscan).
Qed.

Lemma update_all_files_settles patterns replacement (s s' : state) n :
  scrub_settles patterns replacement ->
  update_all_files re_search re_sub patterns replacement s = (Ok n, s') ->
  settled re_search patterns (files s').
Proof.
  intros Hss Hrun. unfold update_all_files, try_except in Hrun. unfold bind at 1 in Hrun.
  cbn [gets] in Hrun. unfold bind at 1 in Hrun.
  destruct (scan_files re_search re_sub (os_walk s) patterns replacement 0 s)
    as [[m|e] s1] eqn:Hscan; cbn in Hrun; [|discriminate].
  injection Hrun as _ <-. cbn.
  intros q bytes content Hw Hf. destruct (decide (q ∈ os_walk s)) as [Hin|Hnin].
  - apply (scan_files_settles _ _ _ _ _ _ _ (os_walk_NoDup s) Hss Hscan q Hin _ _ Hf).
  - pose proof (scan_files_ok _ _ _ _ _ _ _ _ _ (os_walk_NoDup s) Hscan) as [_ Hframe].
    rewrite Hframe in Hf by (left; exact Hnin). exfalso. apply Hnin.
    apply elem_of_os_walk. split; [exact Hw|eexists; exact Hf].
Qed.
End Settling.

Section LiteralScrub.
Import FileProcessor.
Variable replacement : string.
Hypothesis replacement_not_empty : replacement <> EmptyString.
Hypothesis replacement_no_CR : has_char CR replacement = false.

(** A pattern the replacement cannot rebuild: not empty, and sharing no
    character with it. *)
Definition foreign (p : string) : Prop :=
  p <> EmptyString /\ apart replacement p = true.

Lemma replaced_literal patterns done content made c' made' :
  Forall foreign patterns -> Forall foreign done ->
  Forall (fun q => contains q content = false) done ->
  has_char CR content = false ->
  replaced literal_search literal_sub patterns replacement content made = Ok (c', made') ->
  Forall (fun q => contains q c' = false) (done ++ patterns) /\ has_char CR c' = false.
Proof.
  intros Hp. revert done content made. induction Hp as [|p rest [Hpe Hpa] _ IH];
    intros done content made Hd Hnone Hcr.
  - cbn. intros [= <- _]. rewrite app_nil_r. auto.
  - cbn [replaced literal_search literal_sub]. rewrite cons_middle, app_assoc.
    destruct (contains p content) eqn:Hc.
    + apply IH.
      * apply Forall_app. split; [exact Hd|]. constructor; [split; assumption|constructor].
      * apply Forall_app. split.
        -- rewrite Forall_forall in Hd, Hnone. apply Forall_forall. intros q Hq.
           destruct (Hd q Hq) as [Hqe Hqa].
           destruct (contains q (replace_from p replacement content 0)) eqn:E; [|reflexivity].
           apply (contains_of_replaced p replacement Hpe replacement_not_empty q _ _ Hqa Hqe) in E.
           rewrite (Hnone q Hq) in E. discriminate.
        -- constructor; [|constructor].
           apply (pattern_gone p replacement Hpe replacement_not_empty _ _ Hpa).
      * apply replace_from_has_char; assumption.
    + apply IH; [|apply Forall_app; split; [exact Hnone|constructor; [exact Hc|constructor]]|exact Hcr].
      apply Forall_app. split; [exact Hd|]. constructor; [split; assumption|constructor].
Qed.

Lemma literal_scrub_settles patterns :
  Forall foreign patterns ->
  scrub_settles literal_search literal_sub patterns replacement.
Proof.
  intros Hp bytes content c' content' Hd Hr Hd'.
  unfold decode_text in Hd, Hd'.
  destruct (utf8_valid bytes); [|discriminate]. injection Hd as <-.
  destruct (utf8_valid c'); [|discriminate]. injection Hd' as <-.
  destruct (replaced_literal patterns [] _ _ _ _ Hp (List.Forall_nil _) (List.Forall_nil _)
              (universal_newlines_no_CR bytes) Hr) as [Hnone Hcr].
  rewrite (universal_newlines_id _ Hcr). cbn [app] in Hnone. unfold no_match.
  eapply Forall_impl; [exact Hnone|]. intros q Hq. cbn. unfold literal_search. rewrite Hq.
  reflexivity.
Qed.
End LiteralScrub.

Section CleanedFiles.
Import Git BackendController.
Variable re_search : string -> string -> result bool.
Variable re_sub : string -> string -> string -> result string.
Variable write_tree : gmap string string -> string.

(** The files [clean_sensitive_data] leaves are those [update_all_files]
    leaves, whether the commit is made or refused. *)
Lemma clean_sensitive_data_files patterns replacement (s : state) :
  files (snd (clean_sensitive_data re_search re_sub write_tree patterns replacement s))
  = FileProcessor.files
      (snd (FileProcessor.update_all_files re_search re_sub patterns replacement
              (file_processor_view s))).
Proof.
  unfold clean_sensitive_data, try_except. unfold bind at 1. unfold zoom.
  destruct (FileProcessor.update_all_files re_search re_sub patterns replacement
              (file_processor_view s)) as [[n|e] t]; [|reflexivity].
  destruct (0 <? n)%nat; [|reflexivity].
  unfold bind at 1. unfold bind at 1. unfold git_add_commit.
  cbn [st_repo file_processor_update files].
  destruct (ref_tip (st_repo s) (HEAD (st_repo s))) as [tip|]; [|reflexivity].
  destruct (String.eqb (tree_of tip) _); reflexivity.
Qed.
End CleanedFiles.

Lemma literal_engine_total : engine_total literal_search literal_sub.
Proof. split; [intros p c|intros p r c]; eexists; reflexivity. Qed.

Section LiteralCleaning.
Import Git BackendController.
Variable write_tree : gmap string string -> string.

End LiteralCleaning.

(** ** Rewritten histories *)
Section History.
Import Git.
Variable hexsha : commit -> string.

Lemma rewrite_commit_unfold f e t m ps :
  rewrite_commit hexsha f (Commit e t m ps)
  = Commit (f (hexsha (Commit e t m ps)) e) t m
           (remove_dups (map (rewrite_commit hexsha f) ps)).
Proof. reflexivity. Qed.

Lemma elem_of_ancestry c x :
  x ∈ ancestry c <-> x = c \/ exists p, p ∈ parents_of c /\ x ∈ ancestry p.
Proof.
  destruct c as [e t m ps]. cbn [ancestry parents_of].
  rewrite elem_of_cons, list_elem_of_In, in_flat_map.
  split; (intros [H|(p & Hp & Hx)]; [left; exact H|right; exists p]).
  - split; apply list_elem_of_In; assumption.
  - split; apply list_elem_of_In; assumption.
Qed.

(** [phi] rewrites history commit by commit: the commits reachable from a
    rewritten commit are the rewritten commits reachable from the original. *)
Definition commitwise (phi : commit -> commit) : Prop :=
  forall c x, x ∈ rev_list (phi c) <-> exists y, y ∈ rev_list c /\ x = phi y.

Lemma parents_of_rewrite f c :
  parents_of (rewrite_commit hexsha f c)
  = remove_dups (map (rewrite_commit hexsha f) (parents_of c)).
Proof. destruct c; reflexivity. Qed.

Lemma ancestry_rewrite f c x :
  x ∈ ancestry (rewrite_commit hexsha f c)
  <-> exists y, y ∈ ancestry c /\ x = rewrite_commit hexsha f y.
Proof.
  revert x. induction c as [e t m ps IH] using commit_ind'. intros x.
  rewrite Forall_forall in IH.
  set (c := Commit e t m ps).
  rewrite elem_of_ancestry, parents_of_rewrite. cbn [parents_of c].
  split.
  - intros [->|(q & Hq & Hx)].
    + exists c. split; [apply elem_of_ancestry; left; reflexivity|reflexivity].
    + apply elem_of_remove_dups, list_elem_of_In, in_map_iff in Hq as (p & <- & Hp).
      apply list_elem_of_In in Hp.
      apply (IH p Hp) in Hx as (y & Hy & ->).
      exists y. split; [|reflexivity]. apply elem_of_ancestry. right. exists p. split; assumption.
  - intros (y & Hy & ->). apply elem_of_ancestry in Hy as [->|(p & Hp & Hy)]; [left; reflexivity|].
    right. cbn [parents_of c] in Hp. exists (rewrite_commit hexsha f p). split.
    + apply elem_of_remove_dups, list_elem_of_In, in_map, list_elem_of_In, Hp.
    + apply (IH p Hp). exists y. split; [exact Hy|reflexivity].
Qed.

Lemma rewrite_commit_commitwise f : commitwise (rewrite_commit hexsha f).
Proof.
  intros c x. unfold rev_list. split.
  - intros Hx. apply elem_of_remove_dups, ancestry_rewrite in Hx as (y & Hy & ->).
    exists y. split; [apply elem_of_remove_dups, Hy|reflexivity].
  - intros (y & Hy & ->). apply elem_of_remove_dups, ancestry_rewrite.
    exists y. split; [apply elem_of_remove_dups, Hy|reflexivity].
Qed.

Lemma commitwise_compose phi psi :
  commitwise phi -> commitwise psi -> commitwise (fun c => psi (phi c)).
Proof.
  intros Hphi Hpsi c x. split.
  - intros Hx. apply Hpsi in Hx as (y & Hy & ->). apply Hphi in Hy as (z & Hz & ->).
    exists z. split; [exact Hz|reflexivity].
  - intros (z & Hz & ->). apply Hpsi. exists (phi z). split; [|reflexivity].
    apply Hphi. exists z. split; [exact Hz|reflexivity].
Qed.

Lemma commitwise_count phi c :
  commitwise phi ->
  length (rev_list (phi c)) <= length (rev_list c)
  /\ ((forall x y, x ∈ rev_list c -> y ∈ rev_list c -> phi x = phi y -> x = y) ->
      length (rev_list (phi c)) = length (rev_list c)).
Proof.
  intros Hphi.
  assert (Hle : length (rev_list (phi c)) <= length (rev_list c)).
  { rewrite <- (length_map phi (rev_list c)). apply submseteq_length, NoDup_submseteq.
    - apply NoDup_remove_dups.
    - intros x Hx. apply Hphi in Hx as (y & Hy & ->). apply list_elem_of_In, in_map, list_elem_of_In, Hy. }
  split; [exact Hle|]. intros Hinj. apply Nat.le_antisymm; [exact Hle|].
  rewrite <- (length_map phi (rev_list c)). apply submseteq_length, NoDup_submseteq.
  - apply (NoDup_fmap_2_strong phi); [exact Hinj|apply NoDup_remove_dups].
  - intros x Hx. apply list_elem_of_In, in_map_iff in Hx as (y & <- & Hy).
    apply Hphi. exists y. split; [apply list_elem_of_In, Hy|reflexivity].
Qed.
End History.

(** ** The metadata rewriter: [update_commit_metadata] *)
Section Rewriter.
Import Git CommitModifier.
Variable hexsha : commit -> string.

Definition mismatch_message (commits dates : nat) : string :=
  "Number of commits (" +:+ pretty commits
  +:+ ") doesn't match number of dates (" +:+ pretty dates +:+ ")".

(** The date map [_update_commit_dates] builds. *)
Definition date_map_of (commits : list commit) (new_dates : list datetime)
    : list (string * Z) :=
  fold_left (fun dm cd => dict_set (str_take 7 (hexsha (fst cd))) (strftime (snd cd)) dm)
            (zip commits new_dates) [].

Lemma update_commit_dates_mismatch (new_dates : list datetime) (s : state) :
  length (iter_commits (st_repo s)) <> length new_dates ->
  _update_commit_dates hexsha new_dates s
  = (Raise (ValueError (mismatch_message (length (iter_commits (st_repo s)))
                                         (length new_dates))),
     logged (LogEntry "ERROR"
               ("Failed to update commit dates: "
                +:+ mismatch_message (length (iter_commits (st_repo s))) (length new_dates))
               ERROR)
       (logged (LogEntry "ERROR"
                  (mismatch_message (length (iter_commits (st_repo s))) (length new_dates))
                  ERROR) s)).
Proof.
  intros Hne. apply Nat.eqb_neq in Hne.
  unfold _update_commit_dates, try_except. unfold bind at 1. cbn [gets].
  rewrite Hne. reflexivity.
Qed.

(** The scratch files in place and the command logged: the state in which
    the tool is started. *)
Definition prepared (lines : list (string * Z)) (s : state) : state :=
  logged (LogEntry "INFO"
            ("Running command: cd " +:+ repo_path s
             +:+ " && git filter-branch -f --env-filter '.git/change_dates.sh' -- --all")
            INFO)
    (with_git_dir (<[".git/change_dates.sh" := FilterScript]>
                     (<[".git/date_map.txt" := DateMapFile lines]> (git_dir s))) s).

Lemma script_on_prepared lines s :
  script_on_disk (prepared lines s) = change_dates lines.
Proof.
  unfold script_on_disk, prepared. cbn [logged set_logs logs state_logging git_dir with_logs with_git_dir].
  rewrite lookup_insert_ne by discriminate. rewrite lookup_insert_eq. reflexivity.
Qed.

Lemma update_commit_dates_run (new_dates : list datetime) (s : state) :
  length (iter_commits (st_repo s)) = length new_dates ->
  let lines := date_map_of (iter_commits (st_repo s)) new_dates in
  _update_commit_dates hexsha new_dates s
  = match head (tool_runs s) with
    | Some (ExitNonzero stderr left_behind) =>
        (Raise (RuntimeError ("Error updating commit dates: " +:+ stderr)),
         logged (LogEntry "ERROR" ("Failed to update commit dates: "
                                   +:+ "Error updating commit dates: " +:+ stderr) ERROR)
           (logged (LogEntry "ERROR" ("Error updating commit dates: " +:+ stderr) ERROR)
              (with_repo left_behind
                 (with_tool_runs (tail (tool_runs s)) (prepared lines s)))))
    | _ =>
        (Ok true,
         logged (LogEntry "INFO" "Commit dates updated successfully" INFO)
           (with_git_dir
              (delete ".git/change_dates.sh"
                 (delete ".git/date_map.txt" (git_dir (prepared lines s))))
              (with_repo (filter_branch_all hexsha (change_dates lines) (st_repo s))
                 (with_tool_runs (tail (tool_runs s)) (prepared lines s)))))
    end.
Proof.
  intros Hlen lines. apply Nat.eqb_eq in Hlen.
  unfold _update_commit_dates, try_except. unfold bind at 1. cbn [gets].
  rewrite Hlen. cbn [negb].
  unfold bind at 1. unfold write_scratch at 1, modify at 1.
  unfold bind at 1. unfold write_scratch at 1, modify at 1.
  unfold bind at 1. cbn [gets].
  unfold bind at 1. unfold log_event at 1, modify at 1.
  fold (date_map_of (iter_commits (st_repo s)) new_dates). fold lines.
  match goal with |- context [bind (gets script_on_disk) _ ?s0] =>
    change s0 with (prepared lines s) end.
  unfold bind at 1. cbn [gets]. rewrite script_on_prepared.
  unfold bind at 1. unfold git_filter_branch.
  change (tool_runs (prepared lines s)) with (tool_runs s).
  destruct (head (tool_runs s)) as [[|stderr left_behind]|]; reflexivity.
Qed.

(** The first block of [update_commit_metadata]: the identity rewrite. *)
Definition identity_phase (new_author new_email : string) : M state unit :=
  if truthy new_author && truthy new_email then
    let* path := gets repo_path in
    log_event "INFO" ("Running command: cd " +:+ path
      +:+ " && git filter-branch -f --env-filter '...' -- --all") INFO >>
    let* (returncode, stderr) :=
      git_filter_branch hexsha (author_filter new_author new_email) in
    if negb (returncode =? 0)%Z then
      log_event "ERROR" ("Error updating commit metadata: " +:+ stderr) ERROR >>
      raise (RuntimeError ("Error updating commit metadata: " +:+ stderr))
    else
      log_event "INFO" "Commit metadata updated successfully" INFO
  else ret tt.

Definition metadata_failed (e : exn) : M state bool :=
  log_event "ERROR" ("Failed to update commit metadata: " +:+ str e) ERROR >>
  raise e.

Lemma update_commit_metadata_phases new_author new_email new_dates :
  update_commit_metadata hexsha new_author new_email new_dates
  = try_except
      (identity_phase new_author new_email >>
       match new_dates with
       | Some (d :: ds) => _update_commit_dates hexsha (d :: ds) >> ret true
       | _ => ret true
       end)
      metadata_failed.
Proof. reflexivity. Qed.

(** The state a successful identity rewrite leaves. *)
Definition identity_rewritten (new_author new_email : string) (s : state) : state :=
  logged (LogEntry "INFO" "Commit metadata updated successfully" INFO)
    (with_repo (filter_branch_all hexsha (author_filter new_author new_email) (st_repo s))
       (with_tool_runs (tail (tool_runs s))
          (logged (LogEntry "INFO" ("Running command: cd " +:+ repo_path s
                     +:+ " && git filter-branch -f --env-filter '...' -- --all") INFO) s))).

Lemma identity_phase_skipped new_author new_email (s : state) :
  truthy new_author && truthy new_email = false ->
  identity_phase new_author new_email s = (Ok tt, s).
Proof. intros H. unfold identity_phase. rewrite H. reflexivity. Qed.

Lemma identity_phase_run new_author new_email (s : state) :
  truthy new_author && truthy new_email = true ->
  identity_phase new_author new_email s
  = match head (tool_runs s) with
    | Some (ExitNonzero stderr left_behind) =>
        (Raise (RuntimeError ("Error updating commit metadata: " +:+ stderr)),
         logged (LogEntry "ERROR" ("Error updating commit metadata: " +:+ stderr) ERROR)
           (with_repo left_behind
              (with_tool_runs (tail (tool_runs s))
                 (logged (LogEntry "INFO" ("Running command: cd " +:+ repo_path s
                     +:+ " && git filter-branch -f --env-filter '...' -- --all") INFO) s))))
    | _ => (Ok tt, identity_rewritten new_author new_email s)
    end.
Proof.
  intros H. unfold identity_phase. rewrite H.
  unfold bind at 1. cbn [gets]. unfold bind at 1. unfold log_event at 1, modify at 1.
  unfold bind at 1. unfold git_filter_branch.
  cbn [tool_runs logged with_logs set_logs state_logging logs st_logs].
  destruct (head (tool_runs s)) as [[|stderr left_behind]|]; reflexivity.
Qed.

Lemma author_filter_sets new_author new_email sha e :
  GIT_AUTHOR_NAME (author_filter new_author new_email sha e) = new_author
  /\ GIT_AUTHOR_EMAIL (author_filter new_author new_email sha e) = new_email.
Proof.
  unfold author_filter.
  destruct (String.eqb (GIT_AUTHOR_NAME e) new_author) eqn:En;
  destruct (String.eqb (GIT_AUTHOR_EMAIL e) new_email) eqn:Ee; cbn; try (split; reflexivity).
  apply String.eqb_eq in En, Ee. split; assumption.
Qed.

Lemma change_dates_keeps_author lines sha e :
  GIT_AUTHOR_NAME (change_dates lines sha e) = GIT_AUTHOR_NAME e
  /\ GIT_AUTHOR_EMAIL (change_dates lines sha e) = GIT_AUTHOR_EMAIL e.
Proof.
  induction lines as [|[k d] rest IH]; cbn; [split; reflexivity|].
  destruct (starts_with k sha); [split; reflexivity|exact IH].
Qed.

Lemma rewritten_author f c :
  author_name (rewrite_commit hexsha f c) = GIT_AUTHOR_NAME (f (hexsha c) (commit_env_of c))
  /\ author_email (rewrite_commit hexsha f c)
     = GIT_AUTHOR_EMAIL (f (hexsha c) (commit_env_of c)).
Proof. destruct c; split; reflexivity. Qed.

(** What a successful [update_commit_metadata] did to the refs: one or two
    passes of the tool over all of them. *)
Lemma update_commit_metadata_ok new_author new_email new_dates (s s' : state) b :
  truthy new_author && truthy new_email = true ->
  update_commit_metadata hexsha new_author new_email new_dates s = (Ok b, s') ->
  st_repo s' = filter_branch_all hexsha (author_filter new_author new_email) (st_repo s)
  \/ exists lines,
       st_repo s' = filter_branch_all hexsha (change_dates lines)
                      (filter_branch_all hexsha (author_filter new_author new_email)
                                         (st_repo s)).
Proof.
  intros Ht. rewrite update_commit_metadata_phases. unfold try_except, bind at 1.
  rewrite (identity_phase_run _ _ _ Ht).
  destruct (head (tool_runs s)) as [[|stderr left_behind]|] eqn:Hrun.
  2: { cbn. discriminate. }
  all: set (s1 := identity_rewritten new_author new_email s);
    assert (Hs1 : st_repo s1 = filter_branch_all hexsha
                                 (author_filter new_author new_email) (st_repo s))
      by reflexivity.
  all: destruct new_dates as [[|d ds]|]; try (cbn; intros [= <- <-]; left; exact Hs1).
  all: unfold bind at 1;
    destruct (Nat.eq_dec (length (iter_commits (st_repo s1))) (length (d :: ds))) as [Hlen|Hlen];
    [ rewrite (update_commit_dates_run _ _ Hlen);
      destruct (head (tool_runs s1)) as [[|stderr' left']|]; cbn; try discriminate;
      intros [= <- <-]; right; eexists; cbn; rewrite <- Hs1; reflexivity
    | rewrite (update_commit_dates_mismatch _ _ Hlen); cbn; discriminate ].
Qed.

Lemma commitwise_authored (phi : commit -> commit) (name email : string) tip :
  commitwise phi ->
  (forall c, author_name (phi c) = name /\ author_email (phi c) = email) ->
  Forall (fun c => author_name c = name /\ author_email c = email) (rev_list (phi tip)).
Proof.
  intros Hphi Hauth. apply Forall_forall. intros x Hx.
  apply Hphi in Hx as (y & _ & ->). apply Hauth.
Qed.

(** With an identity rewrite asked for, the check comes after it. *)
Lemma count_mismatch_after_identity (s : state) new_author new_email
    (new_dates : list datetime) :
  truthy new_author && truthy new_email = true ->
  match head (tool_runs s) with Some (ExitNonzero _ _) => False | _ => True end ->
  new_dates <> [] ->
  let s1 := identity_rewritten new_author new_email s in
  length (iter_commits (st_repo s1)) <> length new_dates ->
  exists s',
    update_commit_metadata hexsha new_author new_email (Some new_dates) s
    = (Raise (ValueError (mismatch_message (length (iter_commits (st_repo s1)))
                                           (length new_dates))), s')
    /\ st_repo s' = filter_branch_all hexsha (author_filter new_author new_email) (st_repo s)
    /\ git_dir s' = git_dir s.
Proof.
  intros Hrun Htool Hcons s1 Hne.
  rewrite update_commit_metadata_phases. unfold try_except, bind at 1.
  rewrite (identity_phase_run _ _ _ Hrun).
  destruct (head (tool_runs s)) as [[|stderr left_behind]|]; [|destruct Htool|];
    fold s1; (destruct new_dates as [|d ds]; [congruence|]);
    unfold bind at 1; rewrite (update_commit_dates_mismatch _ _ Hne);
    (eexists; split; [reflexivity|]; split; reflexivity).
Qed.


(** X2.  What the date rewrite leaves under [.git] when the counts agree
    and neither scratch file was there before: nothing of its own when the
    tool succeeds, both scratch files when the tool fails. *)
Lemma scratch_files_after_date_rewrite (s : state) (new_dates : list datetime) :
  length (iter_commits (st_repo s)) = length new_dates ->
  git_dir s !! ".git/date_map.txt" = None ->
  git_dir s !! ".git/change_dates.sh" = None ->
  let s' := snd (_update_commit_dates hexsha new_dates s) in
  match head (tool_runs s) with
  | Some (ExitNonzero _ _) =>
      is_Some (git_dir s' !! ".git/date_map.txt")
      /\ git_dir s' !! ".git/change_dates.sh" = Some FilterScript
  | _ => git_dir s' = git_dir s
  end.
Proof.
  intros Hlen H1 H2 s'. unfold s'. rewrite (update_commit_dates_run _ _ Hlen).
  assert (Hback : forall lines,
    delete ".git/change_dates.sh"
      (delete ".git/date_map.txt"
         (<[".git/change_dates.sh" := FilterScript]>
            (<[".git/date_map.txt" := DateMapFile lines]> (git_dir s)))) = git_dir s).
  { intros lines. apply map_eq. intros k.
    rewrite !lookup_delete, !lookup_insert.
    repeat case_decide; subst; congruence. }
  destruct (head (tool_runs s)) as [[|stderr left_behind]|]; cbn.
  - apply Hback.
  - split; [rewrite lookup_insert_ne by discriminate; rewrite lookup_insert_eq;
            eexists; reflexivity|].
    apply lookup_insert_eq.
  - apply Hback.
Qed.
End Rewriter.

(** ** A small program logic for methods *)

(** From a state satisfying [P], [m] ends in a state satisfying [Q a] when
    it returns [a] and [X e] when it raises [e]. *)
Definition triple {S A} (P : S -> Prop) (m : M S A)
    (Q : A -> S -> Prop) (X : exn -> S -> Prop) : Prop :=
  forall s, P s -> match m s with
                   | (Ok a, s') => Q a s'
                   | (Raise e, s') => X e s'
                   end.

Lemma triple_ret {S A} (P : S -> Prop) (a : A) X : triple P (ret a) (fun _ => P) X.
Proof. intros s Hs. exact Hs. Qed.

Lemma triple_raise {S A} (P : S -> Prop) e (Q : A -> S -> Prop) :
  triple P (raise e) Q (fun _ => P).
Proof. intros s Hs. exact Hs. Qed.

Lemma triple_bind {S A B} (P : S -> Prop) (m : M S A) (k : A -> M S B) R Q X :
  triple P m R X -> (forall a, triple (R a) (k a) Q X) -> triple P (bind m k) Q X.
Proof.
  intros Hm Hk s Hs. unfold bind. specialize (Hm s Hs).
  destruct (m s) as [[a|e] s']; [apply Hk, Hm|exact Hm].
Qed.

Lemma triple_try_except {S A} (P : S -> Prop) (m : M S A) h Q X R :
  triple P m Q R -> (forall e, triple (R e) (h e) Q X) -> triple P (try_except m h) Q X.
Proof.
  intros Hm Hh s Hs. unfold try_except. specialize (Hm s Hs).
  destruct (m s) as [[a|e] s']; [exact Hm|apply Hh, Hm].
Qed.

Lemma triple_weaken {S A} (P P' : S -> Prop) (m : M S A) (Q Q' : A -> S -> Prop) (X X' : exn -> S -> Prop) :
  triple P' m Q' X' -> (forall s, P s -> P' s) ->
  (forall a s, Q' a s -> Q a s) -> (forall e s, X' e s -> X e s) ->
  triple P m Q X.
Proof.
  intros Hm HP HQ HX s Hs. specialize (Hm s (HP s Hs)).
  destruct (m s) as [[a|e] s']; auto.
Qed.

(** [m] runs within [I]: it keeps [I], whether it returns or raises. *)
Definition within {S A} (I : S -> Prop) (m : M S A) : Prop :=
  triple I m (fun _ => I) (fun _ => I).

Lemma within_ret {S A} (I : S -> Prop) (a : A) : within I (ret a).
Proof. apply triple_ret. Qed.

Lemma within_raise {S A} (I : S -> Prop) e : within I (@raise S A e).
Proof. apply triple_raise. Qed.

Lemma within_bind {S A B} (I : S -> Prop) (m : M S A) (k : A -> M S B) :
  within I m -> (forall a, within I (k a)) -> within I (bind m k).
Proof. intros Hm Hk. apply (triple_bind I m k (fun _ => I)); assumption. Qed.

Lemma within_try_except {S A} (I : S -> Prop) (m : M S A) h :
  within I m -> (forall e, within I (h e)) -> within I (try_except m h).
Proof. intros Hm Hh. apply (triple_try_except I m h _ _ (fun _ => I)); assumption. Qed.

Lemma within_modify {S} (I : S -> Prop) (f : S -> S) :
  (forall s, I s -> I (f s)) -> within I (modify f).
Proof. intros Hf s Hs. apply Hf, Hs. Qed.

Lemma within_gets {S A} (I : S -> Prop) (f : S -> A) : within I (gets f).
Proof. intros s Hs. exact Hs. Qed.

Lemma within_zoom {S T A} (I : S -> Prop) (view : S -> T) (update : T -> S -> S)
    (m : M T A) :
  (forall t s, I s -> I (update t s)) -> within I (zoom view update m).
Proof.
  intros Hu s Hs. unfold zoom. destruct (m (view s)) as [[a|e] t]; apply Hu, Hs.
Qed.

Lemma within_log_event {S} `{Logging S} (I : S -> Prop) ty msg lvl :
  (forall l s, I s -> I (set_logs l s)) -> within I (log_event ty msg lvl).
Proof. intros Hl. apply within_modify. intros s Hs. apply Hl, Hs. Qed.


Lemma triple_try_finally {S A} (P : S -> Prop) (m : M S A) (f : M S unit)
    Qm Xm (Q : A -> S -> Prop) (X : exn -> S -> Prop) :
  triple P m Qm Xm ->
  (forall a, triple (Qm a) f (fun _ => Q a) X) ->
  (forall e, triple (Xm e) f (fun _ => X e) X) ->
  triple P (try_finally m f) Q X.
Proof.
  intros Hm Hok Hex s Hs. unfold try_finally. specialize (Hm s Hs).
  destruct (m s) as [[a|e] s'].
  - specialize (Hok a s' Hm). destruct (f s') as [[[]|e'] s'']; exact Hok.
  - specialize (Hex e s' Hm). destruct (f s') as [[[]|e'] s'']; exact Hex.
Qed.

(** A step that cannot raise. *)
Lemma triple_modify {S} (P Q : S -> Prop) (f : S -> S) X :
  (forall s, P s -> Q (f s)) -> triple P (modify f) (fun _ => Q) X.
Proof. intros Hf s Hs. apply Hf, Hs. Qed.

(** ** The batch: [process_batch] *)
Section BatchProofs.
Import Batch.
Variable E : Type.
Variable clone_from : string -> string -> M E unit.
Variable fetch_repo_info : M E unit.
Variable open_branch_manager : string -> M E unit.
Variable rewrite_history :
  string -> string -> bool -> option datetime -> option datetime -> M E bool.
Variable rename_branches : list (string * string) -> M E bool.
Variable clean_sensitive_data : list string -> string -> M E bool.
Variable setup_remote_and_push :
  option string -> option string -> option string -> M E bool.
Variable format_template : string -> string -> nat -> result string.
Variable rmtree_error : string -> E -> option string.

Abbreviation world := (world E).
Abbreviation item_steps :=
  (item_steps E clone_from fetch_repo_info open_branch_manager rewrite_history
              rename_branches clean_sensitive_data setup_remote_and_push format_template).
Abbreviation cleanup := (cleanup E rmtree_error).
Abbreviation process_item :=
  (process_item E clone_from fetch_repo_info open_branch_manager rewrite_history
                rename_branches clean_sensitive_data setup_remote_and_push
                format_template rmtree_error).
Abbreviation process_batch :=
  (process_batch E clone_from fetch_repo_info open_branch_manager rewrite_history
                 rename_branches clean_sensitive_data setup_remote_and_push
                 format_template rmtree_error).

(** What the steps of an item leave alone: the results gathered so far, the
    count of cleanups, and the locator, flag and error of the item's own
    result. *)
Record item_frame (n : nat) (rs : list batch_result) (url : string)
    (ok : bool) (err : option string) (w : world) : Prop := ItemFrame {
  frame_calls : cleanup_calls E w = n;
  frame_results : batch_results E w = rs;
  frame_url : repo_url (item_result E w) = url;
  frame_success : success (item_result E w) = ok;
  frame_error : error (item_result E w) = err
}.

(** Before the working copy is acquired. *)
Definition starting (T : gset string) n rs url (w : world) : Prop :=
  item_frame n rs url false None w /\ tmp_dirs E w = T.

(** The working copy [d] is acquired: it exists and the handler owns it. *)
Definition holding (T : gset string) (d : string) n rs url ok err (w : world) : Prop :=
  item_frame n rs url ok err w
  /\ tmp_dirs E w = {[d]} ∪ T
  /\ repo_handler E w = Some (RepositoryHandler (Some d)).

Lemma within_holding_log T d n rs url ok err ty msg lvl :
  within (holding T d n rs url ok err) (log_event ty msg lvl).
Proof.
  apply within_modify. intros w [[] [? ?]]. split; [constructor|split]; assumption.
Qed.

Lemma within_holding_external {A} T d n rs url ok err (m : M E A) :
  within (holding T d n rs url ok err) (external E m).
Proof.
  apply within_zoom. intros t w [[] [? ?]]. split; [constructor|split]; assumption.
Qed.

Lemma within_holding_completed T d n rs url ok err name :
  within (holding T d n rs url ok err) (completed E name).
Proof.
  apply within_modify. intros w [[] [? ?]]. split; [constructor|split]; assumption.
Qed.

Lemma within_holding_repo_path T d n rs url ok err p :
  within (holding T d n rs url ok err) (modify (with_repo_path E p)).
Proof.
  apply within_modify. intros w [[] [? ?]]. split; [constructor|split]; assumption.
Qed.

Lemma within_result {S A} (I : S -> Prop) (r : result A) : within I (fun w => (r, w)).
Proof. intros s Hs. destruct r; exact Hs. Qed.

Ltac holding :=
  repeat first
    [ match goal with
      | |- triple ?I ?m (fun _ => ?I) (fun _ => ?I) => change (within I m)
      end
    | apply within_ret | apply within_raise | apply within_gets
    | apply within_holding_log | apply within_holding_external
    | apply within_holding_completed | apply within_holding_repo_path
    | apply within_result
    | apply within_bind; [|intros ?]
    | apply within_try_except; [|intros ?]
    | match goal with
      | |- within _ (match ?x with _ => _ end) => destruct x
      end ].

Lemma remove_added (T : gset string) (d : string) :
  d ∉ T -> ({[d]} ∪ T) ∖ {[d]} = T.
Proof.
  intros Hd. apply set_eq. intros x.
  rewrite elem_of_difference, elem_of_union, elem_of_singleton.
  split; [intros [[->|Hx] Hn]; [congruence|exact Hx]|].
  intros Hx. split; [right; exact Hx|]. intros ->. contradiction.
Qed.

(** The name [mkdtemp] picks when the directories [T] exist. *)
Definition new_dir (T : gset string) : string := fresh ({[EmptyString]} ∪ T).

Lemma new_dir_fresh T : (new_dir T ∉ T) /\ new_dir T <> EmptyString.
Proof.
  pose proof (is_fresh ({[EmptyString]} ∪ T)) as H. fold (new_dir T) in H.
  split; [set_solver|]. intros Heq. apply H. rewrite Heq. set_solver+.
Qed.

Lemma initialize_acquires T n rs url u :
  triple (starting T n rs url)
         (initialize E clone_from fetch_repo_info open_branch_manager u None)
         (fun _ => holding T (new_dir T) n rs url false None)
         (fun _ => holding T (new_dir T) n rs url false None).
Proof.
  unfold initialize.
  apply (triple_try_except _ _ _ _ _ (fun _ => holding T (new_dir T) n rs url false None));
    [|intros e; holding].
  apply (triple_bind _ _ _ (fun _ => starting T n rs url)).
  { apply triple_modify. intros w [[] Ht]. split; [constructor|]; assumption. }
  intros _.
  apply (triple_bind _ _ _ (fun _ => holding T (new_dir T) n rs url false None));
    [|intros path; holding].
  unfold clone_repo.
  apply (triple_try_except _ _ _ _ _ (fun _ => holding T (new_dir T) n rs url false None));
    [|intros e; holding].
  apply (triple_bind _ _ _ (fun _ => holding T (new_dir T) n rs url false None));
    [|intros d; holding].
  intros w [Hf Ht]. destruct Hf as [H1 H2 H3 H4 H5]. unfold mkdtemp. cbn. rewrite Ht.
  split; [constructor; assumption|]. split; reflexivity.
Qed.

Lemma item_steps_outcome T n rs url i k ops :
  triple (starting T n rs url)
         (item_steps i k url ops)
         (fun _ => holding T (new_dir T) n rs url true None)
         (fun _ => holding T (new_dir T) n rs url false None).
Proof.
  unfold Batch.item_steps.
  apply (triple_bind _ _ _ (fun _ => starting T n rs url)).
  { apply triple_modify. intros w [[] Ht]. split; [constructor|]; assumption. }
  intros _.
  apply (triple_bind _ _ _ (fun _ => holding T (new_dir T) n rs url false None));
    [apply initialize_acquires|]. intros _. cbv zeta.
  apply (triple_bind _ _ _ (fun _ => holding T (new_dir T) n rs url false None));
    [holding|]. intros _.
  apply (triple_bind _ _ _ (fun _ => holding T (new_dir T) n rs url false None));
    [holding|]. intros _.
  apply (triple_bind _ _ _ (fun _ => holding T (new_dir T) n rs url false None));
    [holding|]. intros _.
  apply (triple_bind _ _ _ (fun _ => holding T (new_dir T) n rs url false None));
    [holding|]. intros name.
  apply (triple_bind _ _ _ (fun _ => holding T (new_dir T) n rs url false None));
    [holding|]. intros _.
  apply (triple_bind _ _ _ (fun _ => holding T (new_dir T) n rs url true None)).
  { apply triple_modify. intros w [[H1 H2 H3 H4 H5] [? ?]].
    split; [constructor; cbn; auto|split; assumption]. }
  intros _. apply triple_modify. intros w [[] [? ?]]. split; [constructor|split]; assumption.
Qed.

(** [shutil.rmtree] never fails. *)
Definition rmtree_succeeds : Prop := forall d e, rmtree_error d e = None.

(** After [cleanup]: one more call counted, and the working copy gone when
    [rmtree] did not fail. *)
Definition released (T : gset string) n rs url ok err (w : world) : Prop :=
  item_frame (S n) rs url ok err w
  /\ (rmtree_succeeds -> tmp_dirs E w = T).

Lemma cleanup_releases T d n rs url ok err X :
  d ∉ T -> d <> EmptyString ->
  triple (holding T d n rs url ok err) cleanup
         (fun _ => released T n rs url ok err) X.
Proof.
  intros Hd Hne w [[H1 H2 H3 H4 H5] [Ht Hh]].
  assert (Htr : truthy d = true) by (destruct d; [congruence|reflexivity]).
  unfold Batch.cleanup, try_except, bind, modify, gets. cbn. rewrite Hh. cbn.
  unfold handler_cleanup, bind, get. cbn. rewrite Htr, Ht.
  rewrite bool_decide_eq_true_2
    by (apply elem_of_union_l, elem_of_singleton; reflexivity). cbn.
  unfold shutil_rmtree. cbn.
  destruct (rmtree_error d (ext E w)) as [msg|] eqn:Herr; cbn.
  - split; [constructor; cbn; auto|]. intros Hok. rewrite Hok in Herr. discriminate.
  - split; [constructor; cbn; auto|]. intros _. rewrite Ht. apply remove_added, Hd.
Qed.

(** An entry of the result list tells a success, or a failure with its
    diagnostic. *)
Definition accounted (url : string) (r : batch_result) : Prop :=
  repo_url r = url
  /\ (success r = true /\ error r = None
      \/ success r = false /\ exists msg, error r = Some msg).

(** Between two items. *)
Definition between (T : gset string) (n : nat) (rs : list batch_result)
    (w : world) : Prop :=
  cleanup_calls E w = n /\ batch_results E w = rs
  /\ (rmtree_succeeds -> tmp_dirs E w = T).

Lemma process_item_from T' k ops i url n rs :
  triple (fun w => cleanup_calls E w = n /\ batch_results E w = rs /\ tmp_dirs E w = T')
         (process_item k ops (i, url))
         (fun _ w => exists r, cleanup_calls E w = S n /\ batch_results E w = rs ++ [r]
                               /\ (rmtree_succeeds -> tmp_dirs E w = T')
                               /\ accounted url r)
         (fun _ _ => False).
Proof.
  destruct (new_dir_fresh T') as [Hfresh Hne].
  unfold Batch.process_item.
  apply (triple_bind _ _ _ (fun _ => starting T' n rs url)).
  { apply triple_modify. intros w (Hn & Hrs & Ht). split; [constructor; cbn; auto|exact Ht]. }
  intros _.
  apply (triple_try_finally _ _ _
           (fun _ w' => exists ok err, holding T' (new_dir T') n rs url ok err w'
                        /\ (ok = true /\ err = None
                            \/ ok = false /\ exists msg, err = Some msg))
           (fun _ _ => False)).
  - apply (triple_try_except _ _ _ _ _
             (fun _ => holding T' (new_dir T') n rs url false None)).
    + apply (triple_weaken _ (starting T' n rs url) _ _
                (fun _ => holding T' (new_dir T') n rs url true None) _
                (fun _ => holding T' (new_dir T') n rs url false None));
        [apply item_steps_outcome|auto| |auto].
      intros _ w' H. exists true, None. split; [exact H|left; split; reflexivity].
    + intros e.
      apply (triple_bind _ _ _
               (fun _ => holding T' (new_dir T') n rs url false (Some (str e)))).
      * apply triple_modify. intros w' [[H1 H2 H3 H4 H5] [? ?]].
        split; [constructor; cbn; auto|split; assumption].
      * intros _. apply triple_modify. intros w' [[H1 H2 H3 H4 H5] [? ?]].
        exists false, (Some (str e)).
        split; [split; [constructor; cbn; auto|split; assumption]|].
        right. split; [reflexivity|eexists; reflexivity].
  - intros _.
    apply (triple_bind _ _ _
             (fun _ w' => exists ok err, released T' n rs url ok err w'
                          /\ (ok = true /\ err = None
                              \/ ok = false /\ exists msg, err = Some msg))).
    + intros w' (ok & err & Hh & Hout).
      pose proof (cleanup_releases T' (new_dir T') n rs url ok err (fun _ _ => False)
                    Hfresh Hne w' Hh) as Hc.
      destruct (cleanup w') as [[[]|e] w'']; [|destruct Hc].
      exists ok, err. split; assumption.
    + intros _. apply triple_modify.
      intros w' (ok & err & [[H1 H2 H3 H4 H5] Hrel] & Hout).
      exists (item_result E w'). split; [exact H1|].
      split; [cbn; rewrite H2; reflexivity|]. split; [exact Hrel|].
      split; [exact H3|]. rewrite H4, H5. exact Hout.
  - intros e w' [].
Qed.

Lemma process_item_accounts T k ops i url n rs :
  triple (between T n rs) (process_item k ops (i, url))
         (fun _ w => exists r, between T (S n) (rs ++ [r]) w /\ accounted url r)
         (fun _ _ => False).
Proof.
  intros w (Hn & Hrs & Ht).
  pose proof (process_item_from (tmp_dirs E w) k ops i url n rs w
                (conj Hn (conj Hrs eq_refl))) as H.
  destruct (process_item k ops (i, url) w) as [[[]|e] w']; [|exact H].
  destruct H as (r & H1 & H2 & H3 & H4). exists r. split; [|exact H4].
  split; [exact H1|]. split; [exact H2|]. intros Hok. rewrite (H3 Hok). apply Ht, Hok.
Qed.

Lemma for_each_items_accounted T k ops (items : list (nat * string)) n rs :
  triple (between T n rs) (for_each items (process_item k ops))
         (fun _ w => exists rs', between T (n + length items) (rs ++ rs') w
                                 /\ Forall2 accounted (map snd items) rs')
         (fun _ _ => False).
Proof.
  revert n rs. induction items as [|[i url] items IH]; intros n rs.
  - intros w H. cbn. exists []. rewrite Nat.add_0_r, app_nil_r. split; [exact H|constructor].
  - cbn [for_each].
    apply (triple_bind _ _ _
             (fun _ w => exists r, between T (S n) (rs ++ [r]) w /\ accounted url r));
      [apply process_item_accounts|].
    intros _ w (r & Hb & Hr). specialize (IH (S n) (rs ++ [r]) w Hb).
    destruct (for_each items (process_item k ops) w) as [[[]|e] w']; [|exact IH].
    destruct IH as (rs' & Hb' & Hall). exists (r :: rs'). split.
    + cbn [length]. rewrite <- Nat.add_succ_comm, <- app_assoc in *. exact Hb'.
    + constructor; assumption.
Qed.

(** C4.  Whatever the collaborators do or raise, [process_batch] returns:
    its result list has one entry per submitted locator, in order, each a
    success or a failure with its diagnostic; [cleanup] was entered once per
    item; and no working copy of the batch is left when [rmtree] does not
    fail. *)
Theorem process_batch_isolates_failures (repo_urls : list string) (ops : operations)
    (w : world) :
  exists results w',
    process_batch repo_urls ops w = (Ok results, w')
    /\ Forall2 accounted repo_urls results
    /\ cleanup_calls E w' = cleanup_calls E w + length repo_urls
    /\ (rmtree_succeeds -> tmp_dirs E w' = tmp_dirs E w).
Proof.
  unfold Batch.process_batch. unfold bind at 1. cbn [modify]. unfold bind at 1. cbn [modify].
  set (w0 := with_batch_results E [] (with_batch_mode E true w)).
  assert (H0 : between (tmp_dirs E w) (cleanup_calls E w) [] w0)
    by (split; [reflexivity|split; [reflexivity|intros _; reflexivity]]).
  pose proof (for_each_items_accounted (tmp_dirs E w) (length repo_urls) ops
                (enumerate repo_urls) _ _ w0 H0) as H.
  unfold bind at 1.
  destruct (for_each (enumerate repo_urls) (process_item (length repo_urls) ops) w0)
    as [[[]|e] w']; [|destruct H].
  destruct H as (rs' & (Hn & Hrs & Ht) & Hall). cbn in Hrs.
  exists rs', w'. unfold gets. rewrite Hrs. split; [reflexivity|].
  assert (Hlen : length (enumerate repo_urls) = length repo_urls).
  { unfold enumerate. rewrite length_zip_with, length_seq. lia. }
  split; [|split; [rewrite Hn, Hlen; reflexivity|exact Ht]].
  replace (map snd (enumerate repo_urls)) with repo_urls in Hall; [exact Hall|].
  unfold enumerate. symmetry. apply snd_zip. rewrite length_seq. lia.
Qed.
End BatchProofs.

(** ** Renaming branches: [rename_branches] *)
Section RenamingProofs.
Import Git BranchRemoteManager Renaming.

(** The name a branch has once the mapping is applied. *)
Definition renamed (mapping : list (string * string)) (name : string) : string :=
  match List.find (fun item => String.eqb (fst item) name) mapping with
  | Some item => snd item
  | None => name
  end.

(** An item [rename_branches] passes over: it names no change, an old name
    that is no branch, or a new name that is taken. *)
Definition passed_over (repo : repository) (item : string * string) : Prop :=
  fst item = snd item \/ fst item ∉ branches repo \/ snd item ∈ branches repo.

(** What one call of [rename_branch] does. *)
Lemma rename_branch_cases (s : state) (old_name new_name : string) :
  rename_branch old_name new_name s =
  if negb (str_in old_name (branches (st_repo s))) then
    (Ok false, logged (LogEntry "ERROR" ("Branch " +:+ old_name +:+ " does not exist") ERROR) s)
  else if str_in new_name (branches (st_repo s)) then
    (Ok false, logged (LogEntry "ERROR" ("Branch " +:+ new_name +:+ " already exists") ERROR) s)
  else
    match git_refuses s with
    | Some diagnostic =>
        (Raise (GitCommandError diagnostic),
         logged (LogEntry "ERROR" ("Failed to rename branch: " +:+ diagnostic) ERROR) s)
    | None =>
        (Ok true,
         logged (LogEntry "INFO" ("Renamed branch from " +:+ old_name
                                  +:+ " to " +:+ new_name) INFO)
           (with_repo (move_branch old_name new_name (st_repo s)) s))
    end.
Proof.
  unfold rename_branch, try_except. unfold bind at 1. cbn [gets].
  destruct (str_in old_name (branches (st_repo s))); cbn [negb]; [|reflexivity].
  unfold bind at 1. cbn [gets].
  destruct (str_in new_name (branches (st_repo s))); [reflexivity|].
  unfold bind at 1. unfold git_branch_m.
  destruct (git_refuses s); reflexivity.
Qed.

Lemma move_branch_tips old_name new_name repo :
  map snd (refs (move_branch old_name new_name repo)) = map snd (refs repo).
Proof.
  unfold move_branch. cbn [refs]. rewrite map_map. apply map_ext.
  intros r. destruct (String.eqb (fst r) old_name); reflexivity.
Qed.

Lemma move_branch_branches old_name new_name repo :
  branches (move_branch old_name new_name repo)
  = map (fun n => if String.eqb n old_name then new_name else n) (branches repo).
Proof.
  unfold branches, move_branch. cbn [refs]. rewrite !map_map. apply map_ext.
  intros r. destruct (String.eqb (fst r) old_name); reflexivity.
Qed.

Lemma move_branch_NoDup old_name new_name repo :
  new_name ∉ branches repo -> NoDup (branches repo) ->
  NoDup (branches (move_branch old_name new_name repo)).
Proof.
  intros Hnew Hnd. rewrite move_branch_branches.
  apply (NoDup_fmap_2_strong (fun n => if String.eqb n old_name then new_name else n));
    [|exact Hnd].
  intros x y Hx Hy.
  destruct (String.eqb x old_name) eqn:Ex, (String.eqb y old_name) eqn:Ey.
  - apply String.eqb_eq in Ex, Ey. congruence.
  - intros <-. contradiction.
  - intros ->. contradiction.
  - auto.
Qed.

(** What every call of [rename_branch] keeps: the tips in their places, the
    names distinct, the answer of git. *)
Definition kept (s s' : state) : Prop :=
  map snd (refs (st_repo s')) = map snd (refs (st_repo s))
  /\ (NoDup (branches (st_repo s)) -> NoDup (branches (st_repo s')))
  /\ git_refuses s' = git_refuses s.

Lemma kept_refl s : kept s s.
Proof. repeat split; auto. Qed.

Lemma kept_trans s1 s2 s3 : kept s1 s2 -> kept s2 s3 -> kept s1 s3.
Proof.
  intros (H1 & H2 & H3) (K1 & K2 & K3). repeat split; [congruence|auto|congruence].
Qed.

Lemma kept_logged entry s : kept s (logged entry s).
Proof. repeat split; auto. Qed.

Lemma rename_branch_kept (s : state) old_name new_name :
  kept s (snd (rename_branch old_name new_name s)).
Proof.
  rewrite rename_branch_cases.
  destruct (str_in old_name (branches (st_repo s))); cbn [negb]; [|apply kept_logged].
  destruct (str_in new_name (branches (st_repo s))) eqn:Hnew; [apply kept_logged|].
  destruct (git_refuses s) eqn:Hg; [apply kept_logged|].
  repeat split; cbn.
  - apply move_branch_tips.
  - apply move_branch_NoDup, str_in_false, Hnew.
Qed.

(** The loop of [rename_branches]. *)
Definition rename_each (mapping : list (string * string)) : M state unit :=
  for_each mapping
    (fun item =>
       let (old_name, new_name) := item in
       if negb (String.eqb old_name new_name) then
         rename_branch old_name new_name >> ret tt
       else ret tt).

Lemma rename_branches_loop mapping (s : state) :
  rename_branches mapping s =
  match rename_each mapping s with
  | (Ok _, s') => (Ok true, logged (LogEntry "INFO" "Branches renamed successfully" INFO) s')
  | (Raise e, s') =>
      (Raise e, logged (LogEntry "ERROR" ("Failed to rename branches: " +:+ str e) ERROR) s')
  end.
Proof.
  unfold rename_branches, try_except. unfold bind at 1. fold (rename_each mapping).
  destruct (rename_each mapping s) as [[[]|e] s']; reflexivity.
Qed.

Lemma rename_each_cons old_name new_name rest (s : state) :
  rename_each ((old_name, new_name) :: rest) s =
  if String.eqb old_name new_name then rename_each rest s
  else match rename_branch old_name new_name s with
       | (Ok _, s') => rename_each rest s'
       | (Raise e, s') => (Raise e, s')
       end.
Proof.
  unfold rename_each at 1. cbn [for_each]. fold (rename_each rest). unfold bind at 1.
  destruct (String.eqb old_name new_name); cbn [negb]; [reflexivity|].
  unfold bind at 1.
  destruct (rename_branch old_name new_name s) as [[b|e] s']; reflexivity.
Qed.

Lemma rename_each_kept mapping (s : state) : kept s (snd (rename_each mapping s)).
Proof.
  revert s. induction mapping as [|[old_name new_name] rest IH]; intros s; [apply kept_refl|].
  rewrite rename_each_cons. destruct (String.eqb old_name new_name); [apply IH|].
  pose proof (rename_branch_kept s old_name new_name) as H.
  destruct (rename_branch old_name new_name s) as [[b|e] s']; cbn [snd] in *; [|exact H].
  eapply kept_trans; [exact H|apply IH].
Qed.


Lemma rename_each_passed_over mapping (s : state) :
  Forall (passed_over (st_repo s)) mapping ->
  exists s', rename_each mapping s = (Ok tt, s') /\ st_repo s' = st_repo s.
Proof.
  revert s. induction mapping as [|[old_name new_name] rest IH]; intros s Hall.
  - eexists. split; reflexivity.
  - apply Forall_cons in Hall as [Hp Hrest]. rewrite rename_each_cons.
    destruct (String.eqb old_name new_name) eqn:E; [apply IH, Hrest|].
    rewrite rename_branch_cases.
    destruct (str_in old_name (branches (st_repo s))) eqn:Hold; cbn [negb].
    + destruct (str_in new_name (branches (st_repo s))) eqn:Hnew.
      * exact (IH (logged _ s) Hrest).
      * exfalso. destruct Hp as [Hp|[Hp|Hp]]; cbn in Hp.
        -- apply String.eqb_neq in E. contradiction.
        -- apply str_in_spec in Hold. contradiction.
        -- apply str_in_false in Hnew. contradiction.
    + exact (IH (logged _ s) Hrest).
Qed.

Lemma rename_each_total mapping (s : state) :
  git_refuses s = None -> exists s', rename_each mapping s = (Ok tt, s').
Proof.
  revert s. induction mapping as [|[old_name new_name] rest IH]; intros s Hg.
  - eexists. reflexivity.
  - rewrite rename_each_cons. destruct (String.eqb old_name new_name); [apply IH, Hg|].
    rewrite rename_branch_cases.
    destruct (negb (str_in old_name (branches (st_repo s)))); [apply IH; exact Hg|].
    destruct (str_in new_name (branches (st_repo s))); [apply IH; exact Hg|].
    rewrite Hg. apply IH. exact Hg.
Qed.

(** X4.  [rename_branches] does not report the renames that were not made.  When
    every item of the mapping is passed over (no change asked, old name
    missing, new name taken), it returns [True] and the repository is as it
    was; and as long as git refuses no command it returns [True] whatever
    the mapping. *)
Theorem rename_branches_reports_success (mapping : list (string * string)) (s : state) :
  (Forall (passed_over (st_repo s)) mapping ->
   exists s', rename_branches mapping s = (Ok true, s') /\ st_repo s' = st_repo s)
  /\ (git_refuses s = None -> exists s', rename_branches mapping s = (Ok true, s')).
Proof.
  split.
  - intros Hall. destruct (rename_each_passed_over mapping s Hall) as (s1 & E & Hrepo).
    rewrite rename_branches_loop, E. eexists. split; [reflexivity|exact Hrepo].
  - intros Hg. destruct (rename_each_total mapping s Hg) as (s1 & E).
    rewrite rename_branches_loop, E. eexists. reflexivity.
Qed.

Lemma renamed_cons old_name new_name rest name :
  renamed ((old_name, new_name) :: rest) name
  = if String.eqb old_name name then new_name else renamed rest name.
Proof. unfold renamed. cbn. destruct (String.eqb old_name name); reflexivity. Qed.

Lemma renamed_not_key mapping name :
  name ∉ map fst mapping -> renamed mapping name = name.
Proof.
  induction mapping as [|[o n] rest IH]; [reflexivity|]. cbn [map fst].
  intros H. apply not_elem_of_cons in H as [Hne Hrest]. rewrite renamed_cons.
  destruct (String.eqb o name) eqn:E; [apply String.eqb_eq in E; congruence|apply IH, Hrest].
Qed.

Lemma rename_each_renames mapping (s : state) :
  git_refuses s = None ->
  NoDup (map snd mapping) ->
  (forall n, n ∈ map snd mapping -> (n ∉ branches (st_repo s)) /\ (n ∉ map fst mapping)) ->
  exists s',
    rename_each mapping s = (Ok tt, s')
    /\ refs (st_repo s') = map (fun r => (renamed mapping (fst r), snd r)) (refs (st_repo s)).
Proof.
  revert s. induction mapping as [|[o n] rest IH]; intros s Hg Hnd Hfresh.
  - eexists. split; [reflexivity|]. cbn. rewrite <- (map_id (refs (st_repo s))) at 1.
    apply map_ext. intros [a b]. reflexivity.
  - cbn [map snd fst] in Hnd, Hfresh. apply NoDup_cons in Hnd as [Hn Hnd].
    destruct (Hfresh n) as [HnB HnK]; [left|].
    apply not_elem_of_cons in HnK as [Hno HnK].
    assert (Hrest : forall s1, git_refuses s1 = None ->
              (forall x, x ∈ branches (st_repo s1) -> x ∈ branches (st_repo s) \/ x = n) ->
              forall m, m ∈ map snd rest ->
                (m ∉ branches (st_repo s1)) /\ (m ∉ map fst rest)).
    { intros s1 _ Hsub m Hm. destruct (Hfresh m) as [HmB HmK]; [right; exact Hm|].
      apply not_elem_of_cons in HmK as [_ HmK]. split; [|exact HmK].
      intros Hin. apply Hsub in Hin as [Hin| ->]; contradiction. }
    rewrite rename_each_cons.
    destruct (String.eqb o n) eqn:E; [apply String.eqb_eq in E; congruence|].
    rewrite rename_branch_cases.
    apply str_in_false in HnB. rewrite HnB, Hg.
    destruct (str_in o (branches (st_repo s))) eqn:Ho; cbn [negb].
    + destruct (IH (logged (LogEntry "INFO" ("Renamed branch from " +:+ o +:+ " to " +:+ n) INFO)
                      (with_repo (move_branch o n (st_repo s)) s))) as (s' & Erun & Hrefs).
      * exact Hg.
      * exact Hnd.
      * apply Hrest; [exact Hg|]. intros x Hx.
        change (x ∈ branches (move_branch o n (st_repo s))) in Hx.
        rewrite move_branch_branches in Hx. apply list_elem_of_In, in_map_iff in Hx as (y & <- & Hy).
        destruct (String.eqb y o); [right; reflexivity|left; apply list_elem_of_In, Hy].
      * exists s'. split; [exact Erun|]. rewrite Hrefs. cbn. rewrite map_map.
        apply map_ext. intros [a b]. cbn [fst snd]. rewrite renamed_cons.
        rewrite (String.eqb_sym o a).
        destruct (String.eqb a o); cbn [fst snd]; [|reflexivity].
        rewrite (renamed_not_key rest n HnK). reflexivity.
    + destruct (IH (logged (LogEntry "ERROR" ("Branch " +:+ o +:+ " does not exist") ERROR) s))
        as (s' & Erun & Hrefs).
      * exact Hg.
      * exact Hnd.
      * apply Hrest; [exact Hg|]. cbn. auto.
      * exists s'. split; [exact Erun|]. rewrite Hrefs. cbn.
        apply map_ext_in. intros [a b] Hab. cbn [fst snd]. rewrite renamed_cons.
        destruct (String.eqb o a) eqn:Ea; [|reflexivity].
        apply String.eqb_eq in Ea. subst a. apply str_in_false in Ho.
        exfalso. apply Ho. unfold branches. apply list_elem_of_In, in_map_iff.
        exists (o, b). split; [reflexivity|exact Hab].
Qed.

End RenamingProofs.

(** ** Remotes and publishing *)
Section PublishingProofs.
Import Publishing.

(** The remotes once [git remote set-url] has run. *)
Definition url_set (remote_name new_url : string) (rs : list (string * string))
    : list (string * string) :=
  map (fun r => if String.eqb (fst r) remote_name then (remote_name, new_url) else r) rs.

Lemma url_set_names remote_name new_url rs :
  map fst (url_set remote_name new_url rs) = map fst rs.
Proof.
  unfold url_set. rewrite map_map. apply map_ext. intros r.
  destruct (String.eqb (fst r) remote_name) eqn:E; [|reflexivity].
  apply String.eqb_eq in E. symmetry. exact E.
Qed.

Lemma url_set_other remote_name new_url rs other :
  other <> remote_name ->
  remote_url_of other (url_set remote_name new_url rs) = remote_url_of other rs.
Proof.
  intros Hne. unfold remote_url_of, url_set. induction rs as [|r rs IH]; [reflexivity|].
  cbn [map List.find]. destruct (String.eqb (fst r) remote_name) eqn:E.
  - apply String.eqb_eq in E. cbn [fst].
    assert (E1 : String.eqb remote_name other = false) by (apply String.eqb_neq; congruence).
    assert (E2 : String.eqb (fst r) other = false) by (apply String.eqb_neq; congruence).
    rewrite E1, E2. exact IH.
  - destruct (String.eqb (fst r) other); [reflexivity|exact IH].
Qed.

Lemma url_set_named remote_name new_url rs :
  remote_name ∈ map fst rs ->
  remote_url_of remote_name (url_set remote_name new_url rs) = Some new_url.
Proof.
  unfold remote_url_of, url_set. induction rs as [|r rs IH]; [inversion 1|].
  cbn [map List.find]. intros H. destruct (String.eqb (fst r) remote_name) eqn:E.
  - cbn [fst]. rewrite String.eqb_refl. reflexivity.
  - rewrite E. apply IH. apply elem_of_cons in H as [H|H]; [|exact H].
    apply String.eqb_neq in E. congruence.
Qed.

Lemma url_set_twice remote_name new_url rs :
  url_set remote_name new_url (url_set remote_name new_url rs)
  = url_set remote_name new_url rs.
Proof.
  unfold url_set. rewrite map_map. apply map_ext. intros r.
  destruct (String.eqb (fst r) remote_name) eqn:E; cbn [fst]; [|rewrite E; reflexivity].
  rewrite String.eqb_refl. reflexivity.
Qed.

Lemma remote_added_other remote_name remote_url rs other :
  other <> remote_name ->
  remote_url_of other (rs ++ [(remote_name, remote_url)]) = remote_url_of other rs.
Proof.
  intros Hne. unfold remote_url_of. induction rs as [|r rs IH].
  - cbn. assert (E : String.eqb remote_name other = false) by (apply String.eqb_neq; congruence).
    rewrite E. reflexivity.
  - cbn [app List.find]. destruct (String.eqb (fst r) other); [reflexivity|exact IH].
Qed.

Lemma remote_added_named remote_name remote_url rs :
  remote_name ∉ map fst rs ->
  remote_url_of remote_name (rs ++ [(remote_name, remote_url)]) = Some remote_url.
Proof.
  unfold remote_url_of. induction rs as [|r rs IH]; intros H.
  - cbn. rewrite String.eqb_refl. reflexivity.
  - cbn [map] in H. apply not_elem_of_cons in H as [Hne H]. cbn [app List.find].
    assert (E : String.eqb (fst r) remote_name = false) by (apply String.eqb_neq; congruence).
    rewrite E. apply IH, H.
Qed.

(** What [set_remote_url] does, case by case. *)
Lemma set_remote_url_cases remote_name new_url (s : state) :
  set_remote_url remote_name new_url s =
  if negb (str_in remote_name (map fst (remotes s))) then
    (Ok false,
     logged (LogEntry "ERROR" ("Remote " +:+ remote_name +:+ " does not exist") ERROR) s)
  else
    match git_refuses s with
    | Some diagnostic =>
        (Raise (GitCommandError diagnostic),
         logged (LogEntry "ERROR" ("Failed to set remote URL: " +:+ diagnostic) ERROR) s)
    | None =>
        (Ok true,
         logged (LogEntry "INFO" ("Updated URL for remote " +:+ remote_name
                                  +:+ " to " +:+ new_url) INFO)
           (with_remotes (url_set remote_name new_url (remotes s)) s))
    end.
Proof.
  unfold set_remote_url, try_except. unfold bind at 1. cbn [gets].
  destruct (str_in remote_name (map fst (remotes s))); cbn [negb]; [|reflexivity].
  unfold bind at 1. unfold git_remote_set_url.
  destruct (git_refuses s); reflexivity.
Qed.

(** What [add_remote] does, case by case. *)
Lemma add_remote_cases remote_name remote_url (s : state) :
  add_remote remote_name remote_url s =
  match git_refuses s with
  | Some diagnostic =>
      if str_in remote_name (map fst (remotes s)) then
        (Raise (GitCommandError diagnostic),
         logged (LogEntry "ERROR" ("Failed to add remote: " +:+ diagnostic) ERROR)
           (logged (LogEntry "ERROR" ("Failed to set remote URL: " +:+ diagnostic) ERROR)
              (logged (LogEntry "WARNING" ("Remote " +:+ remote_name +:+ " already exists")
                                WARNING) s)))
      else
        (Raise (GitCommandError diagnostic),
         logged (LogEntry "ERROR" ("Failed to add remote: " +:+ diagnostic) ERROR) s)
  | None =>
      if str_in remote_name (map fst (remotes s)) then
        (Ok true,
         logged (LogEntry "INFO" ("Updated URL for remote " +:+ remote_name
                                  +:+ " to " +:+ remote_url) INFO)
           (with_remotes (url_set remote_name remote_url (remotes s))
              (logged (LogEntry "WARNING" ("Remote " +:+ remote_name +:+ " already exists")
                                WARNING) s)))
      else
        (Ok true,
         logged (LogEntry "INFO" ("Added remote " +:+ remote_name
                                  +:+ " with URL " +:+ remote_url) INFO)
           (with_remotes (remotes s ++ [(remote_name, remote_url)]) s))
  end.
Proof.
  unfold add_remote, try_except. unfold bind at 1. cbn [gets].
  destruct (str_in remote_name (map fst (remotes s))) eqn:Hin.
  - unfold bind at 1. unfold log_event at 1, modify at 1.
    rewrite set_remote_url_cases.
    cbn [remotes git_refuses logged set_logs logs state_logging with_logs].
    rewrite Hin. cbn [negb]. destruct (git_refuses s); reflexivity.
  - unfold bind at 1. unfold git_remote_add. destruct (git_refuses s); reflexivity.
Qed.

(** X6.  [set_remote_url] touches the named remote only, and only when there is
    one: the names of the remotes and the url of every other remote are as
    before; with no remote of that name it returns [False] and the remotes
    are as before. *)
Theorem set_remote_url_only_named (remote_name new_url : string) (s : state) :
  let s' := snd (set_remote_url remote_name new_url s) in
  map fst (remotes s') = map fst (remotes s)
  /\ (forall other, other <> remote_name ->
        remote_url_of other (remotes s') = remote_url_of other (remotes s))
  /\ (remote_name ∉ map fst (remotes s) ->
      fst (set_remote_url remote_name new_url s) = Ok false /\ remotes s' = remotes s)
  /\ (remote_name ∈ map fst (remotes s) -> git_refuses s = None ->
      fst (set_remote_url remote_name new_url s) = Ok true
      /\ remote_url_of remote_name (remotes s') = Some new_url).
Proof.
  intros s'. unfold s'. rewrite set_remote_url_cases.
  destruct (str_in remote_name (map fst (remotes s))) eqn:Hin; cbn [negb].
  - apply str_in_spec in Hin. destruct (git_refuses s) eqn:Hg; cbn.
    + repeat split; try reflexivity; try contradiction; discriminate.
    + split; [apply url_set_names|]. split; [intros other; apply url_set_other|].
      split; [contradiction|]. intros _ _. split; [reflexivity|apply url_set_named, Hin].
  - apply str_in_false in Hin. cbn. repeat split; try reflexivity; contradiction.
Qed.

Lemma add_remote_known remote_name remote_url (s : state) :
  git_refuses s = None -> remote_name ∈ map fst (remotes s) ->
  remotes (snd (add_remote remote_name remote_url s))
  = url_set remote_name remote_url (remotes s).
Proof.
  intros Hg Hin. apply str_in_spec in Hin. rewrite add_remote_cases, Hg, Hin. reflexivity.
Qed.

Lemma url_set_added remote_name remote_url rs :
  remote_name ∉ map fst rs ->
  url_set remote_name remote_url (rs ++ [(remote_name, remote_url)])
  = rs ++ [(remote_name, remote_url)].
Proof.
  intros Hin. unfold url_set. rewrite map_app. cbn [map fst]. rewrite String.eqb_refl.
  f_equal. rewrite <- (map_id rs) at 2. apply map_ext_in. intros r Hr.
  destruct (String.eqb (fst r) remote_name) eqn:E; [|reflexivity].
  apply String.eqb_eq in E. exfalso. apply Hin. apply list_elem_of_In, in_map_iff.
  exists r. split; [exact E|exact Hr].
Qed.

(** X7.  [add_remote] sets the url of the named remote, whether it existed or
    not: as long as git refuses nothing it returns [True], the remote has
    the url, every other remote is as before, and a second call with the
    same arguments changes no remote. *)
Theorem add_remote_sets_url (remote_name remote_url : string) (s : state) :
  git_refuses s = None ->
  exists s',
    add_remote remote_name remote_url s = (Ok true, s')
    /\ remote_url_of remote_name (remotes s') = Some remote_url
    /\ (forall other, other <> remote_name ->
          remote_url_of other (remotes s') = remote_url_of other (remotes s))
    /\ remotes (snd (add_remote remote_name remote_url s')) = remotes s'.
Proof.
  intros Hg. rewrite add_remote_cases, Hg.
  destruct (str_in remote_name (map fst (remotes s))) eqn:Hin.
  - apply str_in_spec in Hin. eexists. split; [reflexivity|].
    split; [apply url_set_named, Hin|]. split; [intros other; apply url_set_other|].
    rewrite add_remote_known; [apply url_set_twice|exact Hg|].
    change (remote_name ∈ map fst (url_set remote_name remote_url (remotes s))).
    rewrite url_set_names. exact Hin.
  - apply str_in_false in Hin. eexists. split; [reflexivity|].
    split; [apply remote_added_named, Hin|].
    split; [intros other; apply remote_added_other|].
    rewrite add_remote_known; [apply url_set_added, Hin|exact Hg|].
    change (remote_name ∈ map fst (remotes s ++ [(remote_name, remote_url)])).
    rewrite map_app. apply elem_of_app. right. left.
Qed.

Lemma open_branch_manager_cases (s : state) :
  open_branch_manager s =
  match opens s with
  | Some msg =>
      (Raise (Exception msg),
       logged (LogEntry "ERROR" ("Failed to open repository: " +:+ msg) ERROR) s)
  | None => (Ok tt, s)
  end.
Proof.
  unfold open_branch_manager, try_except. unfold bind at 1. cbn [gets].
  destruct (opens s); reflexivity.
Qed.

(** X8.  [configure_remote] never returns [False]: it returns [True], the remote
    then having the url, or it raises, the remotes then being as before.
    Its branch for a failed [add_remote] is never taken. *)
Theorem configure_remote_true_or_raises (remote_url remote_name : string) (s : state) :
  (exists s',
     configure_remote remote_url remote_name s = (Ok true, s')
     /\ opens s = None /\ git_refuses s = None
     /\ remote_url_of remote_name (remotes s') = Some remote_url)
  \/ (exists e s',
        configure_remote remote_url remote_name s = (Raise e, s')
        /\ remotes s' = remotes s
        /\ (opens s <> None \/ git_refuses s <> None)).
Proof.
  unfold configure_remote. cbv beta delta [try_except bind].
  rewrite open_branch_manager_cases.
  destruct (opens s) as [msg|] eqn:Ho.
  - right. eexists _, _. split; [reflexivity|]. split; [reflexivity|]. left. discriminate.
  - rewrite add_remote_cases.
    destruct (git_refuses s) as [d|] eqn:Hg.
    + right. destruct (str_in remote_name (map fst (remotes s)));
        (eexists _, _; split; [reflexivity|]; split; [reflexivity|]; right; discriminate).
    + left. destruct (str_in remote_name (map fst (remotes s))) eqn:Hin.
      * eexists. split; [reflexivity|]. repeat split.
        apply url_set_named, str_in_spec, Hin.
      * eexists. split; [reflexivity|]. repeat split.
        apply remote_added_named, str_in_false, Hin.
Qed.

(** The error flag of a [PushInfo] is bit 10 of its flags. *)
Lemma error_flag_bit (f : Z) :
  (Z.land f ERROR_FLAG =? 0)%Z = negb (Z.testbit f 10).
Proof.
  assert (H : Z.land f ERROR_FLAG = if Z.testbit f 10 then ERROR_FLAG else 0%Z).
  { apply Z.bits_inj'. intros n Hn. rewrite Z.land_spec.
    change ERROR_FLAG with (2 ^ 10)%Z. rewrite Z.pow2_bits_eqb by lia.
    destruct (Z.eqb_spec 10 n) as [<-|Hne].
    - rewrite andb_true_r. destruct (Z.testbit f 10) eqn:E.
      + rewrite Z.pow2_bits_eqb by lia. reflexivity.
      + rewrite Z.bits_0. reflexivity.
    - rewrite andb_false_r. destruct (Z.testbit f 10).
      + rewrite Z.pow2_bits_eqb by lia. symmetry. apply Z.eqb_neq. exact Hne.
      + rewrite Z.bits_0. reflexivity. }
  rewrite H. destruct (Z.testbit f 10); reflexivity.
Qed.

(** The push of one ref went through. *)
Definition accepted (i : push_info) : bool := negb (Z.testbit (flags i) 10).

Lemma check_push_cases infos (k : M state bool) (s : state) :
  check_push infos k s =
  match List.find (fun i => negb (accepted i)) infos with
  | Some i =>
      (Ok false, logged (LogEntry "ERROR" ("Failed to push changes: " +:+ summary i) ERROR) s)
  | None => k s
  end.
Proof.
  induction infos as [|i rest IH]; [reflexivity|]. cbn [check_push List.find].
  unfold accepted at 1. rewrite error_flag_bit.
  destruct (negb (Z.testbit (flags i) 10)); cbn [negb]; [exact IH|reflexivity].
Qed.

Lemma find_none_forallb {A} (f : A -> bool) l :
  forallb f l = match List.find (fun x => negb (f x)) l with Some _ => false | None => true end.
Proof.
  induction l as [|x l IH]; [reflexivity|]. cbn. destruct (f x); cbn; [exact IH|reflexivity].
Qed.

(** What [push_changes] answers for an outcome of the push. *)
Definition push_answer (o : push_outcome) : result bool :=
  match o with
  | Pushed infos => Ok (forallb accepted infos)
  | PushRaises (GitCommandError _) => Ok false
  | PushRaises e => Raise e
  end.

Lemma push_changes_run (remote_name : string) (force : bool) (s : state)
    (branch url : string) :
  opens s = None -> active_branch s = Some branch ->
  remote_url_of remote_name (remotes s) = Some url ->
  let refspec := branch +:+ ":" +:+ branch in
  fst (push_changes remote_name force s) = push_answer (push_to s url refspec force)
  /\ pushed (snd (push_changes remote_name force s)) = pushed s ++ [(url, refspec, force)]
  /\ remotes (snd (push_changes remote_name force s)) = remotes s
  /\ posted (snd (push_changes remote_name force s)) = posted s.
Proof.
  intros Ho Hb Hr refspec.
  unfold push_changes. cbv beta delta [try_except bind try_except_git gets remote_push].
  rewrite Ho. cbv beta iota delta [ret]. rewrite Hb. cbv beta iota delta [ret]. rewrite Hr.
  fold refspec.
  destruct (push_to s url refspec force) as [infos|e] eqn:Hp.
  - cbv beta iota zeta. rewrite check_push_cases. cbn [push_answer]. rewrite (find_none_forallb accepted).
    destruct (List.find (fun i => negb (accepted i)) infos);
      (split; [reflexivity|split; [reflexivity|split; reflexivity]]).
  - cbv beta iota zeta. destruct e; cbn [push_answer];
      try (split; [reflexivity|split; [reflexivity|split; reflexivity]]).
    destruct (contains "Could not read from remote repository" msg);
      (split; [reflexivity|split; [reflexivity|split; reflexivity]]).
Qed.

(** X9.  [push_changes] on a repository that opens, with a branch checked out
    and a remote of the name given: the branch is pushed to the remote's
    url under its own name, once.  The answer is [True] exactly when the
    push returns and none of its [PushInfo] carries the error flag (so also
    when it returns none at all); a [GitCommandError] of the push is
    answered with [False]; any other exception is raised. *)
Theorem push_changes_answer (remote_name : string) (force : bool) (s : state)
    (branch url : string) :
  opens s = None -> active_branch s = Some branch ->
  remote_url_of remote_name (remotes s) = Some url ->
  let refspec := branch +:+ ":" +:+ branch in
  fst (push_changes remote_name force s) = push_answer (push_to s url refspec force)
  /\ pushed (snd (push_changes remote_name force s)) = pushed s ++ [(url, refspec, force)]
  /\ remotes (snd (push_changes remote_name force s)) = remotes s
  /\ posted (snd (push_changes remote_name force s)) = posted s.
Proof. apply push_changes_run. Qed.

(** X10.  Without a repository that opens, a branch checked out or the remote,
    [push_changes] raises and nothing is pushed. *)
Theorem push_changes_nothing_to_push (remote_name : string) (force : bool) (s : state) :
  opens s <> None \/ active_branch s = None
  \/ remote_url_of remote_name (remotes s) = None ->
  exists e s',
    push_changes remote_name force s = (Raise e, s')
    /\ pushed s' = pushed s /\ remotes s' = remotes s.
Proof.
  intros H. unfold push_changes.
  cbv beta delta [try_except bind try_except_git gets remote_push].
  destruct (opens s) as [msg|] eqn:Ho.
  { eexists _, _. split; [reflexivity|]. split; reflexivity. }
  cbv beta iota delta [ret].
  destruct (active_branch s) as [branch|] eqn:Hb.
  2: { eexists _, _. split; [reflexivity|]. split; reflexivity. }
  cbv beta iota delta [ret].
  destruct (remote_url_of remote_name (remotes s)) as [url|] eqn:Hr.
  { exfalso. destruct H as [H|[H|H]]; [contradiction|discriminate|discriminate]. }
  eexists _, _. split; [reflexivity|]. split; reflexivity.
Qed.

(** The request [create_remote_repo] posts. *)
Definition creation_request (repo_name token : string) (is_private : bool) : request :=
  Request "https://api.github.com/user/repos" ("token " +:+ token)
          "application/vnd.github.v3+json" repo_name is_private false.

(** The message [create_remote_repo] fails with on a refusal of the
    provider. *)
Definition refusal_message (d : gmap string string) : string :=
  let error_message := json_get d "message" "Unknown error" in
  if String.eqb error_message "Bad credentials" then
    error_message +:+ ": Please check your GitHub token is valid and has proper permissions (repo scope)"
  else error_message.

Definition creation_failed (e : exn) (s : state) : state :=
  logged (LogEntry "ERROR" ("Failed to create remote repository: " +:+ str e) ERROR) s.

Lemma create_remote_repo_cases repo_name token is_private use_ssh (s : state) :
  let req := creation_request repo_name token is_private in
  let s1 := with_posted (posted s ++ [req]) s in
  create_remote_repo repo_name token is_private use_ssh s =
  match provider s (posted s) req with
  | Raise e => (Raise e, creation_failed e s1)
  | Ok resp =>
      match json resp with
      | Raise e => (Raise e, creation_failed e s1)
      | Ok d =>
          if (status_code resp =? 201)%Z then
            let key := if use_ssh then "ssh_url" else "clone_url" in
            match d !! key with
            | Some repo_url =>
                (Ok repo_url,
                 logged (LogEntry "INFO" ("Created new repository: " +:+ repo_url) INFO) s1)
            | None =>
                (Raise (Exception ("'" +:+ key +:+ "'")),
                 creation_failed (Exception ("'" +:+ key +:+ "'")) s1)
            end
          else
            let e := Exception ("Failed to create repository: " +:+ refusal_message d) in
            (Raise e,
             creation_failed e
               (logged (LogEntry "ERROR" ("Failed to create repository: "
                                          +:+ refusal_message d) ERROR) s1))
      end
  end.
Proof.
  intros req s1. unfold create_remote_repo.
  cbv beta zeta delta [try_except bind requests_post].
  fold (creation_request repo_name token is_private). fold req. fold s1.
  destruct (provider s (posted s) req) as [resp|e]; [|reflexivity].
  cbv beta iota.
  destruct (status_code resp =? 201)%Z.
  - destruct (json resp) as [d|e]; [|reflexivity]. cbv beta iota zeta.
    unfold json_item. destruct use_ssh; destruct (d !! _); reflexivity.
  - destruct (json resp) as [d|e]; [|reflexivity]. cbv beta iota zeta.
    unfold refusal_message. cbv zeta.
    destruct (String.eqb (json_get d "message" "Unknown error") "Bad credentials");
      reflexivity.
Qed.

(** X11.  [create_remote_repo] returns a url only when the provider answered with
    status 201 and a JSON object: the url is the object's [ssh_url] when
    [use_ssh] is set and its [clone_url] otherwise.  One request was posted,
    carrying the token, the name and the privacy flag; no remote is touched
    and nothing is pushed. *)
Theorem create_remote_repo_created (repo_name token : string) (is_private use_ssh : bool)
    (s s' : state) (repo_url : string) :
  create_remote_repo repo_name token is_private use_ssh s = (Ok repo_url, s') ->
  exists d,
    provider s (posted s) (creation_request repo_name token is_private)
    = Ok (Response 201 (Ok d))
    /\ d !! (if use_ssh then "ssh_url" else "clone_url") = Some repo_url
    /\ posted s' = posted s ++ [creation_request repo_name token is_private]
    /\ remotes s' = remotes s /\ pushed s' = pushed s.
Proof.
  rewrite create_remote_repo_cases. cbv zeta.
  destruct (provider s (posted s) (creation_request repo_name token is_private))
    as [[code [d|e]]|e]; cbn [json status_code]; try discriminate.
  destruct (Z.eqb_spec code 201) as [->|Hne]; [|discriminate].
  destruct (d !! (if use_ssh then "ssh_url" else "clone_url")) as [u|] eqn:Hu;
    [|discriminate].
  intros [= <- <-]. exists d. split; [reflexivity|]. split; [exact Hu|].
  split; [reflexivity|]. split; reflexivity.
Qed.

(** X12.  With any other status and a JSON body, [create_remote_repo] raises: its
    message is the object's [message] ("Unknown error" without one), after
    "Failed to create repository: ", and "Bad credentials" comes with the
    hint on the token.  The failure is logged twice, once where it is found
    and once by the handler of the method. *)
Theorem create_remote_repo_refused (repo_name token : string) (is_private use_ssh : bool)
    (s : state) (code : Z) (d : gmap string string) :
  provider s (posted s) (creation_request repo_name token is_private)
  = Ok (Response code (Ok d)) ->
  code <> 201%Z ->
  let msg := "Failed to create repository: " +:+ refusal_message d in
  exists s',
    create_remote_repo repo_name token is_private use_ssh s = (Raise (Exception msg), s')
    /\ logs s' = logs s ++ [LogEntry "ERROR" msg ERROR;
                            LogEntry "ERROR" ("Failed to create remote repository: " +:+ msg)
                                     ERROR]
    /\ (d !! "message" = Some "Bad credentials" ->
        refusal_message d
        = "Bad credentials: Please check your GitHub token is valid and has proper permissions (repo scope)")
    /\ (d !! "message" = None -> refusal_message d = "Unknown error")
    /\ remotes s' = remotes s /\ pushed s' = pushed s.
Proof.
  intros Hp Hne msg. rewrite create_remote_repo_cases. cbv zeta. rewrite Hp.
  cbn [json status_code]. apply Z.eqb_neq in Hne. rewrite Hne.
  eexists. split; [reflexivity|]. split.
  { cbn. rewrite <- app_assoc. reflexivity. }
  split; [|split; [|split; reflexivity]].
  - intros Hm. unfold refusal_message, json_get. rewrite Hm. reflexivity.
  - intros Hm. unfold refusal_message, json_get. rewrite Hm. reflexivity.
Qed.

(** What [configure_remote] leaves when the repository opens and git
    refuses nothing. *)
Definition configured (remote_url remote_name : string) (s : state) : state :=
  logged (LogEntry "INFO" ("Remote " +:+ remote_name +:+ " configured with URL "
                           +:+ remote_url) INFO)
    (if str_in remote_name (map fst (remotes s)) then
       logged (LogEntry "INFO" ("Updated URL for remote " +:+ remote_name
                                +:+ " to " +:+ remote_url) INFO)
         (with_remotes (url_set remote_name remote_url (remotes s))
            (logged (LogEntry "WARNING" ("Remote " +:+ remote_name +:+ " already exists")
                              WARNING) s))
     else
       logged (LogEntry "INFO" ("Added remote " +:+ remote_name
                                +:+ " with URL " +:+ remote_url) INFO)
         (with_remotes (remotes s ++ [(remote_name, remote_url)]) s)).

Lemma configure_remote_run remote_url remote_name (s : state) :
  opens s = None -> git_refuses s = None ->
  configure_remote remote_url remote_name s = (Ok true, configured remote_url remote_name s).
Proof.
  intros Ho Hg. unfold configure_remote, configured. cbv beta delta [try_except bind].
  rewrite open_branch_manager_cases, Ho, add_remote_cases, Hg.
  destruct (str_in remote_name (map fst (remotes s))); reflexivity.
Qed.

Lemma configured_frame remote_url remote_name (s : state) :
  let s1 := configured remote_url remote_name s in
  opens s1 = opens s /\ active_branch s1 = active_branch s
  /\ push_to s1 = push_to s /\ pushed s1 = pushed s /\ posted s1 = posted s
  /\ remote_url_of remote_name (remotes s1) = Some remote_url.
Proof.
  unfold configured. destruct (str_in remote_name (map fst (remotes s))) eqn:Hin;
    cbn; repeat split.
  - apply url_set_named, str_in_spec, Hin.
  - apply remote_added_named, str_in_false, Hin.
Qed.

(** The steps of [setup_remote_and_push] once the url is known. *)
Definition publish (url : string) (force_push : bool) : M state bool :=
  configure_remote url "origin" >>
  push_changes "origin" force_push >>
  log_event "INFO" "Repository changes pushed successfully" INFO >>
  ret true.

Lemma publish_run url force_push (s : state) branch (pushed_ok : bool) :
  opens s = None -> git_refuses s = None -> active_branch s = Some branch ->
  push_answer (push_to s url (branch +:+ ":" +:+ branch) force_push) = Ok pushed_ok ->
  exists s',
    publish url force_push s = (Ok true, s')
    /\ remote_url_of "origin" (remotes s') = Some url
    /\ pushed s' = pushed s ++ [(url, branch +:+ ":" +:+ branch, force_push)]
    /\ posted s' = posted s.
Proof.
  intros Ho Hg Hb Hp. unfold publish. cbv beta delta [bind].
  rewrite (configure_remote_run _ _ _ Ho Hg).
  destruct (configured_frame url "origin" s) as (Ho1 & Hb1 & Hpt & Hpd & Hps & Hr1).
  set (s1 := configured url "origin" s) in *.
  assert (Ho1' : opens s1 = None) by congruence.
  assert (Hb1' : active_branch s1 = Some branch) by congruence.
  destruct (push_changes_run "origin" force_push s1 branch url Ho1' Hb1' Hr1)
    as (Hans & Hpushed & Hrem & Hposted).
  rewrite Hpt, Hp in Hans.
  destruct (push_changes "origin" force_push s1) as [r s2]. cbn [fst snd] in *.
  subst r.
  exists (logged (LogEntry "INFO" "Repository changes pushed successfully" INFO) s2).
  split; [reflexivity|].
  change (remote_url_of "origin" (remotes s2) = Some url
          /\ pushed s2 = pushed s ++ [(url, branch +:+ ":" +:+ branch, force_push)]
          /\ posted s2 = posted s).
  rewrite Hrem, Hpushed, Hposted, Hpd, Hps. split; [exact Hr1|]. split; reflexivity.
Qed.

Lemma setup_remote_and_push_with_url url token repo_name force_push (s : state) :
  truthy url = true ->
  setup_remote_and_push (Some url) token repo_name force_push s =
  match publish url force_push s with
  | (Ok b, s') => (Ok b, s')
  | (Raise e, s') =>
      (Raise e,
       logged (LogEntry "ERROR" ("Failed to setup remote and push: " +:+ str e) ERROR) s')
  end.
Proof.
  intros Hu. unfold setup_remote_and_push. cbv beta delta [try_except].
  unfold bind at 1.
  assert (E : (match token, repo_name with
               | Some t, Some n =>
                   if truthy t && truthy n && negb (Batch.truthy_str (Some url)) then
                     let* u := create_remote_repo n t true false in ret (Some u)
                   else ret (Some url)
               | _, _ => ret (Some url)
               end) s = (Ok (Some url), s)).
  { cbn [Batch.truthy_str]. rewrite Hu. cbn [negb].
    destruct token as [t|], repo_name as [n|]; try reflexivity.
    rewrite andb_false_r. reflexivity. }
  rewrite E. rewrite Hu. fold (publish url force_push).
  destruct (publish url force_push s) as [[b|e] s']; reflexivity.
Qed.

(** X13.  [setup_remote_and_push] does not report a push that failed.  Given a
    url, a repository that opens with a branch checked out, and git refusing
    nothing, it returns [True] whenever [push_changes] returns, also when
    [push_changes] answers [False] (an error flag, or a [GitCommandError] of
    the push).  The remote [origin] then has the url, the branch was pushed
    to it once, and the provider was not asked anything, token or not. *)
Theorem setup_remote_and_push_hides_push_failure
    (url : string) (token repo_name : option string) (force_push : bool)
    (s : state) (branch : string) (pushed_ok : bool) :
  truthy url = true ->
  opens s = None -> git_refuses s = None -> active_branch s = Some branch ->
  push_answer (push_to s url (branch +:+ ":" +:+ branch) force_push) = Ok pushed_ok ->
  exists s',
    setup_remote_and_push (Some url) token repo_name force_push s = (Ok true, s')
    /\ remote_url_of "origin" (remotes s') = Some url
    /\ pushed s' = pushed s ++ [(url, branch +:+ ":" +:+ branch, force_push)]
    /\ posted s' = posted s.
Proof.
  intros Hu Ho Hg Hb Hp.
  destruct (publish_run url force_push s branch pushed_ok Ho Hg Hb Hp)
    as (s' & Hrun & Hrest).
  rewrite (setup_remote_and_push_with_url _ _ _ _ _ Hu), Hrun. exists s'. split; [reflexivity|].
  exact Hrest.
Qed.

(** X14.  Without a url, and without both a token and a repository name,
    [setup_remote_and_push] returns [False] after logging that no url was
    given: it asks the provider nothing, touches no remote and pushes
    nothing. *)
Theorem setup_remote_and_push_without_url
    (remote_url token repo_name : option string) (force_push : bool) (s : state) :
  Batch.truthy_str remote_url = false ->
  Batch.truthy_str token && Batch.truthy_str repo_name = false ->
  setup_remote_and_push remote_url token repo_name force_push s
  = (Ok false, logged (LogEntry "ERROR" "No remote URL provided" ERROR) s).
Proof.
  intros Hu Htn. unfold setup_remote_and_push. cbv beta delta [try_except].
  unfold bind at 1.
  assert (E : (match token, repo_name with
               | Some t, Some n =>
                   if truthy t && truthy n && negb (Batch.truthy_str remote_url) then
                     let* u := create_remote_repo n t true false in ret (Some u)
                   else ret remote_url
               | _, _ => ret remote_url
               end) s = (Ok remote_url, s)).
  { destruct token as [t|], repo_name as [n|]; try reflexivity.
    cbn [Batch.truthy_str] in Htn. rewrite Htn. reflexivity. }
  rewrite E. destruct remote_url as [u|]; [|reflexivity].
  cbn [Batch.truthy_str] in Hu. rewrite Hu. reflexivity.
Qed.

(** X15.  With a token and a repository name and no url, [setup_remote_and_push]
    has the provider create a private repository of that name and publishes
    to its [clone_url], never to its [ssh_url]. *)
Theorem setup_remote_and_push_creates
    (remote_url : option string) (token repo_name : string) (force_push : bool)
    (s : state) (d : gmap string string) (url branch : string) (pushed_ok : bool) :
  Batch.truthy_str remote_url = false -> truthy token = true -> truthy repo_name = true ->
  provider s (posted s) (creation_request repo_name token true)
  = Ok (Response 201 (Ok d)) ->
  d !! "clone_url" = Some url -> truthy url = true ->
  opens s = None -> git_refuses s = None -> active_branch s = Some branch ->
  push_answer (push_to s url (branch +:+ ":" +:+ branch) force_push) = Ok pushed_ok ->
  exists s',
    setup_remote_and_push remote_url (Some token) (Some repo_name) force_push s
    = (Ok true, s')
    /\ posted s' = posted s ++ [creation_request repo_name token true]
    /\ remote_url_of "origin" (remotes s') = Some url
    /\ pushed s' = pushed s ++ [(url, branch +:+ ":" +:+ branch, force_push)].
Proof.
  intros Hr Ht Hn Hprov Hd Hu Ho Hg Hb Hp.
  unfold setup_remote_and_push. cbv beta delta [try_except].
  unfold bind at 1. rewrite Ht, Hn, Hr. cbn [andb negb].
  unfold bind at 1. rewrite create_remote_repo_cases. cbv zeta. rewrite Hprov.
  cbn [json status_code Z.eqb Pos.eqb]. rewrite Hd. cbn [ret]. rewrite Hu.
  fold (publish url force_push).
  set (s1 := logged _ (with_posted _ s)).
  destruct (publish_run url force_push s1 branch pushed_ok Ho Hg Hb Hp)
    as (s' & Hrun & Hrem & Hpushed & Hposted).
  rewrite Hrun. exists s'. split; [reflexivity|]. split; [exact Hposted|].
  split; [exact Hrem|exact Hpushed].
Qed.
End PublishingProofs.

(** ** The date rewrite: [_update_commit_dates] *)
Section DateRewrite.
Import Git CommitModifier.
Variable hexsha : commit -> string.

Definition short_id (c : commit) : string := str_take 7 (hexsha c).

Definition author_date (c : commit) : Z := GIT_AUTHOR_DATE (commit_env_of c).
Definition committer_date (c : commit) : Z := GIT_COMMITTER_DATE (commit_env_of c).

(** The rewrite of one commit by the date script over the map built for
    [commits] and [new_dates]. *)
Definition redated (commits : list commit) (new_dates : list datetime) : commit -> commit :=
  rewrite_commit hexsha (change_dates (date_map_of hexsha commits new_dates)).

Lemma str_take_prefix n s : String.prefix (str_take n s) s = true.
Proof.
  revert s. induction n as [|n IH]; intros [|c s]; try reflexivity.
  cbn. destruct (ascii_dec c c); [apply IH|congruence].
Qed.

Lemma str_take_length n s : (n <= String.length s)%nat -> String.length (str_take n s) = n.
Proof.
  revert s. induction n as [|n IH]; intros [|c s]; cbn; try lia; try reflexivity.
  intros H. rewrite IH; lia.
Qed.

Lemma prefix_same_length p s n :
  String.prefix p s = true -> String.length p = n -> p = str_take n s.
Proof.
  revert s n. induction p as [|a p IH]; intros s n.
  - intros _ <-. destruct s; reflexivity.
  - destruct s as [|b s]; cbn; [discriminate|].
    destruct (ascii_dec a b) as [->|]; [|discriminate].
    intros H <-. cbn. f_equal. apply IH; [exact H|reflexivity].
Qed.

Lemma str_take_idem n s : str_take n (str_take n s) = str_take n s.
Proof.
  revert s. induction n as [|n IH]; intros [|c s]; cbn; try reflexivity. f_equal. apply IH.
Qed.

(** A prefix of at most [n] characters is a prefix of the first [n]. *)
Lemma prefix_of_take p s n :
  (String.length p <= n)%nat ->
  String.prefix p (str_take n s) = String.prefix p s.
Proof.
  revert s n. induction p as [|a p IH]; intros s n Hlen.
  - destruct s, n; reflexivity.
  - cbn in Hlen. destruct n as [|n]; [lia|]. destruct s as [|b s]; [reflexivity|].
    cbn. destruct (ascii_dec a b); [apply IH; lia|reflexivity].
Qed.

Lemma str_take_le n s : (String.length (str_take n s) <= n)%nat.
Proof.
  revert s. induction n as [|n IH]; intros [|c s]; cbn; try lia. specialize (IH s). lia.
Qed.

(** The date map as an accumulation. *)
Definition add_line (dm : list (string * Z)) (cd : commit * datetime) : list (string * Z) :=
  dict_set (short_id (fst cd)) (strftime (snd cd)) dm.

Lemma date_map_fold commits new_dates :
  date_map_of hexsha commits new_dates = fold_left add_line (zip commits new_dates) [].
Proof. reflexivity. Qed.

Lemma dict_set_keys {V} k (v : V) d x :
  x ∈ map fst (dict_set k v d) <-> x = k \/ x ∈ map fst d.
Proof.
  induction d as [|[k' v'] d IH]; cbn.
  - rewrite elem_of_cons. split; (intros [H|H]; [left; exact H|right; exact H]).
  - destruct (String.eqb k' k) eqn:E; cbn; rewrite !elem_of_cons.
    + apply String.eqb_eq in E. subst k'. tauto.
    + rewrite IH. tauto.
Qed.

Lemma dict_set_items {V} k (v : V) d x w :
  (x, w) ∈ dict_set k v d -> (x, w) = (k, v) \/ (x, w) ∈ d.
Proof.
  induction d as [|[k' v'] d IH]; cbn.
  - intros H. apply elem_of_cons in H as [H|H]; [left; exact H|inversion H].
  - destruct (String.eqb k' k) eqn:E; intros H; apply elem_of_cons in H as [H|H].
    + left. exact H.
    + right. right. exact H.
    + right. rewrite H. left.
    + destruct (IH H) as [H'|H']; [left; exact H'|right; right; exact H'].
Qed.

Lemma fold_add_line_keys items acc x :
  x ∈ map fst (fold_left add_line items acc)
  <-> x ∈ map fst acc \/ x ∈ map (fun cd => short_id (fst cd)) items.
Proof.
  revert acc. induction items as [|cd items IH]; intros acc; cbn [fold_left map].
  - split; [intros H; left; exact H|intros [H|H]; [exact H|inversion H]].
  - rewrite IH. unfold add_line. rewrite dict_set_keys, elem_of_cons. tauto.
Qed.

Lemma fold_add_line_values items acc x w :
  (x, w) ∈ fold_left add_line items acc ->
  (x, w) ∈ acc \/ exists cd, cd ∈ items /\ w = strftime (snd cd).
Proof.
  revert acc. induction items as [|cd items IH]; intros acc; cbn [fold_left].
  - intros H. left. exact H.
  - intros H. apply IH in H as [H|(cd' & Hcd & ->)].
    + apply dict_set_items in H as [[= -> ->]|H]; [|left; exact H].
      right. exists cd. split; [left|reflexivity].
    + right. exists cd'. split; [right; exact Hcd|reflexivity].
Qed.

(** The script gives a commit the date of the first line whose id starts
    the commit's id, and leaves everything else in the environment. *)
Lemma change_dates_cases lines sha e :
  (exists k v, (k, v) ∈ lines /\ String.prefix k sha = true
     /\ change_dates lines sha e
        = CommitEnv (GIT_AUTHOR_NAME e) (GIT_AUTHOR_EMAIL e) v
                    (GIT_COMMITTER_NAME e) (GIT_COMMITTER_EMAIL e) v)
  \/ (Forall (fun kv => String.prefix (fst kv) sha = false) lines
      /\ change_dates lines sha e = e).
Proof.
  induction lines as [|[k v] lines IH]; cbn [change_dates].
  - right. split; [constructor|reflexivity].
  - unfold starts_with. destruct (String.prefix k sha) eqn:E.
    + left. exists k, v. split; [left|]. split; [exact E|reflexivity].
    + destruct IH as [(k' & v' & Hin & Hp & Hc)|[Hall Hc]].
      * left. exists k', v'. split; [right; exact Hin|]. split; assumption.
      * right. split; [constructor; [exact E|exact Hall]|exact Hc].
Qed.

(** Only the first seven characters of a commit's id matter to the script
    when no line has a longer id. *)
Lemma change_dates_short lines sha1 sha2 e :
  Forall (fun kv => (String.length (fst kv) <= 7)%nat) lines ->
  str_take 7 sha1 = str_take 7 sha2 ->
  change_dates lines sha1 e = change_dates lines sha2 e.
Proof.
  intros Hall Heq. induction Hall as [|[k v] lines Hk _ IH]; [reflexivity|].
  cbn [change_dates]. unfold starts_with. cbn [fst] in Hk.
  rewrite <- (prefix_of_take k sha1 7 Hk), <- (prefix_of_take k sha2 7 Hk), Heq, IH.
  reflexivity.
Qed.

Lemma date_map_keys_short commits new_dates :
  Forall (fun kv => (String.length (fst kv) <= 7)%nat) (date_map_of hexsha commits new_dates).
Proof.
  apply Forall_forall. intros [k v] Hkv. cbn [fst].
  assert (Hk : k ∈ map fst (date_map_of hexsha commits new_dates)).
  { apply list_elem_of_In, in_map_iff. exists (k, v). split; [reflexivity|].
    apply list_elem_of_In, Hkv. }
  rewrite date_map_fold in Hk. apply fold_add_line_keys in Hk as [Hk|Hk]; [inversion Hk|].
  apply list_elem_of_In, in_map_iff in Hk as (cd & <- & _). apply str_take_le.
Qed.

Lemma zip_fst_in {A B} (l : list A) (k : list B) x :
  length l = length k -> x ∈ l -> exists y, (x, y) ∈ zip l k.
Proof.
  revert k. induction l as [|a l IH]; intros [|b k] Hlen Hx; try discriminate.
  - inversion Hx.
  - apply elem_of_cons in Hx as [->|Hx].
    + exists b. left.
    + destruct (IH k) as (y & Hy); [cbn in Hlen; lia|exact Hx|].
      exists y. right. exact Hy.
Qed.

Lemma zip_snd_in {A B} (l : list A) (k : list B) x y :
  (x, y) ∈ zip l k -> x ∈ l /\ y ∈ k.
Proof.
  revert k. induction l as [|a l IH]; intros [|b k] H; try (inversion H; fail).
  cbn in H. apply elem_of_cons in H as [[= -> ->]|H].
  - split; left.
  - destruct (IH k H). split; right; assumption.
Qed.

Lemma rewritten_env f c :
  commit_env_of (rewrite_commit hexsha f c) = f (hexsha c) (commit_env_of c).
Proof. destruct c; reflexivity. Qed.

(** Every commit of the list gets one of the dates. *)
Lemma redated_date commits new_dates c :
  length commits = length new_dates -> c ∈ commits ->
  exists d, d ∈ new_dates
    /\ author_date (redated commits new_dates c) = strftime d
    /\ committer_date (redated commits new_dates c) = strftime d.
Proof.
  intros Hlen Hc. unfold redated, author_date, committer_date.
  rewrite rewritten_env.
  destruct (change_dates_cases (date_map_of hexsha commits new_dates) (hexsha c)
              (commit_env_of c)) as [(k & v & Hin & _ & ->)|[Hall _]].
  - rewrite date_map_fold in Hin. apply fold_add_line_values in Hin as [Hin|(cd & Hcd & ->)];
      [inversion Hin|].
    destruct cd as [c' d]. apply zip_snd_in in Hcd as [_ Hd].
    exists d. cbn. split; [exact Hd|split; reflexivity].
  - exfalso. rewrite Forall_forall in Hall.
    assert (Hk : short_id c ∈ map fst (date_map_of hexsha commits new_dates)).
    { rewrite date_map_fold. apply fold_add_line_keys. right.
      destruct (zip_fst_in commits new_dates c Hlen Hc) as (d & Hd).
      apply list_elem_of_In, in_map_iff. exists (c, d). split; [reflexivity|].
      apply list_elem_of_In, Hd. }
    apply list_elem_of_In, in_map_iff in Hk as ([k v] & Hkv & Hin). cbn [fst] in Hkv. subst k.
    apply list_elem_of_In in Hin. specialize (Hall _ Hin). cbn [fst] in Hall.
    unfold short_id in Hall. rewrite str_take_prefix in Hall. discriminate.
Qed.

(** The rewrite keeps the identity, the tree and the message. *)
Lemma redated_keeps commits new_dates c :
  author_name (redated commits new_dates c) = author_name c
  /\ author_email (redated commits new_dates c) = author_email c.
Proof.
  unfold redated.
  destruct (rewritten_author hexsha (change_dates (date_map_of hexsha commits new_dates)) c)
    as [-> ->].
  apply change_dates_keeps_author.
Qed.

Lemma ref_tip_filter_branch f repo name :
  ref_tip (filter_branch_all hexsha f repo) name
  = rewrite_commit hexsha f <$> ref_tip repo name.
Proof.
  unfold ref_tip, filter_branch_all. cbn [refs set_refs].
  induction (refs repo) as [|r rs IH]; [reflexivity|]. cbn [map List.find fst].
  destruct (String.eqb (fst r) name); [reflexivity|exact IH].
Qed.

(** The commits reachable from [HEAD] after a rewrite are the rewritten
    commits that were reachable from it. *)
Lemma iter_commits_filter_branch f repo x :
  x ∈ iter_commits (filter_branch_all hexsha f repo)
  <-> exists y, y ∈ iter_commits repo /\ x = rewrite_commit hexsha f y.
Proof.
  unfold iter_commits. rewrite ref_tip_filter_branch.
  change (HEAD (filter_branch_all hexsha f repo)) with (HEAD repo).
  destruct (ref_tip repo (HEAD repo)) as [tip|]; cbn [fmap option_fmap option_map].
  - apply rewrite_commit_commitwise.
  - split; [inversion 1|intros (y & Hy & _); inversion Hy].
Qed.

(** The date of the first line whose id starts [sha]. *)
Definition date_line (lines : list (string * Z)) (sha : string) : option Z :=
  snd <$> List.find (fun kv => String.prefix (fst kv) sha) lines.

Lemma change_dates_date_line lines sha e :
  change_dates lines sha e =
  match date_line lines sha with
  | Some v => CommitEnv (GIT_AUTHOR_NAME e) (GIT_AUTHOR_EMAIL e) v
                        (GIT_COMMITTER_NAME e) (GIT_COMMITTER_EMAIL e) v
  | None => e
  end.
Proof.
  unfold date_line. induction lines as [|[k v] lines IH]; [reflexivity|].
  cbn [change_dates List.find fst]. unfold starts_with.
  destruct (String.prefix k sha); [reflexivity|exact IH].
Qed.

Lemma date_line_short lines sha1 sha2 :
  Forall (fun kv => (String.length (fst kv) <= 7)%nat) lines ->
  str_take 7 sha1 = str_take 7 sha2 ->
  date_line lines sha1 = date_line lines sha2.
Proof.
  intros Hall Heq. unfold date_line. f_equal.
  induction Hall as [|[k v] lines Hk _ IH]; [reflexivity|]. cbn [List.find fst] in *.
  rewrite <- (prefix_of_take k sha1 7 Hk), <- (prefix_of_take k sha2 7 Hk), Heq, IH.
  reflexivity.
Qed.

Lemma date_line_listed commits new_dates c :
  length commits = length new_dates -> c ∈ commits ->
  is_Some (date_line (date_map_of hexsha commits new_dates) (hexsha c)).
Proof.
  intros Hlen Hc.
  destruct (date_line (date_map_of hexsha commits new_dates) (hexsha c)) as [v|] eqn:E;
    [eexists; reflexivity|exfalso].
  unfold date_line in E. apply fmap_None in E.
  assert (Hk : short_id c ∈ map fst (date_map_of hexsha commits new_dates)).
  { rewrite date_map_fold. apply fold_add_line_keys. right.
    destruct (zip_fst_in commits new_dates c Hlen Hc) as (d & Hd).
    apply list_elem_of_In, in_map_iff. exists (c, d). split; [reflexivity|].
    apply list_elem_of_In, Hd. }
  apply list_elem_of_In, in_map_iff in Hk as ([k v] & Hkv & Hin). cbn [fst] in Hkv. subst k.
  apply (find_none _ _ E) in Hin. cbn [fst] in Hin. unfold short_id in Hin.
  rewrite str_take_prefix in Hin. discriminate.
Qed.

Lemma dict_set_fresh {V} k (v : V) d :
  k ∉ map fst d -> dict_set k v d = d ++ [(k, v)].
Proof.
  induction d as [|[k' v'] d IH]; [reflexivity|]. cbn [map fst]. intros H.
  apply not_elem_of_cons in H as [Hne H]. cbn.
  assert (E : String.eqb k' k = false) by (apply String.eqb_neq; congruence).
  rewrite E, IH by exact H. reflexivity.
Qed.

Definition line_of (cd : commit * datetime) : string * Z :=
  (short_id (fst cd), strftime (snd cd)).

Lemma fold_add_line_fresh items acc :
  NoDup (map fst acc ++ map (fun cd => short_id (fst cd)) items) ->
  fold_left add_line items acc = acc ++ map line_of items.
Proof.
  revert acc. induction items as [|cd items IH]; intros acc Hnd; cbn [fold_left map].
  - rewrite app_nil_r. reflexivity.
  - cbn [map] in Hnd. assert (Hk : short_id (fst cd) ∉ map fst acc).
    { apply NoDup_app in Hnd as (_ & Hdis & _). intros Hin. apply (Hdis _ Hin). left. }
    unfold add_line at 2. rewrite dict_set_fresh by exact Hk.
    rewrite IH.
    + rewrite <- app_assoc. reflexivity.
    + rewrite map_app. cbn [map fst]. rewrite <- app_assoc. exact Hnd.
Qed.

(** With short ids that are distinct, the map lists the commits in their
    order, each with its date. *)
Lemma date_map_distinct commits new_dates :
  NoDup (map short_id commits) -> length commits = length new_dates ->
  date_map_of hexsha commits new_dates = map line_of (zip commits new_dates).
Proof.
  intros Hnd Hlen. rewrite date_map_fold. rewrite fold_add_line_fresh; [reflexivity|].
  cbn [map app]. rewrite <- (map_map fst short_id).
  assert (E : map fst (zip commits new_dates) = commits).
  { clear Hnd. revert new_dates Hlen. induction commits as [|c cs IH]; intros [|d ds] H;
      try discriminate; [reflexivity|]. cbn. f_equal. apply IH. cbn in H. lia. }
  rewrite E. exact Hnd.
Qed.

Lemma date_line_own items c d :
  NoDup (map (fun cd => short_id (fst cd)) items) ->
  Forall (fun cd => (7 <= String.length (hexsha (fst cd)))%nat) items ->
  (c, d) ∈ items ->
  date_line (map line_of items) (hexsha c) = Some (strftime d).
Proof.
  unfold date_line. induction items as [|[c0 d0] items IH]; intros Hnd Hlen Hin;
    [inversion Hin|].
  cbn [map fst] in Hnd. apply NoDup_cons in Hnd as [Hc0 Hnd].
  apply Forall_cons in Hlen as [Hl0 Hlen]. cbn [fst] in Hl0.
  cbn [map List.find line_of fst snd].
  apply elem_of_cons in Hin as [[= -> ->]|Hin].
  - unfold short_id. rewrite str_take_prefix. reflexivity.
  - destruct (String.prefix (short_id c0) (hexsha c)) eqn:E; [exfalso|apply IH; assumption].
    apply (prefix_same_length _ _ 7) in E; [|apply str_take_length, Hl0].
    apply Hc0. rewrite E. apply list_elem_of_In, in_map_iff. exists (c, d).
    split; [reflexivity|apply list_elem_of_In, Hin].
Qed.

Lemma map_zip_eq {A B C} (f : A -> C) (g : B -> C) (l : list A) (k : list B) :
  length l = length k -> (forall x y, (x, y) ∈ zip l k -> f x = g y) -> map f l = map g k.
Proof.
  revert k. induction l as [|a l IH]; intros [|b k] Hlen H; try discriminate; [reflexivity|].
  cbn. f_equal; [apply H; left|]. apply IH; [cbn in Hlen; lia|].
  intros x y Hxy. apply H. right. exact Hxy.
Qed.

(** A successful [_update_commit_dates] ran the tool over all refs with the
    map built from the commits reachable from [HEAD]. *)
Lemma update_commit_dates_ok (new_dates : list datetime) (s s' : state) b :
  _update_commit_dates hexsha new_dates s = (Ok b, s') ->
  length (iter_commits (st_repo s)) = length new_dates
  /\ st_repo s'
     = filter_branch_all hexsha
         (change_dates (date_map_of hexsha (iter_commits (st_repo s)) new_dates))
         (st_repo s).
Proof.
  intros Hrun.
  destruct (Nat.eq_dec (length (iter_commits (st_repo s))) (length new_dates)) as [Hlen|Hne].
  - split; [exact Hlen|]. rewrite (update_commit_dates_run hexsha _ _ Hlen) in Hrun.
    destruct (head (tool_runs s)) as [[|stderr left_behind]|]; try discriminate;
      injection Hrun as _ <-; reflexivity.
  - rewrite (update_commit_dates_mismatch hexsha _ _ Hne) in Hrun. discriminate.
Qed.


End DateRewrite.

(** ** Rewriting history: [rewrite_history] *)
Lemma within_list_comp {S A B} (I : S -> Prop) (xs : list A) (body : A -> M S B) :
  (forall x, within I (body x)) -> within I (list_comp xs body).
Proof.
  intros Hb. induction xs as [|x xs IH]; [apply within_ret|].
  cbn [list_comp]. apply within_bind; [apply Hb|]. intros y.
  apply within_bind; [exact IH|]. intros ys. apply within_ret.
Qed.

Section RewriteHistoryProofs.
Import Git CommitModifier Rewriting.
Variable hexsha : commit -> string.

(** What drawing dates leaves alone. *)
Definition untouched (s : state) (t : state) : Prop :=
  st_repo t = st_repo s /\ tool_runs t = tool_runs s /\ git_dir t = git_dir s
  /\ repo_path t = repo_path s.

Lemma randomize_commit_dates_within start_date end_date (s : state) :
  within (untouched s) (randomize_commit_dates start_date end_date).
Proof.
  assert (Hlog : forall ty msg lvl, within (untouched s) (log_event ty msg lvl)).
  { intros ty msg lvl. apply within_log_event. intros l t Ht. exact Ht. }
  assert (Hnow : within (untouched s) datetime_now) by (intros t Ht; exact Ht).
  unfold randomize_commit_dates. apply within_try_except.
  - apply within_bind; [apply within_gets|]. intros repo.
    apply within_bind.
    { destruct start_date; [apply within_ret|].
      apply within_bind; [exact Hnow|]. intros now. apply within_ret. }
    intros sd. apply within_bind.
    { destruct end_date; [apply within_ret|exact Hnow]. }
    intros ed. apply within_bind.
    { apply within_list_comp. intros _. apply within_bind.
      - intros t Ht. exact Ht.
      - intros r. apply within_ret. }
    intros rs. apply within_bind; [apply Hlog|]. intros _. apply within_ret.
  - intros e. apply within_bind; [apply Hlog|]. intros _. apply within_raise.
Qed.

(** No run of the tool among the next [n] fails. *)
Definition tool_succeeds (n : nat) (s : state) : Prop :=
  Forall (fun o => o = ExitZero) (take n (tool_runs s)).

(** The repository once the identity is rewritten. *)
Definition reidentified (new_author new_email : string) (repo : repository) : repository :=
  filter_branch_all hexsha (author_filter new_author new_email) repo.

Lemma head_tool_succeeds n (s : state) :
  tool_succeeds (S n) s ->
  match head (tool_runs s) with Some (ExitNonzero _ _) => False | _ => True end.
Proof.
  unfold tool_succeeds. destruct (tool_runs s) as [|[|stderr left] rest]; cbn; auto.
  intros H. apply Forall_cons in H as [H _]. discriminate.
Qed.

Lemma tail_tool_succeeds n (s t : state) :
  tool_succeeds (S n) s -> tool_runs t = tail (tool_runs s) -> tool_succeeds n t.
Proof.
  unfold tool_succeeds. intros H ->. destruct (tool_runs s) as [|o rest]; cbn in *.
  - rewrite take_nil. constructor.
  - apply Forall_cons in H as [_ H]. exact H.
Qed.

Lemma update_commit_metadata_dated new_author new_email (new_dates : list datetime)
    (s : state) :
  truthy new_author && truthy new_email = true ->
  tool_succeeds 2 s ->
  let repo1 := reidentified new_author new_email (st_repo s) in
  let commits := iter_commits repo1 in
  (new_dates = [] ->
   exists s', update_commit_metadata hexsha new_author new_email (Some new_dates) s
              = (Ok true, s')
              /\ st_repo s' = repo1)
  /\ (new_dates <> [] -> length commits = length new_dates ->
      exists s', update_commit_metadata hexsha new_author new_email (Some new_dates) s
                 = (Ok true, s')
                 /\ st_repo s'
                    = filter_branch_all hexsha
                        (change_dates (date_map_of hexsha commits new_dates)) repo1)
  /\ (new_dates <> [] -> length commits <> length new_dates ->
      exists s', update_commit_metadata hexsha new_author new_email (Some new_dates) s
                 = (Raise (ValueError (mismatch_message (length commits)
                                                        (length new_dates))), s')
                 /\ st_repo s' = repo1).
Proof.
  intros Ht Htool repo1 commits.
  pose proof (head_tool_succeeds _ _ Htool) as Hhead.
  set (s1 := identity_rewritten hexsha new_author new_email s).
  assert (Hs1 : st_repo s1 = repo1) by reflexivity.
  assert (Htool1 : tool_succeeds 1 s1) by (apply (tail_tool_succeeds _ s); [exact Htool|reflexivity]).
  pose proof (head_tool_succeeds _ _ Htool1) as Hhead1.
  assert (Hphase : identity_phase hexsha new_author new_email s = (Ok tt, s1)).
  { rewrite (identity_phase_run hexsha _ _ _ Ht).
    destruct (head (tool_runs s)) as [[|stderr left]|]; [reflexivity|destruct Hhead|reflexivity]. }
  rewrite update_commit_metadata_phases. unfold try_except. unfold bind at 1 3 5.
  rewrite Hphase. split; [|split].
  - intros ->. eexists. split; [reflexivity|exact Hs1].
  - intros Hne Hlen. destruct new_dates as [|d ds]; [congruence|].
    unfold bind at 1.
    change (length (iter_commits (st_repo s1)) = length (d :: ds)) in Hlen.
    rewrite (update_commit_dates_run hexsha _ _ Hlen).
    destruct (head (tool_runs s1)) as [[|stderr left]|]; try (destruct Hhead1);
      (eexists; split; [reflexivity|]; reflexivity).
  - intros Hne Hlen. destruct new_dates as [|d ds]; [congruence|].
    unfold bind at 1.
    change (length (iter_commits (st_repo s1)) <> length (d :: ds)) in Hlen.
    rewrite (update_commit_dates_mismatch hexsha _ _ Hlen).
    eexists. split; [reflexivity|]. reflexivity.
Qed.

Lemma strftime_mono a b : (a <= b)%Z -> (strftime a <= strftime b)%Z.
Proof. intros H. unfold strftime. apply Z.div_le_mono; lia. Qed.

(** A commit made by [new_author] and dated between the two bounds, to the
    second. *)
Definition made_between (new_author new_email : string) (lo hi : datetime)
    (c : commit) : Prop :=
  author_name c = new_author /\ author_email c = new_email
  /\ (strftime lo <= author_date c <= strftime hi)%Z
  /\ (strftime lo <= committer_date c <= strftime hi)%Z.

Lemma iter_commits_reidentified_nil new_author new_email repo :
  iter_commits repo = [] -> iter_commits (reidentified new_author new_email repo) = [].
Proof.
  intros H. destruct (iter_commits (reidentified new_author new_email repo))
    as [|x l] eqn:E; [reflexivity|exfalso].
  assert (Hx : x ∈ iter_commits (reidentified new_author new_email repo))
    by (rewrite E; left).
  apply iter_commits_filter_branch in Hx as (y & Hy & _). rewrite H in Hy. inversion Hy.
Qed.

End RewriteHistoryProofs.

(** ** Sensitive files: [find_sensitive_files] *)
Section SensitiveFilesProofs.
Import FileProcessor SensitiveFiles.

Lemma contains_cons_r p c s : contains p s = true -> contains p (String c s) = true.
Proof. intros H. cbn [contains]. rewrite H. apply orb_true_r. Qed.

Lemma prefix_append_l p q s : String.prefix (p +:+ q) s = true -> String.prefix p s = true.
Proof.
  revert s. induction p as [|a p IH]; intros s; [destruct s; reflexivity|].
  change (String a p +:+ q) with (String a (p +:+ q)).
  destruct s as [|b s]; cbn; [discriminate|].
  destruct (ascii_dec a b); [apply IH|discriminate].
Qed.

(** Where a text occurs, so does each of its beginnings. *)
Lemma contains_append_l p q s : contains (p +:+ q) s = true -> contains p s = true.
Proof.
  induction s as [|c s IH]; cbn [contains].
  - rewrite !orb_false_r. apply prefix_append_l.
  - intros H. apply orb_true_iff in H as [H|H]; apply orb_true_iff.
    + left. apply (prefix_append_l _ _ _ H).
    + right. apply IH, H.
Qed.

(** The words that decide: "authors" and "contributors" add nothing to
    "author" and "contributor". *)
Definition deciding_words : list string :=
  ["license"; "copyright"; "author"; "contributor"; "readme"; "changelog";
   "maintainers"; "codeowners"; "code of conduct"; "governance"].

Lemma is_sensitive_words file :
  is_sensitive file = existsb (fun w => contains w (lower file)) deciding_words.
Proof.
  unfold is_sensitive, patterns, deciding_words. cbn [existsb].
  generalize (lower file) as n. intros n.
  assert (Ha : contains "authors" n = true -> contains "author" n = true)
    by apply (contains_append_l "author" "s").
  assert (Hc : contains "contributors" n = true -> contains "contributor" n = true)
    by apply (contains_append_l "contributor" "s").
  destruct (contains "license" n), (contains "copyright" n), (contains "author" n),
    (contains "contributor" n), (contains "readme" n), (contains "changelog" n),
    (contains "authors" n), (contains "contributors" n); cbn; try reflexivity;
    try (discriminate Ha; reflexivity); try (discriminate Hc; reflexivity).
Qed.

(** X19.  [find_sensitive_files] returns, and changes no file.  It lists each
    file once, and exactly the files outside every [.git] directory whose
    own name, lowered, holds one of the deciding words; the directories on
    the path do not count. *)
Theorem find_sensitive_files_listed (s : state) :
  exists found s',
    find_sensitive_files s = (Ok found, s')
    /\ files s' = files s
    /\ NoDup found
    /\ forall file_path,
         file_path ∈ found
         <-> is_Some (files s !! file_path) /\ walked file_path = true
             /\ existsb (fun w => contains w (lower (file_name file_path))) deciding_words
                = true.
Proof.
  eexists _, _. split; [reflexivity|]. split; [reflexivity|]. split.
  - apply NoDup_filter, os_walk_NoDup.
  - intros file_path. rewrite list_elem_of_filter, elem_of_os_walk, is_sensitive_words.
    tauto.
Qed.
End SensitiveFilesProofs.

(** ** The working copy of one repository: [initialize] and [cleanup] *)
Section WorkingCopy.
Import Batch.
Variable E : Type.
Variable clone_from : string -> string -> M E unit.
Variable fetch_repo_info : M E unit.
Variable open_branch_manager : string -> M E unit.
Variable rmtree_error : string -> E -> option string.

Abbreviation world := (world E).
Abbreviation initialize := (initialize E clone_from fetch_repo_info open_branch_manager).
Abbreviation cleanup := (cleanup E rmtree_error).

(** The handler owns no temporary directory; the directories [T] exist. *)
Definition borrowing (T : gset string) (w : world) : Prop :=
  tmp_dirs E w = T /\ repo_handler E w = Some (RepositoryHandler None).

(** The handler owns the temporary directory [d], which exists beside the
    directories [T]. *)
Definition owning (T : gset string) (d : string) (w : world) : Prop :=
  tmp_dirs E w = {[d]} ∪ T /\ repo_handler E w = Some (RepositoryHandler (Some d)).

Lemma within_external {A} (I : world -> Prop) (m : M E A) :
  (forall e w, I w -> I (with_ext E e w)) -> within I (external E m).
Proof. intros H. apply within_zoom. exact H. Qed.

(** The steps of [initialize] after the clone. *)
Lemma initialize_rest_within (I : world -> Prop) path :
  (forall l w, I w -> I (with_logs E l w)) ->
  (forall e w, I w -> I (with_ext E e w)) ->
  (forall p w, I w -> I (with_repo_path E p w)) ->
  within I (modify (with_repo_path E (Some path)) >>
            external E fetch_repo_info >>
            external E (open_branch_manager path) >>
            log_event "INFO" ("Backend controller initialized with repository at "
                              +:+ path) INFO >>
            ret true).
Proof.
  intros Hl He Hp.
  apply within_bind; [apply within_modify; intros w; apply Hp|]. intros _.
  apply within_bind; [apply within_external, He|]. intros _.
  apply within_bind; [apply within_external, He|]. intros _.
  apply within_bind; [apply within_log_event, Hl|]. intros _. apply within_ret.
Qed.

Lemma initialize_outcome (P P' I : world -> Prop) url target_dir :
  (forall l w, I w -> I (with_logs E l w)) ->
  (forall e w, I w -> I (with_ext E e w)) ->
  (forall p w, I w -> I (with_repo_path E p w)) ->
  (forall w, P w -> P' (with_repo_handler E (Some (RepositoryHandler None)) w)) ->
  triple P' (match target_dir with
             | None => mkdtemp E
             | Some d => ret d
             end)
         (fun _ => I) (fun _ => I) ->
  triple P (initialize url target_dir) (fun _ => I) (fun _ => I).
Proof.
  intros Hl He Hp Hnew Hdir.
  assert (Hlog : forall ty msg lvl, within I (log_event ty msg lvl))
    by (intros; apply within_log_event, Hl).
  assert (Hfail : forall (A : Type) ty msg e, within I (log_event ty msg ERROR >> @raise _ A e)).
  { intros A ty msg e. apply within_bind; [apply Hlog|]. intros _. apply within_raise. }
  unfold Batch.initialize.
  apply (triple_try_except _ _ _ _ _ (fun _ => I)); [|intros e; apply Hfail].
  apply (triple_bind _ _ _ (fun _ => P')); [apply triple_modify, Hnew|]. intros _.
  apply (triple_bind _ _ _ (fun _ => I)); [|intros path; apply initialize_rest_within; assumption].
  unfold clone_repo.
  apply (triple_try_except _ _ _ _ _ (fun _ => I)); [|intros e; apply Hfail].
  apply (triple_bind _ _ _ (fun _ => I)); [exact Hdir|]. intros d.
  apply within_bind; [apply Hlog|]. intros _.
  apply within_bind; [apply within_external, He|]. intros _.
  apply within_bind; [apply Hlog|]. intros _. apply within_ret.
Qed.

(** [initialize] into a directory the caller names: whether it returns or
    raises, no temporary directory is made and the handler owns none. *)
Lemma initialize_borrows url dir (w : world) :
  borrowing (tmp_dirs E w) (snd (initialize url (Some dir) w)).
Proof.
  pose proof (initialize_outcome (fun w0 => tmp_dirs E w0 = tmp_dirs E w)
                (borrowing (tmp_dirs E w)) (borrowing (tmp_dirs E w)) url (Some dir)) as H.
  assert (Hrun : triple (fun w0 => tmp_dirs E w0 = tmp_dirs E w) (initialize url (Some dir))
                        (fun _ => borrowing (tmp_dirs E w))
                        (fun _ => borrowing (tmp_dirs E w))).
  { apply H.
    - intros l w0 Hw0. exact Hw0.
    - intros e w0 Hw0. exact Hw0.
    - intros p w0 Hw0. exact Hw0.
    - intros w0 Hw0. split; [exact Hw0|reflexivity].
    - apply within_ret. }
  specialize (Hrun w eq_refl).
  destruct (initialize url (Some dir) w) as [[b|e] w1]; exact Hrun.
Qed.

(** [initialize] with no directory named: whether it returns or raises, a
    new temporary directory exists and the handler owns it. *)
Lemma initialize_owns url (w : world) :
  owning (tmp_dirs E w) (fresh ({[EmptyString]} ∪ tmp_dirs E w))
         (snd (initialize url None w)).
Proof.
  set (T := tmp_dirs E w). set (d := fresh ({[EmptyString]} ∪ T)).
  pose proof (initialize_outcome (fun w0 => tmp_dirs E w0 = T) (fun w0 => tmp_dirs E w0 = T)
                (owning T d) url None) as H.
  assert (Hrun : triple (fun w0 => tmp_dirs E w0 = T) (initialize url None)
                        (fun _ => owning T d) (fun _ => owning T d)).
  { apply H.
    - intros l w0 Hw0. exact Hw0.
    - intros e w0 Hw0. exact Hw0.
    - intros p w0 Hw0. exact Hw0.
    - intros w0 Hw0. exact Hw0.
    - intros w0 Hw0. unfold mkdtemp. cbn. rewrite Hw0. split; reflexivity. }
  specialize (Hrun w eq_refl).
  destruct (initialize url None w) as [[b|e] w1]; exact Hrun.
Qed.

(** What [cleanup] does, case by case. *)
Lemma cleanup_cases (w : world) :
  let w1 := with_cleanup_calls E (S (cleanup_calls E w)) w in
  let done := logged (LogEntry "INFO" "Resources cleaned up successfully" INFO) in
  cleanup w =
  match repo_handler E w with
  | Some (RepositoryHandler (Some d)) =>
      if truthy d && bool_decide (d ∈ tmp_dirs E w) then
        match rmtree_error d (ext E w) with
        | Some msg =>
            (Ok tt, logged (LogEntry "ERROR" ("Failed to clean up resources: " +:+ msg) ERROR)
                      w1)
        | None =>
            (Ok tt,
             done (logged (LogEntry "CLEANUP" ("Removed temporary directory: " +:+ d) INFO)
                     (with_tmp_dirs E (tmp_dirs E w ∖ {[d]}) w1)))
        end
      else (Ok tt, done w1)
  | _ => (Ok tt, done w1)
  end.
Proof.
  intros w1 done. unfold Batch.cleanup. unfold bind at 1. cbn [modify]. fold w1.
  unfold try_except. unfold bind at 1. unfold bind at 1. cbn [gets].
  change (repo_handler E w1) with (repo_handler E w).
  destruct (repo_handler E w) as [[[d|]]|]; try reflexivity.
  unfold handler_cleanup. cbn [temp_dir]. unfold bind at 1. cbn [get].
  change (tmp_dirs E w1) with (tmp_dirs E w).
  destruct (truthy d && bool_decide (d ∈ tmp_dirs E w)); [|reflexivity].
  unfold bind at 1. unfold shutil_rmtree. change (ext E w1) with (ext E w).
  destruct (rmtree_error d (ext E w)); reflexivity.
Qed.

(** X20.  [cleanup] never raises.  It removes at most the temporary directory the
    handler owns; when [shutil.rmtree] fails on it, the failure is logged
    and the directory stays. *)
Theorem cleanup_never_raises (w : world) :
  exists w',
    cleanup w = (Ok tt, w')
    /\ tmp_dirs E w' ⊆ tmp_dirs E w
    /\ (forall d, d ∈ tmp_dirs E w -> d ∉ tmp_dirs E w' ->
          repo_handler E w = Some (RepositoryHandler (Some d))
          /\ rmtree_error d (ext E w) = None)
    /\ (forall d msg,
          repo_handler E w = Some (RepositoryHandler (Some d)) ->
          d <> EmptyString -> d ∈ tmp_dirs E w ->
          rmtree_error d (ext E w) = Some msg ->
          tmp_dirs E w' = tmp_dirs E w
          /\ logs w' = logs w ++ [LogEntry "ERROR" ("Failed to clean up resources: " +:+ msg)
                                           ERROR]).
Proof.
  rewrite cleanup_cases. cbv zeta.
  destruct (repo_handler E w) as [[[d|]]|] eqn:Hh.
  2,3: (eexists; split; [reflexivity|]; split; [reflexivity|]; split;
        [intros d Hd Hn; contradiction|intros d msg; discriminate]).
  destruct (truthy d && bool_decide (d ∈ tmp_dirs E w)) eqn:Hcond.
  - apply andb_true_iff in Hcond as [Htr Hin]. apply bool_decide_eq_true in Hin.
    destruct (rmtree_error d (ext E w)) as [msg|] eqn:Herr.
    + eexists. split; [reflexivity|]. split; [reflexivity|]. split.
      * intros d0 Hd0 Hn. contradiction.
      * intros d0 msg0 [= <-] _ _ Hm. rewrite Herr in Hm. injection Hm as <-.
        split; reflexivity.
    + eexists. split; [reflexivity|]. split.
      { intros x Hx. cbn in Hx. apply elem_of_difference in Hx as [Hx _]. exact Hx. }
      split.
      * intros d0 Hd0 Hn. cbn in Hn.
        destruct (decide (d0 = d)) as [->|Hne]; [split; [reflexivity|exact Herr]|].
        exfalso. apply Hn. apply elem_of_difference. split; [exact Hd0|].
        intros Hs. apply elem_of_singleton in Hs. contradiction.
      * intros d0 msg0 [= <-] _ _ Hm. rewrite Herr in Hm. discriminate.
  - eexists. split; [reflexivity|]. split; [reflexivity|]. split.
    + intros d0 Hd0 Hn. contradiction.
    + intros d0 msg0 [= <-] Hne Hin _. exfalso.
      apply andb_false_iff in Hcond as [Hc|Hc].
      * destruct d; [congruence|discriminate].
      * apply bool_decide_eq_false in Hc. contradiction.
Qed.

(** X21.  A directory the caller names is never removed: after [initialize] into
    it, whether it returned or raised, [cleanup] runs no [rmtree] and
    changes nothing but the log. *)
Theorem cleanup_keeps_named_directory (url dir : string) (w : world) :
  let w1 := snd (initialize url (Some dir) w) in
  tmp_dirs E w1 = tmp_dirs E w
  /\ cleanup w1
     = (Ok tt, logged (LogEntry "INFO" "Resources cleaned up successfully" INFO)
                 (with_cleanup_calls E (S (cleanup_calls E w1)) w1)).
Proof.
  intros w1. destruct (initialize_borrows url dir w) as [Ht Hh]. fold w1 in Ht, Hh.
  split; [exact Ht|]. rewrite cleanup_cases. cbv zeta. rewrite Hh. reflexivity.
Qed.

(** X22.  [initialize] called again before [cleanup] loses the first temporary
    directory: the controller takes a new handler, and [cleanup] removes
    the directory of the last one only. *)
Theorem initialize_again_leaks (url1 url2 : string) (w : world) :
  (forall d e, rmtree_error d e = None) ->
  let d1 := fresh ({[EmptyString]} ∪ tmp_dirs E w) in
  let w1 := snd (initialize url1 None w) in
  let w2 := snd (initialize url2 None w1) in
  (d1 ∉ tmp_dirs E w)
  /\ tmp_dirs E (snd (cleanup w2)) = {[d1]} ∪ tmp_dirs E w.
Proof.
  intros Hrm d1 w1 w2.
  destruct (initialize_owns url1 w) as [Ht1 Hh1]. fold d1 w1 in Ht1, Hh1.
  destruct (initialize_owns url2 w1) as [Ht2 Hh2]. fold w2 in Ht2, Hh2.
  set (d2 := fresh ({[EmptyString]} ∪ tmp_dirs E w1)) in *.
  assert (Hd1 : d1 ∉ tmp_dirs E w).
  { pose proof (is_fresh ({[EmptyString]} ∪ tmp_dirs E w)) as H. fold d1 in H.
    intros Hin. apply H, elem_of_union_r, Hin. }
  assert (Hd2 : (d2 ∉ tmp_dirs E w1) /\ d2 <> EmptyString).
  { pose proof (is_fresh ({[EmptyString]} ∪ tmp_dirs E w1)) as H. fold d2 in H.
    split; [intros Hin; apply H, elem_of_union_r, Hin|].
    intros Heq. apply H. rewrite Heq. apply elem_of_union_l, elem_of_singleton. reflexivity. }
  destruct Hd2 as [Hd2 Hne2]. split; [exact Hd1|].
  rewrite cleanup_cases. cbv zeta. rewrite Hh2.
  assert (Htr : truthy d2 = true) by (destruct d2; [congruence|reflexivity]).
  rewrite Htr, bool_decide_eq_true_2
    by (rewrite Ht2; apply elem_of_union_l, elem_of_singleton; reflexivity).
  rewrite Hrm. cbn. rewrite Ht2, <- Ht1.
  apply set_eq. intros x. rewrite elem_of_difference, elem_of_union, elem_of_singleton.
  split; [intros [[->|Hx] Hn]; [congruence|exact Hx]|].
  intros Hx. split; [right; exact Hx|]. intros ->. contradiction.
Qed.
End WorkingCopy.

Lemma for_each_ext {S A} (xs : list A) (body1 body2 : A -> M S unit) :
  (forall x s, body1 x s = body2 x s) ->
  forall s, for_each xs body1 s = for_each xs body2 s.
Proof.
  intros H. induction xs as [|x xs IH]; intros s; [reflexivity|].
  cbn [for_each]. unfold bind. rewrite H.
  destruct (body2 x s) as [[[]|e] s']; [apply IH|reflexivity].
Qed.

(** ** The batch: operations that are not asked for *)
Section SkippedOperations.
Import Batch.
Variable E : Type.
Variable clone_from : string -> string -> M E unit.
Variable fetch_repo_info : M E unit.
Variable open_branch_manager : string -> M E unit.
Variable rewrite_history :
  string -> string -> bool -> option datetime -> option datetime -> M E bool.
Variable rename_branches : list (string * string) -> M E bool.
Variable clean_sensitive_data : list string -> string -> M E bool.
Variable setup_remote_and_push :
  option string -> option string -> option string -> M E bool.
Variable format_template : string -> string -> nat -> result string.
Variable rmtree_error : string -> E -> option string.

Lemma process_batch_ext rh1 rb1 cs1 sp1 rh2 rb2 cs2 sp2 repo_urls ops :
  (forall i n url w,
     item_steps E clone_from fetch_repo_info open_branch_manager rh1 rb1 cs1 sp1
                format_template i n url ops w
     = item_steps E clone_from fetch_repo_info open_branch_manager rh2 rb2 cs2 sp2
                  format_template i n url ops w) ->
  forall w,
    process_batch E clone_from fetch_repo_info open_branch_manager rh1 rb1 cs1 sp1
                  format_template rmtree_error repo_urls ops w
    = process_batch E clone_from fetch_repo_info open_branch_manager rh2 rb2 cs2 sp2
                    format_template rmtree_error repo_urls ops w.
Proof.
  intros Hsteps w. unfold process_batch. cbv beta iota delta [bind modify gets].
  rewrite (for_each_ext _ _
             (process_item E clone_from fetch_repo_info open_branch_manager rh2 rb2 cs2 sp2
                           format_template rmtree_error (length repo_urls) ops));
    [reflexivity|].
  intros [i url] w0. unfold process_item. cbv beta iota delta [bind modify try_finally try_except].
  rewrite Hsteps. reflexivity.
Qed.

(** X23.  [process_batch] runs an operation only when its options are true to
    Python.  Scrubbing needs patterns and a replacement that is not empty:
    with an empty replacement text (or none, or no pattern) the batch is the
    same whatever [clean_sensitive_data] would do, so it is not called.
    Likewise the history is rewritten only with both a name and an e-mail,
    and branches are renamed only with a mapping that is not empty. *)
Theorem process_batch_skips_unasked (repo_urls : list string) (ops : operations)
    (w : world E) :
  (truthy_list (patterns ops) && truthy_str (replacement ops) = false ->
   forall other_clean,
     process_batch E clone_from fetch_repo_info open_branch_manager rewrite_history
                   rename_branches clean_sensitive_data setup_remote_and_push
                   format_template rmtree_error repo_urls ops w
     = process_batch E clone_from fetch_repo_info open_branch_manager rewrite_history
                     rename_branches other_clean setup_remote_and_push
                     format_template rmtree_error repo_urls ops w)
  /\ (truthy_str (new_author ops) && truthy_str (new_email ops) = false ->
      forall other_rewrite,
        process_batch E clone_from fetch_repo_info open_branch_manager rewrite_history
                      rename_branches clean_sensitive_data setup_remote_and_push
                      format_template rmtree_error repo_urls ops w
        = process_batch E clone_from fetch_repo_info open_branch_manager other_rewrite
                        rename_branches clean_sensitive_data setup_remote_and_push
                        format_template rmtree_error repo_urls ops w)
  /\ (truthy_list (branch_mapping ops) = false ->
      forall other_rename,
        process_batch E clone_from fetch_repo_info open_branch_manager rewrite_history
                      rename_branches clean_sensitive_data setup_remote_and_push
                      format_template rmtree_error repo_urls ops w
        = process_batch E clone_from fetch_repo_info open_branch_manager rewrite_history
                        other_rename clean_sensitive_data setup_remote_and_push
                        format_template rmtree_error repo_urls ops w).
Proof.
  split; [|split].
  - intros H other. apply process_batch_ext. intros i n url w0. unfold item_steps.
    destruct (patterns ops) as [[|p ps]|]; try reflexivity.
    destruct (replacement ops) as [r|]; try reflexivity.
    cbn in H. rewrite H. reflexivity.
  - intros H other. apply process_batch_ext. intros i n url w0. unfold item_steps.
    destruct (new_author ops) as [a|]; try reflexivity.
    destruct (new_email ops) as [e|]; try reflexivity.
    cbn in H. rewrite H. reflexivity.
  - intros H other. apply process_batch_ext. intros i n url w0. unfold item_steps.
    destruct (branch_mapping ops) as [[|m ms]|]; try reflexivity. discriminate.
Qed.
End SkippedOperations.

(** ** A pattern the engine refuses *)
Section RefusedPattern.
Import FileProcessor.
Variable re_search : string -> string -> result bool.
Variable re_sub : string -> string -> string -> result string.

Lemma replaced_refused patterns replacement content made bad :
  bad ∈ patterns -> (forall c, exists e, re_search bad c = Raise e) ->
  exists e, replaced re_search re_sub patterns replacement content made = Raise e.
Proof.
  intros Hin Hbad. revert content made.
  induction patterns as [|p rest IH]; intros content made; [inversion Hin|].
  cbn [replaced]. apply elem_of_cons in Hin as [<-|Hin].
  - destruct (Hbad content) as [e ->]. exists e. reflexivity.
  - destruct (re_search p content) as [[|]|e]; [|apply IH, Hin|exists e; reflexivity].
    destruct (re_sub p replacement content) as [c'|e]; [apply IH, Hin|exists e; reflexivity].
Qed.

(** The file at [q] decodes as text. *)
Definition is_text (f : gmap string string) (q : string) : bool :=
  match f !! q ≫= decode_text with Some _ => true | None => false end.

Lemma scan_and_replace_refused file_path patterns replacement bad (s : state) :
  bad ∈ patterns -> (forall c, exists e, re_search bad c = Raise e) ->
  files (snd (scan_and_replace re_search re_sub file_path patterns replacement s)) = files s
  /\ if is_text (files s) file_path
     then exists e, fst (scan_and_replace re_search re_sub file_path patterns replacement s)
                    = Raise e
     else fst (scan_and_replace re_search re_sub file_path patterns replacement s) = Ok false.
Proof.
  intros Hin Hbad. rewrite scan_and_replace_cases. unfold is_text.
  destruct (files s !! file_path) as [bytes|]; cbn [mbind option_bind]; [|split; reflexivity].
  destruct (decode_text bytes) as [content|]; [|split; reflexivity].
  destruct (replaced_refused patterns replacement content false bad Hin Hbad) as [e ->].
  split; [reflexivity|]. exists e. reflexivity.
Qed.

Lemma scan_files_refused paths patterns replacement count bad (s : state) :
  bad ∈ patterns -> (forall c, exists e, re_search bad c = Raise e) ->
  files (snd (scan_files re_search re_sub paths patterns replacement count s)) = files s
  /\ if existsb (is_text (files s)) paths
     then exists e, fst (scan_files re_search re_sub paths patterns replacement count s)
                    = Raise e
     else fst (scan_files re_search re_sub paths patterns replacement count s) = Ok count.
Proof.
  intros Hin Hbad. revert s. induction paths as [|p rest IH]; intros s; [split; reflexivity|].
  cbn [scan_files existsb]. unfold bind at 1 2 3.
  destruct (scan_and_replace_refused p patterns replacement bad s Hin Hbad) as [Hf Hr].
  destruct (scan_and_replace re_search re_sub p patterns replacement s) as [[b|e] s1];
    cbn [fst snd] in *.
  - destruct (is_text (files s) p); [destruct Hr; discriminate|]. injection Hr as ->.
    cbn [orb]. rewrite <- Hf. apply IH.
  - destruct (is_text (files s) p); [|discriminate]. cbn [orb fst snd].
    split; [exact Hf|exists e; reflexivity].
Qed.

(** X24.  A pattern the engine refuses whatever the text (a regular expression
    that does not compile) never leaves the working copy half scrubbed:
    [update_all_files] changes no file at all.  It raises as soon as a
    walked file decodes as text, and returns 0 when none does. *)
Theorem update_all_files_refused_pattern (patterns : list string) (replacement bad : string)
    (s : state) :
  bad ∈ patterns -> (forall c, exists e, re_search bad c = Raise e) ->
  files (snd (update_all_files re_search re_sub patterns replacement s)) = files s
  /\ if existsb (is_text (files s)) (os_walk s)
     then exists e, fst (update_all_files re_search re_sub patterns replacement s) = Raise e
     else fst (update_all_files re_search re_sub patterns replacement s) = Ok 0%nat.
Proof.
  intros Hin Hbad. unfold update_all_files. cbv beta iota delta [try_except bind gets].
  destruct (scan_files_refused (os_walk s) patterns replacement 0 bad s Hin Hbad) as [Hf Hr].
  destruct (scan_files re_search re_sub (os_walk s) patterns replacement 0 s) as [[n|e] s1];
    cbn [fst snd] in *.
  - destruct (existsb (is_text (files s)) (os_walk s)); [destruct Hr; discriminate|].
    injection Hr as ->. split; [exact Hf|reflexivity].
  - destruct (existsb (is_text (files s)) (os_walk s)); [|discriminate].
    split; [exact Hf|exists e; reflexivity].
Qed.
End RefusedPattern.

(** ** The commit of the scrub *)
Section ScrubCommit.
Import Git BackendController.
Variable re_search : string -> string -> result bool.
Variable re_sub : string -> string -> string -> result string.
Variable write_tree : gmap string string -> string.

(** The length of the longest line of ancestors of a commit. *)
Fixpoint height (c : commit) : nat :=
  match c with
  | Commit _ _ _ ps => S (list_max (map height ps))
  end.

Lemma ancestry_height c x : x ∈ ancestry c -> (height x <= height c)%nat.
Proof.
  induction c as [e t m ps IH] using commit_ind'. intros Hx.
  apply elem_of_ancestry in Hx as [->|(p & Hp & Hx)]; [apply Nat.le_refl|].
  cbn [parents_of] in Hp. rewrite Forall_forall in IH. specialize (IH p Hp Hx).
  cbn [height].
  assert (Hmax : (height p <= list_max (map height ps))%nat).
  { clear -Hp. induction ps as [|q ps IHps]; [inversion Hp|].
    change (list_max (map height (q :: ps)))
      with (Nat.max (height q) (list_max (map height ps))).
    apply elem_of_cons in Hp as [->|Hp]; [lia|].
    specialize (IHps Hp). lia. }
  lia.
Qed.

(** A commit is not among the ancestors of its parent. *)
Lemma not_own_ancestor e t m tip : Commit e t m [tip] ∉ ancestry tip.
Proof.
  intros Hin. apply ancestry_height in Hin. cbn in Hin. lia.
Qed.

(** The refs once [HEAD]'s branch points to [c]. *)
Definition advanced (c : commit) (repo : repository) : list (string * commit) :=
  map (fun r => if String.eqb (fst r) (HEAD repo) then (fst r, c) else r) (refs repo).

Lemma ref_tip_advanced c repo name tip :
  ref_tip repo (HEAD repo) = Some tip ->
  ref_tip (set_refs (advanced c repo) repo) name
  = if String.eqb name (HEAD repo) then Some c else ref_tip repo name.
Proof.
  unfold ref_tip, set_refs, advanced. cbn [refs]. generalize (HEAD repo) as h. intros h.
  induction (refs repo) as [|r rs IH]; cbn [map List.find fmap option_fmap option_map];
    [discriminate|].
  destruct (String.eqb (fst r) h) eqn:Eh.
  - apply String.eqb_eq in Eh. intros _. cbn [fst].
    destruct (String.eqb name h) eqn:En.
    + apply String.eqb_eq in En. subst name. rewrite Eh, String.eqb_refl. reflexivity.
    + assert (E : String.eqb (fst r) name = false)
        by (apply String.eqb_neq; apply String.eqb_neq in En; congruence).
      rewrite E.
      clear IH. induction rs as [|r' rs' IH']; [reflexivity|]. cbn [map List.find].
      destruct (String.eqb (fst r') h) eqn:Eh'; cbn [fst].
      * apply String.eqb_eq in Eh'.
        assert (E' : String.eqb (fst r') name = false)
          by (apply String.eqb_neq; apply String.eqb_neq in En; congruence).
        rewrite E'. exact IH'.
      * destruct (String.eqb (fst r') name); [reflexivity|exact IH'].
  - intros Htip. specialize (IH Htip). destruct (String.eqb (fst r) name) eqn:En.
    + apply String.eqb_eq in En. subst name. rewrite Eh. reflexivity.
    + exact IH.
Qed.

(** X25.  When [update_all_files] modified files and [HEAD]'s branch has a tip,
    [clean_sensitive_data] makes exactly one commit: the branch of [HEAD]
    moves to a commit with the message "Clean sensitive data", the tree of
    the scrubbed files and the former tip as its only parent, and every
    other ref stays.  When git finds nothing to commit (the tree is that of
    the tip), it raises, and the files stay scrubbed. *)
Theorem clean_sensitive_data_commits (patterns : list string) (replacement : string)
    (s : state) (n : nat) (t : FileProcessor.state) (tip : commit) :
  FileProcessor.update_all_files re_search re_sub patterns replacement
    (file_processor_view s) = (Ok n, t) ->
  (0 < n)%nat ->
  ref_tip (st_repo s) (HEAD (st_repo s)) = Some tip ->
  let tree := write_tree (FileProcessor.files t) in
  let c := Commit (commit_stamp s) tree "Clean sensitive data" [tip] in
  (tree_of tip <> tree ->
   exists s',
     clean_sensitive_data re_search re_sub write_tree patterns replacement s = (Ok true, s')
     /\ files s' = FileProcessor.files t
     /\ HEAD (st_repo s') = HEAD (st_repo s)
     /\ iter_commits (st_repo s') = c :: iter_commits (st_repo s)
     /\ forall name, name <> HEAD (st_repo s) ->
          ref_tip (st_repo s') name = ref_tip (st_repo s) name)
  /\ (tree_of tip = tree ->
      exists s',
        clean_sensitive_data re_search re_sub write_tree patterns replacement s
        = (Raise (GitCommandError "nothing to commit, working tree clean"), s')
        /\ files s' = FileProcessor.files t
        /\ st_repo s' = st_repo s).
Proof.
  intros Hrun Hn Htip tree c.
  assert (Hpos : (0 <? n)%nat = true) by (apply Nat.ltb_lt; exact Hn).
  unfold clean_sensitive_data. cbv beta iota delta [try_except bind zoom].
  rewrite Hrun. cbv beta iota. rewrite Hpos. cbv beta iota.
  unfold git_add_commit.
  cbn [st_repo files file_processor_update commit_stamp].
  rewrite Htip. fold tree.
  split.
  - intros Hne. apply String.eqb_neq in Hne. rewrite Hne.
    eexists. split; [reflexivity|]. split; [reflexivity|]. split; [reflexivity|].
    fold c. split.
    + cbn. unfold iter_commits.
      change (HEAD (set_refs (advanced c (st_repo s)) (st_repo s))) with (HEAD (st_repo s)).
      rewrite (ref_tip_advanced c (st_repo s) _ tip Htip), String.eqb_refl, Htip.
      unfold rev_list. unfold c at 1. cbn [ancestry flat_map]. rewrite app_nil_r.
      cbn [remove_dups].
      destruct (decide_rel elem_of (Commit (commit_stamp s) tree "Clean sensitive data" [tip])
                           (ancestry tip)) as [Hin|Hnin]; [|reflexivity].
      exfalso. exact (not_own_ancestor _ _ _ _ Hin).
    + intros name Hname.
      change (ref_tip (set_refs (advanced c (st_repo s)) (st_repo s)) name
              = ref_tip (st_repo s) name).
      rewrite (ref_tip_advanced c (st_repo s) _ tip Htip).
      apply String.eqb_neq in Hname. rewrite Hname. reflexivity.
  - intros He. apply String.eqb_eq in He. rewrite He.
    eexists. split; [reflexivity|]. split; reflexivity.
Qed.
End ScrubCommit.

(** ** Rewriting the identity twice *)
Section IdentityTwice.
Import Git CommitModifier.
Variable hexsha : commit -> string.

Lemma author_filter_again new_author new_email sha1 sha2 e :
  author_filter new_author new_email sha1 (author_filter new_author new_email sha2 e)
  = author_filter new_author new_email sha2 e.
Proof.
  destruct (author_filter_sets new_author new_email sha2 e) as [Hn He].
  unfold author_filter at 1. rewrite Hn, He, !String.eqb_refl. reflexivity.
Qed.

Lemma remove_dups_NoDup {A} `{EqDecision A} (l : list A) : NoDup l -> remove_dups l = l.
Proof.
  induction 1 as [|x l Hx _ IH]; [reflexivity|]. cbn [remove_dups].
  destruct (decide_rel elem_of x l); [contradiction|]. rewrite IH. reflexivity.
Qed.

(** A commit the identity rewrite made is left as it is by a second
    rewrite to the same identity. *)
Lemma rewrite_commit_again new_author new_email c :
  let f := author_filter new_author new_email in
  rewrite_commit hexsha f (rewrite_commit hexsha f c) = rewrite_commit hexsha f c.
Proof.
  intros f. induction c as [e t m ps IH] using commit_ind'.
  rewrite (rewrite_commit_unfold hexsha f e t m ps).
  set (ps' := remove_dups (map (rewrite_commit hexsha f) ps)).
  rewrite (rewrite_commit_unfold hexsha f _ t m ps').
  unfold f at 1 2. rewrite author_filter_again. fold f. f_equal.
  assert (Hfix : map (rewrite_commit hexsha f) ps' = ps').
  { rewrite <- (map_id ps') at 2. apply map_ext_in. intros x Hx.
    apply list_elem_of_In in Hx. unfold ps' in Hx.
    apply elem_of_remove_dups, list_elem_of_In, in_map_iff in Hx as (p & <- & Hp).
    rewrite Forall_forall in IH. apply IH, list_elem_of_In, Hp. }
  rewrite Hfix. apply remove_dups_NoDup. unfold ps'. apply NoDup_remove_dups.
Qed.

Lemma update_commit_metadata_identity new_author new_email (s : state) :
  truthy new_author && truthy new_email = true ->
  tool_succeeds 1 s ->
  update_commit_metadata hexsha new_author new_email None s
  = (Ok true, identity_rewritten hexsha new_author new_email s).
Proof.
  intros Ht Htool. pose proof (head_tool_succeeds _ _ Htool) as Hhead.
  rewrite update_commit_metadata_phases. unfold try_except. unfold bind at 1.
  rewrite (identity_phase_run hexsha _ _ _ Ht).
  destruct (head (tool_runs s)) as [[|stderr left]|]; [reflexivity|destruct Hhead|reflexivity].
Qed.

End IdentityTwice.

(** * Worked examples *)
Section Examples.
Import Git.

(** A stand-in for the commit id in the examples: tree, message, author
    and number of parents, run together. *)
Definition sample_hexsha (c : commit) : string :=
  match c with
  | Commit e t m ps => t +:+ m +:+ GIT_AUTHOR_NAME e +:+ pretty (length ps)
  end.

Definition by_bob : commit_env := CommitEnv "Bob" "bob@x.com" 100 "Bob" "bob@x.com" 100.
Definition by_carol : commit_env :=
  CommitEnv "Carol" "carol@x.com" 100 "Carol" "carol@x.com" 100.

(** Three commits in a line. *)
Definition first_commit : commit := Commit by_bob "t0" "init" [].
Definition second_commit : commit := Commit by_bob "t1" "second" [first_commit].
Definition third_commit : commit := Commit by_carol "t2" "third" [second_commit].
Definition linear_repo : repository := Repository [("master", third_commit)] "master".

(** Two commits that differ in their author only, and their merge. *)
Definition fix_by_bob : commit := Commit by_bob "t1" "fix" [first_commit].
Definition fix_by_carol : commit := Commit by_carol "t1" "fix" [first_commit].
Definition merge_commit : commit := Commit by_bob "t2" "merge" [fix_by_bob; fix_by_carol].
Definition twin_repo : repository := Repository [("master", merge_commit)] "master".

Definition sample_bits (n : nat) : Z := (Z.of_nat n * 3000000000000000 + 12345)%Z.

Definition modifier_on (repo : repository) (runs : list CommitModifier.tool_outcome)
    : CommitModifier.state :=
  CommitModifier.State [] "/tmp/work" repo ∅ runs sample_bits 0 (fun _ => 0%Z) 0.




Definition twin_run : result bool * CommitModifier.state :=
  CommitModifier.update_commit_metadata sample_hexsha "A" "a@x.com" None
    (modifier_on twin_repo []).



(** The count check comes after the identity rewrite, and an empty list of
    dates skips it. *)
Definition single_repo : repository := Repository [("master", first_commit)] "master".

Definition rewritten_first_commit : commit :=
  Commit (CommitEnv "A" "a@x.com" 100 "A" "a@x.com" 100) "t0" "init" [].



(** The rewrite tool fails on a repository of three commits given three
    dates. *)
Definition failed_date_rewrite : result bool * CommitModifier.state :=
  CommitModifier._update_commit_dates sample_hexsha [3000000; 2000000; 1000000]%Z
    (modifier_on linear_repo [CommitModifier.ExitNonzero "fatal: rewrite failed" linear_repo]).

(** C9, where the program departs from it.  When the rewrite tool exits
    with a non-zero status, [_update_commit_dates] raises and both scratch
    files, [.git/date_map.txt] and [.git/change_dates.sh], are still there. *)
Lemma date_rewrite_failure_leaves_scratch_files :
  fst failed_date_rewrite
  = Raise (RuntimeError "Error updating commit dates: fatal: rewrite failed")
  /\ CommitModifier.git_dir (snd failed_date_rewrite) !! ".git/date_map.txt"
     = Some (CommitModifier.DateMapFile
               [("t2third", 3%Z); ("t1secon", 2%Z); ("t0initB", 1%Z)])
  /\ CommitModifier.git_dir (snd failed_date_rewrite) !! ".git/change_dates.sh"
     = Some CommitModifier.FilterScript.
Proof. vm_compute. repeat split. Qed.

Lemma scratch_files_after_date_rewrite_witness :
  length (iter_commits linear_repo) = length [3000000; 2000000; 1000000]%Z
  /\ CommitModifier.git_dir (modifier_on linear_repo [CommitModifier.ExitZero])
     !! ".git/date_map.txt" = None
  /\ CommitModifier.git_dir (modifier_on linear_repo [CommitModifier.ExitZero])
     !! ".git/change_dates.sh" = None
  /\ CommitModifier.git_dir
       (snd (CommitModifier._update_commit_dates sample_hexsha
               [3000000; 2000000; 1000000]%Z
               (modifier_on linear_repo [CommitModifier.ExitZero])))
     = CommitModifier.git_dir (modifier_on linear_repo [CommitModifier.ExitZero]).
Proof.
  assert (H0 : length (iter_commits linear_repo) = length [3000000; 2000000; 1000000]%Z)
    by (vm_compute; reflexivity).
  assert (H1 : CommitModifier.git_dir (modifier_on linear_repo [CommitModifier.ExitZero])
               !! ".git/date_map.txt" = None) by reflexivity.
  assert (H2 : CommitModifier.git_dir (modifier_on linear_repo [CommitModifier.ExitZero])
               !! ".git/change_dates.sh" = None) by reflexivity.
  split; [exact H0|]. split; [exact H1|]. split; [exact H2|].
  exact (scratch_files_after_date_rewrite sample_hexsha
           (modifier_on linear_repo [CommitModifier.ExitZero])
           [3000000; 2000000; 1000000]%Z H0 H1 H2).
Defined.

(** Scrubbing a licence file. *)
Definition capitalised : FileProcessor.state :=
  FileProcessor.State [] {["LICENSE" := "Copyright 2020 Jane Doe"]}.
Definition lower_case : FileProcessor.state :=
  FileProcessor.State [] {["LICENSE" := "copyright 2020 Jane Doe"]}.



(** A stand-in for the tree id in the examples: paths and contents, run
    together. *)
Definition sample_write_tree (f : gmap string string) : string :=
  fold_right (fun kv acc => fst kv +:+ "=" +:+ snd kv +:+ ";" +:+ acc) ""
             (map_to_list f).

Definition stamp : commit_env := CommitEnv "A" "a@x.com" 200 "A" "a@x.com" 200.

Definition working_copy (f : gmap string string) : BackendController.state :=
  BackendController.State [] f
    (Repository [("master", Commit by_bob (sample_write_tree f) "init" [])] "master")
    stamp.

(** A replacement in which the pattern is found again: every run modifies
    the file and commits. *)
Definition key_once : result bool * BackendController.state :=
  BackendController.clean_sensitive_data literal_search literal_sub sample_write_tree
    ["key"] "[key]" (working_copy {["notes.txt" := "key"]}).
Definition key_twice : result bool * BackendController.state :=
  BackendController.clean_sensitive_data literal_search literal_sub sample_write_tree
    ["key"] "[key]" (snd key_once).


(** A replacement in which no pattern is found: the second run is idle. *)
Definition redacted_once : result bool * BackendController.state :=
  BackendController.clean_sensitive_data literal_search literal_sub sample_write_tree
    ["copyright"; "author"] "[REDACTED]"
    (working_copy {["LICENSE" := "copyright 2020 Jane Doe, author"]}).



(** Renaming branches. *)
Definition two_branches : BranchRemoteManager.state :=
  BranchRemoteManager.State []
    (Repository [("main", third_commit); ("dev", second_commit)] "main") None.

Lemma rename_branch_failures_witness :
  (("gone" ∉ branches (BranchRemoteManager.st_repo two_branches))
   /\ BranchRemoteManager.rename_branch "gone" "dev" two_branches
      = (Ok false,
         logged (LogEntry "ERROR" "Branch gone does not exist" ERROR) two_branches))
  /\ (("main" ∈ branches (BranchRemoteManager.st_repo two_branches))
      /\ ("dev" ∈ branches (BranchRemoteManager.st_repo two_branches))
      /\ exists s',
           BranchRemoteManager.rename_branch "main" "dev" two_branches = (Ok false, s')
           /\ s' = logged (LogEntry "ERROR" "Branch dev already exists" ERROR) two_branches
           /\ BranchRemoteManager.st_repo s' = BranchRemoteManager.st_repo two_branches
           /\ "main" ∈ branches (BranchRemoteManager.st_repo s')
           /\ "dev" ∈ branches (BranchRemoteManager.st_repo s')).
Proof.
  destruct (rename_branch_failures two_branches "gone" "dev") as (Habsent & _ & _).
  destruct (rename_branch_failures two_branches "main" "dev") as (_ & Hcollide & _).
  assert (H1 : "gone" ∉ branches (BranchRemoteManager.st_repo two_branches))
    by (apply str_in_false; reflexivity).
  assert (H2 : "main" ∈ branches (BranchRemoteManager.st_repo two_branches))
    by (apply str_in_spec; reflexivity).
  assert (H3 : "dev" ∈ branches (BranchRemoteManager.st_repo two_branches))
    by (apply str_in_spec; reflexivity).
  split; [split; [exact H1|exact (Habsent H1)]|].
  split; [exact H2|]. split; [exact H3|]. exact (Hcollide H2 H3).
Defined.

(** Files without a match. *)
Definition mixed_files : FileProcessor.state :=
  FileProcessor.State []
    (<["README" := "nothing to see"]>
       (<["LICENSE" := "copyright 2020"]>
          (<[".git/config" := "copyright"]> ∅))).


(** A batch of three, the second locator unreachable.  The rest of the
    world is the list of unreachable locators; every other step succeeds. *)
Definition unreachable : Type := list string.

Definition sample_clone (url dir : string) : M unreachable unit :=
  fun e => if str_in url e then (Raise (GitCommandError "repository not found"), e)
           else (Ok tt, e).

Definition sample_batch (urls : list string) (ops : Batch.operations)
    : M (Batch.world unreachable) (list Batch.batch_result) :=
  Batch.process_batch unreachable sample_clone (ret tt) (fun _ => ret tt)
    (fun _ _ _ _ _ => ret true) (fun _ => ret true) (fun _ _ => ret true)
    (fun _ _ _ => ret true) (fun template _ _ => Ok template) (fun _ _ => None)
    urls ops.

Definition sample_operations : Batch.operations :=
  Batch.Operations (Some "A") (Some "a@x.com") None None None None
                   (Some ["copyright"]) (Some "[REDACTED]") None None None.

Definition idle_world : Batch.world unreachable :=
  Batch.World unreachable [] None None false [] (Batch.BatchResult "" false None [])
              ∅ 0 ["https://host/two.git"].

Definition three_urls : list string :=
  ["https://host/one.git"; "https://host/two.git"; "https://host/three.git"].

(** A batch of three repositories of which the second cannot be
    cloned: three entries in the order of the urls, the first and the third
    successful with their operations, the second failed with the clone's
    message, no working directory left and one cleanup per item. *)
Lemma batch_of_three_isolates_the_failure :
  fst (sample_batch three_urls sample_operations idle_world)
  = Ok [Batch.BatchResult "https://host/one.git" true None
          ["rewrite_history"; "clean_sensitive_data"];
        Batch.BatchResult "https://host/two.git" false (Some "repository not found") [];
        Batch.BatchResult "https://host/three.git" true None
          ["rewrite_history"; "clean_sensitive_data"]]
  /\ Batch.tmp_dirs unreachable (snd (sample_batch three_urls sample_operations idle_world))
     = ∅
  /\ Batch.cleanup_calls unreachable
       (snd (sample_batch three_urls sample_operations idle_world)) = 3.
Proof. vm_compute. repeat split. Qed.


Lemma process_batch_isolates_failures_witness :
  rmtree_succeeds unreachable (fun _ _ => None)
  /\ exists results w',
       sample_batch three_urls sample_operations idle_world = (Ok results, w')
       /\ Forall2 accounted three_urls results
       /\ Batch.cleanup_calls unreachable w' = 0 + length three_urls
       /\ Batch.tmp_dirs unreachable w' = ∅.
Proof.
  assert (Hrm : rmtree_succeeds unreachable (fun _ _ => None)) by (intros d e; reflexivity).
  split; [exact Hrm|].
  destruct (process_batch_isolates_failures unreachable sample_clone (ret tt)
              (fun _ => ret tt) (fun _ _ _ _ _ => ret true) (fun _ => ret true)
              (fun _ _ => ret true) (fun _ _ _ => ret true)
              (fun template _ _ => Ok template) (fun _ _ => None)
              three_urls sample_operations idle_world)
    as (results & w' & Hrun & Hall & Hcalls & Hdirs).
  exists results, w'. split; [exact Hrun|]. split; [exact Hall|].
  split; [exact Hcalls|exact (Hdirs Hrm)].
Defined.

(** A working copy with one remote, a provider that knows one token, and a
    remote side that rejects what is pushed to [https://host/closed.git]. *)
Definition sample_provider (_ : list Publishing.request) (r : Publishing.request)
    : result Publishing.response :=
  if String.eqb (Publishing.authorization r) "token good" then
    Ok (Publishing.Response 201
          (Ok {["clone_url" := "https://host/" +:+ Publishing.name r +:+ ".git";
                "ssh_url" := "git@host:" +:+ Publishing.name r +:+ ".git"]}))
  else
    Ok (Publishing.Response 401 (Ok {["message" := "Bad credentials"]})).

Definition sample_push (url refspec : string) (force : bool) : Publishing.push_outcome :=
  if String.eqb url "https://host/closed.git" then
    Publishing.Pushed [Publishing.PushInfo 1032 "[remote rejected]"]
  else Publishing.Pushed [Publishing.PushInfo 256 "abc..def"].

Definition cloned : Publishing.state :=
  Publishing.State [] None [("origin", "https://host/source.git")] (Some "main") None
                   sample_provider [] sample_push [].

Lemma add_remote_sets_url_witness :
  Publishing.git_refuses cloned = None
  /\ exists s',
       Publishing.add_remote "origin" "https://host/mirror.git" cloned = (Ok true, s')
       /\ Publishing.remote_url_of "origin" (Publishing.remotes s')
          = Some "https://host/mirror.git".
Proof.
  assert (H : Publishing.git_refuses cloned = None) by reflexivity.
  split; [exact H|].
  destruct (add_remote_sets_url "origin" "https://host/mirror.git" cloned H)
    as (s' & Hrun & Hurl & _).
  exists s'. split; [exact Hrun|exact Hurl].
Defined.

Lemma push_changes_answer_witness :
  Publishing.opens cloned = None
  /\ Publishing.active_branch cloned = Some "main"
  /\ Publishing.remote_url_of "origin" (Publishing.remotes cloned)
     = Some "https://host/source.git"
  /\ fst (Publishing.push_changes "origin" true cloned) = Ok true
  /\ Publishing.pushed (snd (Publishing.push_changes "origin" true cloned))
     = [("https://host/source.git", "main:main", true)].
Proof.
  assert (H1 : Publishing.opens cloned = None) by reflexivity.
  assert (H2 : Publishing.active_branch cloned = Some "main") by reflexivity.
  assert (H3 : Publishing.remote_url_of "origin" (Publishing.remotes cloned)
               = Some "https://host/source.git") by reflexivity.
  split; [exact H1|]. split; [exact H2|]. split; [exact H3|].
  destruct (push_changes_answer "origin" true cloned "main" "https://host/source.git"
              H1 H2 H3) as (Hans & Hpushed & _).
  split; [exact Hans|exact Hpushed].
Defined.

Lemma push_changes_nothing_to_push_witness :
  Publishing.remote_url_of "upstream" (Publishing.remotes cloned) = None
  /\ exists e s',
       Publishing.push_changes "upstream" true cloned = (Raise e, s')
       /\ Publishing.pushed s' = [].
Proof.
  assert (H : Publishing.remote_url_of "upstream" (Publishing.remotes cloned) = None)
    by reflexivity.
  split; [exact H|].
  destruct (push_changes_nothing_to_push "upstream" true cloned (or_intror (or_intror H)))
    as (e & s' & Hrun & Hpushed & _).
  exists e, s'. split; [exact Hrun|exact Hpushed].
Defined.

Definition created : result string * Publishing.state :=
  Publishing.create_remote_repo "mirror" "good" true false cloned.

Lemma create_remote_repo_created_witness :
  Publishing.create_remote_repo "mirror" "good" true false cloned
  = (Ok "https://host/mirror.git", snd created)
  /\ Publishing.posted (snd created) = [creation_request "mirror" "good" true]
  /\ Publishing.remotes (snd created) = Publishing.remotes cloned.
Proof.
  assert (H : Publishing.create_remote_repo "mirror" "good" true false cloned
              = (Ok "https://host/mirror.git", snd created)) by reflexivity.
  split; [exact H|].
  destruct (create_remote_repo_created "mirror" "good" true false cloned (snd created)
              "https://host/mirror.git" H) as (d & _ & _ & Hposted & Hremotes & _).
  split; [exact Hposted|exact Hremotes].
Defined.

Lemma create_remote_repo_refused_witness :
  sample_provider [] (creation_request "mirror" "bad" true)
  = Ok (Publishing.Response 401 (Ok {["message" := "Bad credentials"]}))
  /\ 401%Z <> 201%Z
  /\ exists s',
       Publishing.create_remote_repo "mirror" "bad" true false cloned
       = (Raise (Exception
                   ("Failed to create repository: "
                    +:+ refusal_message {["message" := "Bad credentials"]})), s')
       /\ refusal_message {["message" := "Bad credentials"]}
          = "Bad credentials: Please check your GitHub token is valid and has proper permissions (repo scope)".
Proof.
  assert (H1 : Publishing.provider cloned (Publishing.posted cloned)
                 (creation_request "mirror" "bad" true)
               = Ok (Publishing.Response 401 (Ok {["message" := "Bad credentials"]})))
    by reflexivity.
  assert (H2 : 401%Z <> 201%Z) by discriminate.
  split; [exact H1|]. split; [exact H2|].
  destruct (create_remote_repo_refused "mirror" "bad" true false cloned 401
              {["message" := "Bad credentials"]} H1 H2) as (s' & Hrun & _ & Hhint & _).
  exists s'. split; [exact Hrun|]. apply Hhint. reflexivity.
Defined.

Lemma setup_remote_and_push_hides_push_failure_witness :
  Publishing.push_to cloned "https://host/closed.git" "main:main" true
  = Publishing.Pushed [Publishing.PushInfo 1032 "[remote rejected]"]
  /\ push_answer (Publishing.push_to cloned "https://host/closed.git" "main:main" true)
     = Ok false
  /\ exists s',
       Publishing.setup_remote_and_push (Some "https://host/closed.git") (Some "good")
         (Some "mirror") true cloned = (Ok true, s')
       /\ Publishing.posted s' = [].
Proof.
  assert (Hp : push_answer (Publishing.push_to cloned "https://host/closed.git"
                              ("main" +:+ ":" +:+ "main") true) = Ok false)
    by reflexivity.
  split; [reflexivity|]. split; [exact Hp|].
  destruct (setup_remote_and_push_hides_push_failure "https://host/closed.git"
              (Some "good") (Some "mirror") true cloned "main" false
              eq_refl eq_refl eq_refl eq_refl Hp) as (s' & Hrun & _ & _ & Hposted).
  exists s'. split; [exact Hrun|exact Hposted].
Defined.

Lemma setup_remote_and_push_without_url_witness :
  Publishing.setup_remote_and_push (Some "") (Some "good") None true cloned
  = (Ok false, logged (LogEntry "ERROR" "No remote URL provided" ERROR) cloned).
Proof.
  exact (setup_remote_and_push_without_url (Some "") (Some "good") None true cloned
           eq_refl eq_refl).
Defined.

Lemma setup_remote_and_push_creates_witness :
  exists s',
    Publishing.setup_remote_and_push None (Some "good") (Some "mirror") true cloned
    = (Ok true, s')
    /\ Publishing.posted s' = [creation_request "mirror" "good" true]
    /\ Publishing.remote_url_of "origin" (Publishing.remotes s')
       = Some "https://host/mirror.git"
    /\ Publishing.pushed s' = [("https://host/mirror.git", "main:main", true)].
Proof.
  exact (setup_remote_and_push_creates None "good" "mirror" true cloned
           {["clone_url" := "https://host/mirror.git"; "ssh_url" := "git@host:mirror.git"]}
           "https://host/mirror.git" "main" true
           eq_refl eq_refl eq_refl eq_refl eq_refl eq_refl eq_refl eq_refl eq_refl eq_refl).
Defined.

(** Dating three commits in a line. *)
Definition dated : result bool * CommitModifier.state :=
  CommitModifier._update_commit_dates sample_hexsha [3000000; 2000000; 1000000]%Z
    (modifier_on linear_repo []).


(** A commit on another branch whose id starts like the tip's. *)
Definition side_commit : commit := Commit by_carol "t2" "third" [first_commit].



(** Two clones in a row, one cleanup. *)
Lemma initialize_again_leaks_witness :
  let w1 := snd (Batch.initialize unreachable sample_clone (ret tt) (fun _ => ret tt)
                   "https://host/one.git" None idle_world) in
  let w2 := snd (Batch.initialize unreachable sample_clone (ret tt) (fun _ => ret tt)
                   "https://host/three.git" None w1) in
  Batch.tmp_dirs unreachable idle_world = ∅
  /\ Batch.tmp_dirs unreachable
       (snd (Batch.cleanup unreachable (fun _ _ => None) w2))
     = {[fresh ({[EmptyString]} ∪ Batch.tmp_dirs unreachable idle_world)]}
       ∪ Batch.tmp_dirs unreachable idle_world.
Proof.
  intros w1 w2. split; [reflexivity|].
  exact (proj2 (initialize_again_leaks unreachable sample_clone (ret tt) (fun _ => ret tt)
                  (fun _ _ => None) "https://host/one.git" "https://host/three.git"
                  idle_world (fun _ _ => eq_refl))).
Defined.

(** An engine that does not compile a lone parenthesis. *)
Definition strict_search (pattern content : string) : result bool :=
  if String.eqb pattern "(" then
    Raise (ReError "missing ), unterminated subpattern at position 0")
  else literal_search pattern content.

Lemma update_all_files_refused_pattern_witness :
  "(" ∈ ["copyright"; "("]
  /\ FileProcessor.files
       (snd (FileProcessor.update_all_files strict_search literal_sub ["copyright"; "("]
               "[REDACTED]" mixed_files))
     = FileProcessor.files mixed_files
  /\ exists e,
       fst (FileProcessor.update_all_files strict_search literal_sub ["copyright"; "("]
              "[REDACTED]" mixed_files) = Raise e.
Proof.
  assert (H1 : "(" ∈ ["copyright"; "("]) by (right; left).
  assert (H2 : forall c, exists e, strict_search "(" c = Raise e)
    by (intros c; eexists; reflexivity).
  split; [exact H1|].
  destruct (update_all_files_refused_pattern strict_search literal_sub
              ["copyright"; "("] "[REDACTED]" "(" mixed_files H1 H2) as [Hfiles Hraise].
  split; [exact Hfiles|].
  assert (Htext : existsb (is_text (FileProcessor.files mixed_files))
                          (FileProcessor.os_walk mixed_files) = true)
    by (vm_compute; reflexivity).
  rewrite Htext in Hraise. exact Hraise.
Defined.

Lemma pair_of_fst {A B} (x : A * B) (a : A) : fst x = a -> x = (a, snd x).
Proof. destruct x. cbn. intros ->. reflexivity. Qed.

Definition scrubbed_notes : result nat * FileProcessor.state :=
  FileProcessor.update_all_files literal_search literal_sub ["key"] "[key]"
    (BackendController.file_processor_view (working_copy {["notes.txt" := "key"]})).

Lemma clean_sensitive_data_commits_witness :
  FileProcessor.update_all_files literal_search literal_sub ["key"] "[key]"
    (BackendController.file_processor_view (working_copy {["notes.txt" := "key"]}))
  = (Ok 1%nat, snd scrubbed_notes)
  /\ exists s',
       BackendController.clean_sensitive_data literal_search literal_sub sample_write_tree
         ["key"] "[key]" (working_copy {["notes.txt" := "key"]}) = (Ok true, s')
       /\ BackendController.files s' = FileProcessor.files (snd scrubbed_notes)
       /\ length (iter_commits (BackendController.st_repo s')) = 2.
Proof.
  set (tip := Commit by_bob (sample_write_tree {["notes.txt" := "key"]}) "init" []).
  assert (H1 : FileProcessor.update_all_files literal_search literal_sub ["key"] "[key]"
                 (BackendController.file_processor_view
                    (working_copy {["notes.txt" := "key"]}))
               = (Ok 1%nat, snd scrubbed_notes)).
  { apply (pair_of_fst scrubbed_notes). vm_compute. reflexivity. }
  assert (H2 : (0 < 1)%nat) by lia.
  assert (H3 : ref_tip (BackendController.st_repo (working_copy {["notes.txt" := "key"]}))
                 (HEAD (BackendController.st_repo (working_copy {["notes.txt" := "key"]})))
               = Some tip) by reflexivity.
  assert (H4 : BackendController.tree_of tip
               <> sample_write_tree (FileProcessor.files (snd scrubbed_notes))).
  { apply String.eqb_neq. vm_compute. reflexivity. }
  split; [exact H1|].
  destruct (clean_sensitive_data_commits literal_search literal_sub sample_write_tree
              ["key"] "[key]" (working_copy {["notes.txt" := "key"]}) 1
              (snd scrubbed_notes) tip H1 H2 H3) as [Hcommit _].
  destruct (Hcommit H4) as (s' & Hrun & Hfiles & _ & Hcommits & _).
  exists s'. split; [exact Hrun|]. split; [exact Hfiles|].
  rewrite Hcommits. vm_compute. reflexivity.
Defined.

End Examples.
